(** * Resizer: a shallow embedding of [src/resizer/src/Resizer.cc]

    The development follows the layout of the C++ file: machine integers
    and geometry, the netlist edits the resizer issues, the resizer object
    itself, and then one block per algorithm (name generator, buffer
    removal, port buffering, gate sizing, target loads, wire parasitics,
    tie placement, hold repair).  All definitions come first; the theorems
    about them follow in the second half of the file. *)

From stdpp Require Import gmap strings list fin_maps pretty numbers.
From Stdlib Require Import QArith Qcanon Qround.

Local Open Scope Z_scope.

(* ===================================================================== *)
(** * Part I: definitions                                                 *)
(* ===================================================================== *)

(** ** Machine integers

    C++ [int] is a 32-bit two's complement integer.  Values are carried
    as [Z]; every arithmetic operation reduces its result with [wrap]. *)

Definition int_min : Z := - 2 ^ 31.
Definition int_max : Z := 2 ^ 31 - 1.

Definition wrap (z : Z) : Z := (z + 2 ^ 31) `mod` 2 ^ 32 - 2 ^ 31.

Definition int_add (a b : Z) : Z := wrap (a + b).
Definition int_sub (a b : Z) : Z := wrap (a - b).
Definition int_mul (a b : Z) : Z := wrap (a * b).
Definition int_div (a b : Z) : Z := wrap (a `quot` b).
Definition int_abs (a : Z) : Z := wrap (Z.abs a).
Definition int_incr (a : Z) : Z := int_add a 1.

Definition in_int (z : Z) : Prop := int_min ≤ z ≤ int_max.

(** ** Geometry ([odb::Point], [odb::Rect]) *)

Record Point := mkPoint { getX : Z; getY : Z }.

Record Rect := mkRect { xMin : Z; yMin : Z; xMax : Z; yMax : Z }.

Global Instance Point_eq_dec : EqDecision Point.
Proof. solve_decision. Defined.

(** Modelled from the spec: [ord::closestPtInRect] is declared in
    [openroad/OpenRoad.hh], which is not part of the sources at hand.  The
    spec (4.1) says it clamps each coordinate into [[R.min, R.max]]. *)
Definition closestPtInRect (r : Rect) (x y : Z) : Point :=
  mkPoint (Z.min (Z.max x (xMin r)) (xMax r))
          (Z.min (Z.max y (yMin r)) (yMax r)).

(** [Rect::overlaps(Point)]: the point lies in the closed rectangle. *)
Definition overlaps (r : Rect) (p : Point) : bool :=
  bool_decide (xMin r ≤ getX p ∧ getX p ≤ xMax r
               ∧ yMin r ≤ getY p ∧ getY p ≤ yMax r).

(** ** Floating-point quantities

    Areas, capacitances, delays and slews are C++ [float]/[double].  They
    are idealised as exact rationals ([Qc]); the one non-finite value the
    source stores in a variable, [INF], is the extra constructor of
    [float].  Rounding, [NaN] and negative infinity are outside the
    model. *)

Local Open Scope Qc_scope.

Inductive float := Finite (q : Qc) | INF.

Global Instance float_eq_dec : EqDecision float.
Proof. solve_decision. Defined.

(** [a < b] on floats. *)
Definition float_lt (a b : float) : bool :=
  match a, b with
  | Finite x, Finite y => bool_decide (x < y)
  | Finite _, INF => true
  | INF, _ => false
  end.

(** [std::min] on floats. *)
Definition float_min (a b : float) : float :=
  if float_lt b a then b else a.

Definition Qc_ltb (a b : Qc) : bool := bool_decide (a < b).
Definition Qc_min (a b : Qc) : Qc := if Qc_ltb b a then b else a.
Definition Qc_max (a b : Qc) : Qc := if Qc_ltb a b then b else a.
Definition Qc_of_Z (z : Z) : Qc := Q2Qc (inject_Z z).

(** [std::ceil] followed by the conversion to [int]. *)
Definition ceil_int (q : Qc) : Z := wrap (Qceiling q).

Local Close Scope Qc_scope.

(** ** Pins, nets, instances (the NETLIST service)

    Instances, nets and library cells are identified by name; a pin is a
    port of an instance or a port of the top instance. *)

Abbreviation LibertyCell := string (only parsing).
Abbreviation Net := string (only parsing).
Abbreviation Instance := string (only parsing).

Inductive Pin :=
| InstPin (inst : Instance) (port : string)
| TopPin (port : string).

Global Instance Pin_eq_dec : EqDecision Pin.
Proof. solve_decision. Defined.

Definition Pin_encode (p : Pin) : (string * string) + string :=
  match p with
  | InstPin i q => inl (i, q)
  | TopPin q => inr q
  end.

Definition Pin_decode (c : (string * string) + string) : Pin :=
  match c with
  | inl (i, q) => InstPin i q
  | inr q => TopPin q
  end.

Global Instance Pin_countable : Countable Pin.
Proof. by apply (inj_countable' Pin_encode Pin_decode); intros []. Defined.

(** [network_->isTopLevelPort(pin)] *)
Definition isTopLevelPort (p : Pin) : bool :=
  match p with TopPin _ => true | InstPin _ _ => false end.

(** [network_->instance(pin)]; [None] stands for the top instance. *)
Definition pin_instance (p : Pin) : option Instance :=
  match p with InstPin i _ => Some i | TopPin _ => None end.

(** [network_->port(pin)] *)
Definition pin_port (p : Pin) : string :=
  match p with InstPin _ q => q | TopPin q => q end.

(** The pin addressed by [connectPin(inst, port, net)]. *)
Definition instance_pin (i : option Instance) (port : string) : Pin :=
  match i with Some i => InstPin i port | None => TopPin port end.

Record InstData := mkInst {
  inst_master : LibertyCell;
  inst_location : Point;
  inst_placed : bool
}.

(** The edits a pass issues, in program order. *)
Inductive Edit :=
| EMakeNet (n : Net)
| EMakeInstance (i : Instance) (c : LibertyCell)
| EConnect (p : Pin) (n : Net)
| EDisconnect (p : Pin)
| EDeleteNet (n : Net)
| EDeleteInstance (i : Instance)
| EReplaceCell (i : Instance) (c : LibertyCell)
| ESetLocation (i : Instance) (pt : Point).

Record Netlist := mkNetlist {
  nl_nets : gset Net;               (* nets of the top scope *)
  nl_special : gset Net;            (* nets with [dbNet::isSpecial] *)
  nl_insts : gmap Instance InstData;
  nl_conn : gmap Pin Net;           (* the net each connected pin is on *)
  nl_edits : list Edit              (* edit history, oldest first *)
}.

(** The data of the design that no edit of the resizer changes: Liberty
    cell predicates, LEF masters, database units, the ports of the top
    instance, pin directions and pin locations. *)
Record Master := mkMaster {
  isCoreAutoPlaceable : bool;
  getWidth : Z;
  getHeight : Z
}.

Inductive PortDirection := DirInput | DirOutput | DirTristate | DirBidirect.

Class Design := {
  isBuffer : LibertyCell → bool;
  isInverter : LibertyCell → bool;
  (** [bufferPorts(input, output)] *)
  bufferPorts : LibertyCell → string * string;
  (** the [dont_use] attribute of the Liberty cell *)
  cell_dontUse : LibertyCell → bool;
  (** whether [network_->libertyCell(inst)] exists for an instance of the
      cell *)
  hasLibertyCell : LibertyCell → bool;
  (** [db_->findMaster(name)] *)
  findMaster : LibertyCell → option Master;
  (** [db_->getTech()->getDbUnitsPerMicron()] *)
  getDbUnitsPerMicron : Z;
  (** [network_->direction(pin)] *)
  direction : Pin → PortDirection;
  (** [db_network_->location(pin)] *)
  location : Pin → Point;
  (** [db_inst->getBBox()] *)
  getBBox : Instance → Rect;
  (** the ports of the top instance, in the order
      [network_->pinIterator(network_->topInstance())] yields their pins *)
  topPorts : list string
}.

Definition isInput (d : PortDirection) : bool :=
  match d with DirInput => true | _ => false end.

Definition isAnyOutput (d : PortDirection) : bool :=
  match d with DirInput => false | _ => true end.

(** *** Queries *)

(** [network_->net(pin)] (for a top-level pin, the net of its term). *)
Definition pin_net (nl : Netlist) (p : Pin) : option Net := nl_conn nl !! p.

(** The pins a net iterator yields for [n]. *)
Definition net_pins (nl : Netlist) (n : Net) : list Pin :=
  (map_to_list (filter (λ kv : Pin * Net, kv.2 = n) (nl_conn nl))).*1.

(** The pins an instance iterator yields for [i]. *)
Definition instance_pins (nl : Netlist) (i : Instance) : list Pin :=
  (map_to_list (filter (λ kv : Pin * Net, pin_instance kv.1 = Some i)
                       (nl_conn nl))).*1.

Definition findNet (nl : Netlist) (name : string) : bool :=
  bool_decide (name ∈ nl_nets nl).

Definition findInstance (nl : Netlist) (name : string) : bool :=
  bool_decide (is_Some (nl_insts nl !! name)).

(** [Resizer::isSpecial] *)
Definition isSpecial (nl : Netlist) (n : Net) : bool :=
  bool_decide (n ∈ nl_special nl).

(** [Resizer::hasTopLevelPort] *)
Definition hasTopLevelPort (nl : Netlist) (n : Net) : bool :=
  existsb isTopLevelPort (net_pins nl n).

(** *** Edits

    Modelled from the spec: the edit operations belong to the NETLIST
    service (section 6), whose implementation is not part of the sources
    at hand.  A net is created empty and not special; deleting a net or an
    instance also drops the connections that mention it. *)

Definition log_edit (e : Edit) (nl : Netlist) : Netlist :=
  mkNetlist (nl_nets nl) (nl_special nl) (nl_insts nl) (nl_conn nl)
            (nl_edits nl ++ [e]).

Definition makeNet (name : string) (nl : Netlist) : Netlist :=
  log_edit (EMakeNet name)
    (mkNetlist ({[name]} ∪ nl_nets nl) (nl_special nl ∖ {[name]})
               (nl_insts nl) (nl_conn nl) (nl_edits nl)).

(** [makeInstance] has no instance to return when the cell has no master. *)
Definition makeInstance `{Design} (cell : LibertyCell) (name : string)
    (nl : Netlist) : Netlist * option Instance :=
  match findMaster cell with
  | Some _ =>
      (log_edit (EMakeInstance name cell)
         (mkNetlist (nl_nets nl) (nl_special nl)
                    (<[name := mkInst cell (mkPoint 0 0) false]> (nl_insts nl))
                    (nl_conn nl) (nl_edits nl)),
       Some name)
  | None => (nl, None)
  end.

Definition connectPin (p : Pin) (n : Net) (nl : Netlist) : Netlist :=
  log_edit (EConnect p n)
    (mkNetlist (nl_nets nl) (nl_special nl) (nl_insts nl)
               (<[p := n]> (nl_conn nl)) (nl_edits nl)).

Definition disconnectPin (p : Pin) (nl : Netlist) : Netlist :=
  log_edit (EDisconnect p)
    (mkNetlist (nl_nets nl) (nl_special nl) (nl_insts nl)
               (delete p (nl_conn nl)) (nl_edits nl)).

Definition deleteNet (n : Net) (nl : Netlist) : Netlist :=
  log_edit (EDeleteNet n)
    (mkNetlist (nl_nets nl ∖ {[n]}) (nl_special nl ∖ {[n]}) (nl_insts nl)
               (filter (λ kv : Pin * Net, kv.2 ≠ n) (nl_conn nl))
               (nl_edits nl)).

Definition deleteInstance (i : Instance) (nl : Netlist) : Netlist :=
  log_edit (EDeleteInstance i)
    (mkNetlist (nl_nets nl) (nl_special nl) (delete i (nl_insts nl))
               (filter (λ kv : Pin * Net, pin_instance kv.1 ≠ Some i)
                       (nl_conn nl))
               (nl_edits nl)).

Definition replaceCell (i : Instance) (c : LibertyCell) (nl : Netlist)
    : Netlist :=
  log_edit (EReplaceCell i c)
    (mkNetlist (nl_nets nl) (nl_special nl)
               (alter (λ d, mkInst c (inst_location d) (inst_placed d)) i
                      (nl_insts nl))
               (nl_conn nl) (nl_edits nl)).

(** [Resizer::setLocation]: placement status PLACED and the location. *)
Definition setLocation (i : Instance) (pt : Point) (nl : Netlist) : Netlist :=
  log_edit (ESetLocation i pt)
    (mkNetlist (nl_nets nl) (nl_special nl)
               (alter (λ d, mkInst (inst_master d) pt true) i (nl_insts nl))
               (nl_conn nl) (nl_edits nl)).

(** [disconnectPin(pin); connectPin(instance(pin), port(pin), net)] *)
Definition reconnectPin (n : Net) (nl : Netlist) (p : Pin) : Netlist :=
  connectPin (instance_pin (pin_instance p) (pin_port p)) n
             (disconnectPin p nl).

(** ** Wire parasitics kept by the TIMER *)

Inductive ParasiticNode :=
| PinNode (p : Pin)
| SteinerNode (n : Net) (steiner_pt : Z).

Global Instance ParasiticNode_eq_dec : EqDecision ParasiticNode.
Proof. solve_decision. Defined.

Inductive ParasiticElem :=
| Resistor (n1 n2 : ParasiticNode) (res : Qc)
| IncrCap (n : ParasiticNode) (cap : Qc).

Global Instance ParasiticElem_eq_dec : EqDecision ParasiticElem.
Proof. solve_decision. Defined.

Definition Parasitic := list ParasiticElem.

(** ** The resizer object *)

Inductive Message :=
| Warn (text : string)       (* [ord::warn] *)
| Printf (text : string).    (* standard output *)

Record Resizer := mkResizer {
  netlist : Netlist;
  wire_res : Qc;
  wire_cap : Qc;
  wire_clk_res : Qc;
  wire_clk_cap : Qc;
  max_area : Qc;
  design_area : Qc;
  core : Rect;
  core_exists : bool;
  have_estimated_parasitics : bool;
  target_load_map : gmap LibertyCell float;
  level_drvr_verticies : list Pin;
  level_drvr_verticies_valid : bool;
  tgt_slews : Qc * Qc;
  unique_net_index : Z;
  unique_inst_index : Z;
  resize_count : Z;
  inserted_buffer_count : Z;
  resized_multi_output_insts : gset Instance;
  dont_use : gset LibertyCell;
  parasitics : gmap Net Parasitic;
  messages : list Message
}.

Definition set_netlist (v : Netlist) (r : Resizer) : Resizer :=
    let 'mkResizer _ x1 x2 x3 x4 x5 x6 x7 x8 x9 x10 x11 x12 x13 x14 x15 x16
      x17 x18 x19 x20 x21 := r in
    mkResizer v x1 x2 x3 x4 x5 x6 x7 x8 x9 x10 x11 x12 x13 x14 x15 x16 x17 x18
    x19 x20 x21.

Definition set_design_area (v : Qc) (r : Resizer) : Resizer :=
    let 'mkResizer x0 x1 x2 x3 x4 x5 _ x7 x8 x9 x10 x11 x12 x13 x14 x15 x16
      x17 x18 x19 x20 x21 := r in
    mkResizer x0 x1 x2 x3 x4 x5 v x7 x8 x9 x10 x11 x12 x13 x14 x15 x16 x17 x18
    x19 x20 x21.

Definition set_target_load_map (v : gmap LibertyCell float) (r : Resizer) : Resizer :=
    let 'mkResizer x0 x1 x2 x3 x4 x5 x6 x7 x8 x9 _ x11 x12 x13 x14 x15 x16 x17
      x18 x19 x20 x21 := r in
    mkResizer x0 x1 x2 x3 x4 x5 x6 x7 x8 x9 v x11 x12 x13 x14 x15 x16 x17 x18
    x19 x20 x21.

Definition set_level_drvr_verticies (v : list Pin) (r : Resizer) : Resizer :=
    let 'mkResizer x0 x1 x2 x3 x4 x5 x6 x7 x8 x9 x10 _ x12 x13 x14 x15 x16 x17
      x18 x19 x20 x21 := r in
    mkResizer x0 x1 x2 x3 x4 x5 x6 x7 x8 x9 x10 v x12 x13 x14 x15 x16 x17 x18
    x19 x20 x21.

Definition set_level_drvr_verticies_valid (v : bool) (r : Resizer) : Resizer :=
    let 'mkResizer x0 x1 x2 x3 x4 x5 x6 x7 x8 x9 x10 x11 _ x13 x14 x15 x16 x17
      x18 x19 x20 x21 := r in
    mkResizer x0 x1 x2 x3 x4 x5 x6 x7 x8 x9 x10 x11 v x13 x14 x15 x16 x17 x18
    x19 x20 x21.


Definition set_unique_net_index (v : Z) (r : Resizer) : Resizer :=
    let 'mkResizer x0 x1 x2 x3 x4 x5 x6 x7 x8 x9 x10 x11 x12 x13 _ x15 x16 x17
      x18 x19 x20 x21 := r in
    mkResizer x0 x1 x2 x3 x4 x5 x6 x7 x8 x9 x10 x11 x12 x13 v x15 x16 x17 x18
    x19 x20 x21.

Definition set_unique_inst_index (v : Z) (r : Resizer) : Resizer :=
    let 'mkResizer x0 x1 x2 x3 x4 x5 x6 x7 x8 x9 x10 x11 x12 x13 x14 _ x16 x17
      x18 x19 x20 x21 := r in
    mkResizer x0 x1 x2 x3 x4 x5 x6 x7 x8 x9 x10 x11 x12 x13 x14 v x16 x17 x18
    x19 x20 x21.

Definition set_resize_count (v : Z) (r : Resizer) : Resizer :=
    let 'mkResizer x0 x1 x2 x3 x4 x5 x6 x7 x8 x9 x10 x11 x12 x13 x14 x15 _ x17
      x18 x19 x20 x21 := r in
    mkResizer x0 x1 x2 x3 x4 x5 x6 x7 x8 x9 x10 x11 x12 x13 x14 x15 v x17 x18
    x19 x20 x21.

Definition set_inserted_buffer_count (v : Z) (r : Resizer) : Resizer :=
    let 'mkResizer x0 x1 x2 x3 x4 x5 x6 x7 x8 x9 x10 x11 x12 x13 x14 x15 x16 _
      x18 x19 x20 x21 := r in
    mkResizer x0 x1 x2 x3 x4 x5 x6 x7 x8 x9 x10 x11 x12 x13 x14 x15 x16 v x18
    x19 x20 x21.

Definition set_resized_multi_output_insts (v : gset Instance) (r : Resizer) : Resizer :=
    let 'mkResizer x0 x1 x2 x3 x4 x5 x6 x7 x8 x9 x10 x11 x12 x13 x14 x15 x16
      x17 _ x19 x20 x21 := r in
    mkResizer x0 x1 x2 x3 x4 x5 x6 x7 x8 x9 x10 x11 x12 x13 x14 x15 x16 x17 v
    x19 x20 x21.

Definition set_parasitics (v : gmap Net Parasitic) (r : Resizer) : Resizer :=
    let 'mkResizer x0 x1 x2 x3 x4 x5 x6 x7 x8 x9 x10 x11 x12 x13 x14 x15 x16
      x17 x18 x19 _ x21 := r in
    mkResizer x0 x1 x2 x3 x4 x5 x6 x7 x8 x9 x10 x11 x12 x13 x14 x15 x16 x17
    x18 x19 v x21.

Definition set_messages (v : list Message) (r : Resizer) : Resizer :=
    let 'mkResizer x0 x1 x2 x3 x4 x5 x6 x7 x8 x9 x10 x11 x12 x13 x14 x15 x16
      x17 x18 x19 x20 _ := r in
    mkResizer x0 x1 x2 x3 x4 x5 x6 x7 x8 x9 x10 x11 x12 x13 x14 x15 x16 x17
    x18 x19 x20 v.


Definition set_have_estimated_parasitics (v : bool) (r : Resizer) : Resizer :=
    let 'mkResizer x0 x1 x2 x3 x4 x5 x6 x7 x8 _ x10 x11 x12 x13 x14 x15 x16
      x17 x18 x19 x20 x21 := r in
    mkResizer x0 x1 x2 x3 x4 x5 x6 x7 x8 v x10 x11 x12 x13 x14 x15 x16 x17 x18
    x19 x20 x21.

(** An edit of the netlist carried by the resizer. *)
Definition edit (f : Netlist → Netlist) (r : Resizer) : Resizer :=
  set_netlist (f (netlist r)) r.

Definition warn (text : string) (r : Resizer) : Resizer :=
  set_messages (messages r ++ [Warn text]) r.

Definition printf (text : string) (r : Resizer) : Resizer :=
  set_messages (messages r ++ [Printf text]) r.

(** ** Name generator

    [makeUniqueNetName] and [makeUniqueInstName] are the same
    [do ... while] loop: print the counter, advance it, and go round again
    while the netlist knows the name.  The loop is written once, on
    [fuel] iterations; it gives [None] when they do not suffice. *)

(** [stringPrint(node_name, "net%d", n)] *)
Definition net_name (n : Z) : string := "net" +:+ pretty n.

(** [stringPrint(inst_name, underscore ? "%s_%d" : "%s%d", base_name, n)] *)
Definition inst_name (base_name : string) (underscore : bool) (n : Z)
    : string :=
  if underscore then base_name +:+ "_" +:+ pretty n
  else base_name +:+ pretty n.

Global Arguments net_name : simpl never.
Global Arguments inst_name : simpl never.

Fixpoint unique_name_loop (fuel : nat) (found : string → bool)
    (print : Z → string) (index : Z) : option (string * Z) :=
  match fuel with
  | O => None
  | S fuel' =>
      let name := print index in
      let index' := int_incr index in
      if found name
      then unique_name_loop fuel' found print index'
      else Some (name, index')
  end.

(** The loop prints a different name on every round, so it cannot go
    round more often than there are names in the netlist, plus one
    ([unique_name_loop_total] below). *)
Definition makeUniqueNetName (r : Resizer) : option (string * Resizer) :=
  '(node_name, index) ←
     unique_name_loop (S (size (nl_nets (netlist r))))
                      (findNet (netlist r)) net_name (unique_net_index r);
  Some (node_name, set_unique_net_index index r).

Definition makeUniqueInstName (base_name : string) (underscore : bool)
    (r : Resizer) : option (string * Resizer) :=
  '(name, index) ←
     unique_name_loop (S (size (nl_insts (netlist r))))
                      (findInstance (netlist r))
                      (inst_name base_name underscore)
                      (unique_inst_index r);
  Some (name, set_unique_inst_index index r).

(** Minting a name and creating the object at once, the way every caller
    in the file does ([makeNet] right after [makeUniqueNetName],
    [makeInstance] right after [makeUniqueInstName]). *)
Definition mint_net (r : Resizer) : option (string * Resizer) :=
  '(name, r1) ← makeUniqueNetName r;
  Some (name, edit (makeNet name) r1).

Fixpoint mint_nets (count : nat) (r : Resizer)
    : option (list string * Resizer) :=
  match count with
  | O => Some ([], r)
  | S count' =>
      '(name, r1) ← mint_net r;
      '(names, r2) ← mint_nets count' r1;
      Some (name :: names, r2)
  end.

Definition mint_inst `{Design} (cell : LibertyCell)
    (req : string * bool) (r : Resizer) : option (string * Resizer) :=
  '(name, r1) ← makeUniqueInstName req.1 req.2 r;
  Some (name, edit (λ nl, (makeInstance cell name nl).1) r1).

Fixpoint mint_insts `{Design} (cell : LibertyCell)
    (reqs : list (string * bool)) (r : Resizer)
    : option (list string * Resizer) :=
  match reqs with
  | [] => Some ([], r)
  | req :: reqs' =>
      '(name, r1) ← mint_inst cell req r;
      '(names, r2) ← mint_insts cell reqs' r1;
      Some (name :: names, r2)
  end.

(** ** Units and area *)

Local Open Scope Qc_scope.

(** [Resizer::dbuToMeters]: [dist / (dbu * 1e+6)] *)
Definition dbuToMeters `{Design} (dist : Z) : Qc :=
  Qc_of_Z dist / (Qc_of_Z getDbUnitsPerMicron * Qc_of_Z 1000000).

(** [Resizer::area] of a master *)
Definition master_area `{Design} (master : Master) : Qc :=
  if negb (isCoreAutoPlaceable master) then 0
  else dbuToMeters (getWidth master) * dbuToMeters (getHeight master).

(** [Resizer::area] of a cell, through the master of the cell. *)
Definition area `{Design} (cell : LibertyCell) : Qc :=
  match findMaster cell with
  | Some master => master_area master
  | None => 0
  end.

Local Close Scope Qc_scope.

(** ** The TIMER service, as far as the passes below query it *)

(** [Slacks]: [slacks[rise/fall][min/max]] *)
Record Slacks := mkSlacks {
  rise_min : Qc; rise_max : Qc; fall_min : Qc; fall_max : Qc
}.

Class Timer := {
  (** [sta_->isClock(pin)] *)
  isClock : Pin → bool;
  (** [sta_->isClock(net)] *)
  isClockNet : Net → bool;
  (** [network_->isPower(net)], [network_->isGround(net)] *)
  isPower : Net → bool;
  isGround : Net → bool;
  (** [vertex->isConstant()] of the vertex of a driver pin *)
  isConstant : Pin → bool;
  (** the vertices at the far end of the out-edges of a vertex *)
  vertexOutEdges : Netlist → Pin → list Pin;
  (** [network_->drivers(net)] *)
  drivers : Netlist → Net → list Pin;
  (** [sta_->equivCells(cell)] *)
  equivCells : LibertyCell → option (list LibertyCell);
  (** [graph_delay_calc_->loadCap(drvr_pin, dcalc_ap_)]: pin and wire
      capacitance of the net as it is, with the parasitics as they are *)
  loadCap : Netlist → gmap Net Parasitic → Pin → Qc;
  (** [Resizer::bufferDelay(cell, load_cap)]: the larger of the rise and
      fall delays the delay calculator gives for the buffer output *)
  bufferDelay : LibertyCell → Qc → Qc;
  (** [Resizer::bufferDelay(cell)]: the same with the input capacitance of
      the buffer as load ("self delay") *)
  bufferSelfDelay : LibertyCell → Qc;
  (** [sta_->vertexSlack(vertex, MinMax::min())] *)
  vertexSlack_min : Netlist → Pin → Qc;
  (** [sta_->vertexSlacks(vertex, slacks)] *)
  vertexSlacks : Netlist → Pin → Slacks;
  (** [sortHoldFanins(findHoldFanins(hold_failures))]: the non-clock
      drivers in the fanin cone of the failing endpoints, sorted *)
  sortedHoldFanins : Netlist → list Pin → list Pin;
  (** [fuzzyGreaterEqual] of [sta/Fuzzy.hh] *)
  fuzzyGreaterEqual : Qc → Qc → bool
}.

(** ** The STEINER service *)

Record Branch := mkBranch {
  pt1 : Point; pin1 : option Pin; steiner_pt1 : Z;
  pt2 : Point; pin2 : option Pin; steiner_pt2 : Z;
  wire_length_dbu : Z
}.

Record SteinerTree := mkSteinerTree {
  branches : list Branch;               (* [branch(i)], [i < branchCount()] *)
  steinerPtAlias : Z → option Pin
}.

Class Steiner := {
  (** [makeSteinerTree(net, false, db_network_)] *)
  makeSteinerTree : Netlist → Net → option SteinerTree
}.

(** [Resizer::init()]: the preamble of every entry point.  The block data
    ([core_], [design_area_]) is taken as already read; what remains is
    that the driver list is rebuilt and marked valid. *)
Definition init (r : Resizer) : Resizer :=
  set_level_drvr_verticies_valid true r.

Definition newline : string := String (Ascii.ascii_of_nat 10) EmptyString.

(** ** [removeBuffers] *)

(** The body of the pin loop: every pin of the output net but the
    buffer's own output pin moves to the input net. *)
Definition removeBuffers_pin (output_pin : Pin) (input_net : Net)
    (nl : Netlist) (pin : Pin) : Netlist :=
  if decide (pin ≠ output_pin) then reconnectPin input_net nl pin else nl.

(** The body of the instance loop.  [isBuffer] is false for a master
    without a Liberty cell.  A buffer pin without a net hands a null net
    to [hasTopLevelPort]: the result is [None]. *)
Definition removeBuffers_inst `{Design} (st : Netlist * Z) (inst : Instance)
    : option (Netlist * Z) :=
  let '(nl, remove_count) := st in
  match nl_insts nl !! inst with
  | None => Some st
  | Some d =>
      let lib_cell := inst_master d in
      if isBuffer lib_cell then
        let '(input_port, output_port) := bufferPorts lib_cell in
        let input_pin := InstPin inst input_port in
        let output_pin := InstPin inst output_port in
        input_net ← pin_net nl input_pin;
        output_net ← pin_net nl output_pin;
        if negb (hasTopLevelPort nl input_net)
           && negb (hasTopLevelPort nl output_net)
        then
          let nl1 := foldl (removeBuffers_pin output_pin input_net) nl
                           (net_pins nl output_net) in
          let nl2 := deleteNet output_net nl1 in
          let nl3 := deleteInstance inst nl2 in
          Some (nl3, int_incr remove_count)
        else Some st
      else Some st
  end.

(** [Resizer::removeBuffers], over the instances of the block as they
    are when the pass starts. *)
Definition removeBuffers `{Design} (r : Resizer) : option Resizer :=
  '(nl, remove_count) ←
     foldl (λ st inst, st ← st; removeBuffers_inst st inst)
           (Some (netlist r, 0))
           (map_to_list (nl_insts (netlist r))).*1;
  Some (printf ("Removed " +:+ pretty remove_count +:+ " buffers."
                +:+ newline)
               (set_netlist nl r)).

(** ** [bufferInputs] *)

(** The body of the pin loop of [bufferInput]: the port pin stays on its
    net, every other pin moves to the buffer output net. *)
Definition bufferInput_pin (top_pin : Pin) (buffer_out : Net)
    (nl : Netlist) (pin : Pin) : Netlist :=
  if decide (pin ≠ top_pin) then reconnectPin buffer_out nl pin else nl.

(** [Resizer::bufferInput].  [input_net] is the net [bufferInputs] has
    already read off the port. *)
Definition bufferInput `{Design} (top_pin : Pin) (input_net : Net)
    (buffer_cell : LibertyCell) (r : Resizer) : option Resizer :=
  let '(input, output) := bufferPorts buffer_cell in
  '(buffer_out_name, r) ← makeUniqueNetName r;
  '(buffer_name, r) ← makeUniqueInstName "input" false r;
  let r := edit (makeNet buffer_out_name) r in
  let buffer_out := buffer_out_name in
  let '(nl, buffer) := makeInstance buffer_cell buffer_name (netlist r) in
  let r := set_netlist nl r in
  match buffer with
  | Some buffer =>
      let pin_loc := location top_pin in
      let buf_loc := closestPtInRect (core r) (getX pin_loc) (getY pin_loc) in
      let r := edit (setLocation buffer buf_loc) r in
      let r := set_design_area (design_area r + area buffer_cell)%Qc r in
      let r := set_inserted_buffer_count
                 (int_incr (inserted_buffer_count r)) r in
      let r := edit (λ nl, foldl (bufferInput_pin top_pin buffer_out) nl
                                 (net_pins nl input_net)) r in
      let r := edit (connectPin (InstPin buffer input) input_net) r in
      let r := edit (connectPin (InstPin buffer output) buffer_out) r in
      Some r
  | None => Some r
  end.

(** The test of the port loop of [bufferInputs].  [isSpecial] is only
    reached for an input port that is not a clock; a port without a net
    hands it a null net: the result is [None]. *)
Definition bufferInputs_port `{Design} `{Timer} (buffer_cell : LibertyCell)
    (r : Resizer) (pin : Pin) : option Resizer :=
  if isInput (direction pin) && negb (isClock pin) then
    net ← pin_net (netlist r) pin;
    if negb (isSpecial (netlist r) net)
    then bufferInput pin net buffer_cell r
    else Some r
  else Some r.

(** The port loop of [bufferInputs]. *)
Definition bufferInputs_loop `{Design} `{Timer} (buffer_cell : LibertyCell)
    (st : option Resizer) (pins : list Pin) : option Resizer :=
  foldl (λ st pin, r ← st; bufferInputs_port buffer_cell r pin) st pins.

(** [Resizer::bufferInputs] *)
Definition bufferInputs `{Design} `{Timer} (buffer_cell : LibertyCell)
    (r : Resizer) : option Resizer :=
  let r := init r in
  let r := set_inserted_buffer_count 0 r in
  r ← bufferInputs_loop buffer_cell (Some r) (TopPin <$> topPorts);
  if bool_decide (0 < inserted_buffer_count r) then
    let r := printf ("Inserted " +:+ pretty (inserted_buffer_count r)
                     +:+ " input buffers." +:+ newline) r in
    Some (set_level_drvr_verticies_valid false r)
  else Some r.

(** [Resizer::dontUse] *)
Definition dontUse `{Design} (r : Resizer) (cell : LibertyCell) : bool :=
  cell_dontUse cell || bool_decide (cell ∈ dont_use r).

(** ** Target-load model *)

Inductive RiseFall := Rise | Fall.

Inductive TimingRole :=
| RoleCombinational | RoleRegClkToQ | RoleLatchDtoQ
| RoleTristateEnable | RoleTristateDisable
| RoleSetup | RoleHold | RoleRecovery | RoleRemoval | RoleWidth.

Global Instance TimingRole_eq_dec : EqDecision TimingRole.
Proof. solve_decision. Defined.

(** [role->isTimingCheck()] *)
Definition isTimingCheck (role : TimingRole) : bool :=
  match role with
  | RoleSetup | RoleHold | RoleRecovery | RoleRemoval | RoleWidth => true
  | _ => false
  end.

(** [GateTimingModel::gateDelay] for a fixed cell and operating
    conditions: input slew and load capacitance give delay and slew. *)
Definition GateTimingModel := Qc → Qc → Qc * Qc.

Record TimingArc := mkArc {
  fromTrans : RiseFall;
  toTrans : RiseFall;
  (** [dynamic_cast<GateTimingModel*>(arc->model())] *)
  arc_model : option GateTimingModel
}.

Record TimingArcSet := mkArcSet {
  role : TimingRole;
  arcs : list TimingArc
}.

Record LibertyLibrary := mkLibrary {
  lib_cells : list LibertyCell;     (* [LibertyCellIterator] *)
  lib_buffers : list LibertyCell    (* [library->buffers()] *)
}.

Class Liberty := {
  (** [LibertyCellTimingArcSetIterator arc_set_iter(cell)] *)
  timingArcSets : LibertyCell → list TimingArcSet;
  (** [buffer->timingArcSets(input, output)] *)
  bufferArcSets : LibertyCell → option (list TimingArcSet);
  (** [input->capacitance(in_rf, min_max_)] of the buffer input *)
  inputCapacitance : LibertyCell → RiseFall → Qc
}.

Local Open Scope Qc_scope.

(** A pair indexed by [RiseFall::index()]. *)
Definition rf_get {A} (v : A * A) (rf : RiseFall) : A :=
  match rf with Rise => v.1 | Fall => v.2 end.

Definition rf_update {A} (f : A → A) (v : A * A) (rf : RiseFall) : A * A :=
  match rf with Rise => (f v.1, v.2) | Fall => (v.1, f v.2) end.

Definition cap_init : Qc := Q2Qc (1 # 1000000000000).        (* 1 pF *)
Definition cap_tol : Qc := Q2Qc (1 # 10000000000000000).     (* .1 fF *)

(** The [while (cap_step > cap_tol)] loop of [findTargetLoad(cell, arc,
    in_slew, out_slew)], on [fuel] rounds. *)
Fixpoint findTargetLoad_loop (fuel : nat) (model : GateTimingModel)
    (in_slew out_slew load_cap cap_step prev_slew : Qc) : option Qc :=
  match fuel with
  | O => None
  | S fuel' =>
      if Qc_ltb cap_tol cap_step then
        let '(arc_delay, arc_slew) := model in_slew load_cap in
        let '(load_cap, cap_step) :=
          if Qc_ltb out_slew arc_slew
          then (load_cap - cap_step, cap_step / Qc_of_Z 2)
          else (load_cap, cap_step) in
        let load_cap := load_cap + cap_step in
        if decide (arc_slew = prev_slew) then Some load_cap
        else findTargetLoad_loop fuel' model in_slew out_slew load_cap
                                 cap_step arc_slew
      else Some load_cap
  end.

(** [Resizer::findTargetLoad(cell, arc, in_slew, out_slew)] *)
Definition findTargetLoad_arc (fuel : nat) (arc : TimingArc)
    (in_slew out_slew : Qc) : option Qc :=
  match arc_model arc with
  | Some model =>
      findTargetLoad_loop fuel model in_slew out_slew cap_init cap_init 0
  | None => Some 0
  end.

(** The arcs the loops of [findTargetLoad(cell, slews)] reach: those of
    the arc sets that are neither timing checks nor tristate
    enable/disable, set after set. *)
Definition target_load_arcs `{Liberty} (cell : LibertyCell)
    : list TimingArc :=
  flat_map arcs
    (filter (λ arc_set,
               isTimingCheck (role arc_set) = false
               ∧ role arc_set ≠ RoleTristateDisable
               ∧ role arc_set ≠ RoleTristateEnable)
            (timingArcSets cell)).

(** The sums and counts per output transition after the arc loops. *)
Definition findTargetLoad_sums `{Liberty} (fuel : nat) (cell : LibertyCell)
    (slews : Qc * Qc) : option ((Qc * Qc) * (Z * Z)) :=
  foldl (λ acc arc,
           '(target_load_sum, arc_count) ← acc;
           arc_target_load ←
             findTargetLoad_arc fuel arc (rf_get slews (fromTrans arc))
                                (rf_get slews (toTrans arc));
           Some (rf_update (λ s, s + arc_target_load) target_load_sum
                           (toTrans arc),
                 rf_update int_incr arc_count (toTrans arc)))
        (Some ((0, 0), (0%Z, 0%Z))) (target_load_arcs cell).

(** The value [findTargetLoad(cell, slews)] stores for the cell. *)
Definition findTargetLoad_value `{Liberty} (fuel : nat) (cell : LibertyCell)
    (slews : Qc * Qc) : option float :=
  '(target_load_sum, arc_count) ← findTargetLoad_sums fuel cell slews;
  Some (foldl (λ target_load rf,
                 if bool_decide (0 < rf_get arc_count rf)%Z then
                   let target := rf_get target_load_sum rf
                                 / Qc_of_Z (rf_get arc_count rf) in
                   float_min target_load (Finite target)
                 else target_load)
              INF [Rise; Fall]).

(** [Resizer::findTargetLoad(cell, slews)] *)
Definition findTargetLoad `{Liberty} (fuel : nat) (slews : Qc * Qc)
    (r : Resizer) (cell : LibertyCell) : option Resizer :=
  target_load ← findTargetLoad_value fuel cell slews;
  Some (set_target_load_map (<[cell := target_load]> (target_load_map r)) r).

(** [Resizer::findTargetLoads(library, slews)] *)
Definition findTargetLoads_library `{Liberty} (fuel : nat)
    (slews : Qc * Qc) (r : Resizer) (library : LibertyLibrary)
    : option Resizer :=
  foldl (λ st cell, r ← st; findTargetLoad fuel slews r cell)
        (Some r) (lib_cells library).




(** [Resizer::targetLoadCap] *)
Definition targetLoadCap (r : Resizer) (cell : LibertyCell) : float :=
  default (Finite 0) (target_load_map r !! cell).

Local Close Scope Qc_scope.

(** ** Parasitic estimator *)

Local Open Scope Qc_scope.

(** [Resizer::findParasiticNode]: the node of the pin when the branch end
    is a pin or a Steiner point on top of one, else the node of the
    Steiner point. *)
Definition findParasiticNode (tree : SteinerTree) (net : Net)
    (pin : option Pin) (steiner_pt : Z) : ParasiticNode :=
  let pin := match pin with
             | None => steinerPtAlias tree steiner_pt
             | Some _ => pin
             end in
  match pin with
  | Some pin => PinNode pin
  | None => SteinerNode net steiner_pt
  end.

(** The body of the branch loop of [estimateWireParasitic]: what one
    branch adds to the parasitic network. *)
Definition estimateWireParasitic_branch `{Design} (r : Resizer)
    (tree : SteinerTree) (net : Net) (is_clk : bool) (b : Branch)
    : list ParasiticElem :=
  let n1 := findParasiticNode tree net (pin1 b) (steiner_pt1 b) in
  let n2 := findParasiticNode tree net (pin2 b) (steiner_pt2 b) in
  if decide (n1 ≠ n2) then
    if decide (wire_length_dbu b = 0%Z) then
      [Resistor n1 n2 (Q2Qc (1 # 1000))]
    else
      let wire_length := dbuToMeters (wire_length_dbu b) in
      let wire_cap :=
        wire_length * (if is_clk then wire_clk_cap r else wire_cap r) in
      let wire_res :=
        wire_length * (if is_clk then wire_clk_res r else wire_res r) in
      [IncrCap n1 (wire_cap / Qc_of_Z 2);
       Resistor n1 n2 wire_res;
       IncrCap n2 (wire_cap / Qc_of_Z 2)]
  else [].

(** The parasitic network [estimateWireParasitic] builds for a tree. *)
Definition estimateWireParasitic_network `{Design} `{Timer} (r : Resizer)
    (tree : SteinerTree) (net : Net) : Parasitic :=
  let is_clk := negb (isClockNet net) in
  foldl (λ parasitic b,
           parasitic ++ estimateWireParasitic_branch r tree net is_clk b)
        [] (branches tree).

(** [Resizer::estimateWireParasitic].  The TIMER reduces the network to
    a pi-Elmore model and drops the network; the model it keeps is a
    function of the network, which is what [parasitics] records. *)
Definition estimateWireParasitic `{Design} `{Timer} `{Steiner} (net : Net)
    (r : Resizer) : Resizer :=
  if negb (hasTopLevelPort (netlist r) net) then
    match makeSteinerTree (netlist r) net with
    | Some tree =>
        set_parasitics
          (<[net := estimateWireParasitic_network r tree net]> (parasitics r))
          r
    | None => r
    end
  else r.

(** [Resizer::ensureWireParasitic] *)
Definition ensureWireParasitic `{Design} `{Timer} `{Steiner} (drvr_pin : Pin)
    (r : Resizer) : Resizer :=
  if have_estimated_parasitics r then
    match pin_net (netlist r) drvr_pin with
    | Some net =>
        match parasitics r !! net with
        | None => estimateWireParasitic net r
        | Some _ => r
        end
    | None => r
    end
  else r.

(** [Resizer::ensureWireParasitics] *)
Definition ensureWireParasitics `{Design} `{Timer} `{Steiner} (r : Resizer)
    : Resizer :=
  if have_estimated_parasitics r then
    foldl (λ r net,
             if negb (isPower net) && negb (isGround net) then
               match drivers (netlist r) net with
               | drvr_pin :: _ => ensureWireParasitic drvr_pin r
               | [] => r
               end
             else r)
          r (elements (nl_nets (netlist r)))
  else r.

(** ** Gate sizer *)

(** [Resizer::overMaxArea]: [max_area_ && fuzzyGreaterEqual(...)] *)
Definition overMaxArea `{Timer} (r : Resizer) : bool :=
  negb (bool_decide (max_area r = 0))
  && fuzzyGreaterEqual (design_area r) (max_area r).

(** [Resizer::hasMultipleOutputs], over the connected pins of the
    instance. *)
Fixpoint hasMultipleOutputs_loop `{Design} (nl : Netlist) (pins : list Pin)
    (output_count : Z) : bool :=
  match pins with
  | [] => false
  | pin :: pins' =>
      if isAnyOutput (direction pin)
         && bool_decide (is_Some (pin_net nl pin))
      then
        let output_count := int_incr output_count in
        if bool_decide (1 < output_count)%Z then true
        else hasMultipleOutputs_loop nl pins' output_count
      else hasMultipleOutputs_loop nl pins' output_count
  end.

Definition hasMultipleOutputs `{Design} (nl : Netlist) (inst : Instance)
    : bool :=
  hasMultipleOutputs_loop nl (instance_pins nl inst) 0.

(** [target_load_map_[cell]]: a cell without an entry reads as 0 (and
    gets the entry, see [touch_target_loads]). *)
Definition target_load_of (r : Resizer) (cell : LibertyCell) : float :=
  default (Finite 0) (target_load_map r !! cell).

Definition touch_target_loads (cells : list LibertyCell)
    (m : gmap LibertyCell float) : gmap LibertyCell float :=
  foldl (λ m cell, match m !! cell with
                   | None => <[cell := Finite 0]> m
                   | Some _ => m
                   end) m cells.

(** [ratio = target_load / load_cap; if (ratio > 1.0) ratio = 1.0 / ratio] *)
Definition load_ratio (target_load : float) (load_cap : Qc) : Qc :=
  match target_load with
  | INF => 0
  | Finite target_load =>
      let ratio := target_load / load_cap in
      if Qc_ltb 1 ratio then 1 / ratio else ratio
  end.

(** [(target_load < load_cap) ? target_load / load_cap
                              : load_cap / target_load] *)
Definition initial_ratio (target_load : float) (load_cap : Qc) : Qc :=
  match target_load with
  | INF => 0
  | Finite target_load =>
      if Qc_ltb target_load load_cap then target_load / load_cap
      else load_cap / target_load
  end.

Record Best := mkBest {
  best_cell : LibertyCell;
  best_ratio : Qc;
  best_load : float;
  best_delay : Qc
}.

(** The test that lets [target_cell] replace the best cell.  In C++ the
    conditional operator binds weaker than [&&]: the upsizing clause
    belongs to the branch for cells that are not buffers or inverters. *)
Definition resize_accepts (is_buf_inv revisiting_inst : bool) (best : Best)
    (target_load : float) (ratio delay : Qc) : bool :=
  if is_buf_inv
  then (Qc_ltb delay (best_delay best)
        && Qc_ltb (best_ratio best * Q2Qc (9 # 10)) ratio)
       || (Qc_ltb (best_ratio best) ratio
           && Qc_ltb delay (best_delay best * Q2Qc (11 # 10)))
  else Qc_ltb (best_ratio best) ratio
       && (negb revisiting_inst || float_lt (best_load best) target_load).

(** The body of the loop over the equivalent cells. *)
Definition resize_candidate `{Design} `{Timer} (r : Resizer)
    (is_buf_inv revisiting_inst : bool) (load_cap : Qc) (best : Best)
    (target_cell : LibertyCell) : Best :=
  if negb (dontUse r target_cell) then
    let target_load := target_load_of r target_cell in
    let delay := if is_buf_inv then bufferDelay target_cell load_cap else 0 in
    let ratio := load_ratio target_load load_cap in
    if resize_accepts is_buf_inv revisiting_inst best target_load ratio delay
    then mkBest target_cell ratio target_load delay
    else best
  else best.

(** The parasitics of every net on a pin of the instance are deleted. *)
Definition delete_instance_parasitics (inst : Instance) (r : Resizer)
    : Resizer :=
  foldl (λ r pin, match pin_net (netlist r) pin with
                  | Some net => set_parasitics (delete net (parasitics r)) r
                  | None => r
                  end)
        r (instance_pins (netlist r) inst).

(** [Resizer::resizeToTargetSlew(const Pin *drvr_pin)].  The pin of a
    top-level port belongs to the top instance, which has no Liberty
    cell. *)
Definition resizeToTargetSlew_pin `{Design} `{Timer} `{Steiner}
    (drvr_pin : Pin) (r : Resizer) : Resizer :=
  match pin_instance drvr_pin with
  | None => r
  | Some inst =>
      match nl_insts (netlist r) !! inst with
      | None => r
      | Some dinst =>
          let cell := inst_master dinst in
          if hasLibertyCell cell then
            match equivCells cell with
            | None => r
            | Some equiv_cells =>
                let multi := hasMultipleOutputs (netlist r) inst in
                let revisiting_inst :=
                  multi && bool_decide (inst ∈ resized_multi_output_insts r) in
                let r :=
                  if multi
                  then set_resized_multi_output_insts
                         ({[inst]} ∪ resized_multi_output_insts r) r
                  else r in
                let is_buf_inv := isBuffer cell || isInverter cell in
                let r := ensureWireParasitic drvr_pin r in
                let load_cap := loadCap (netlist r) (parasitics r) drvr_pin in
                if Qc_ltb 0 load_cap then
                  let target_load := target_load_of r cell in
                  let best :=
                    mkBest cell (initial_ratio target_load load_cap)
                           target_load
                           (if is_buf_inv then bufferDelay cell load_cap
                            else 0) in
                  let best :=
                    foldl (resize_candidate r is_buf_inv revisiting_inst
                                            load_cap)
                          best equiv_cells in
                  let r :=
                    set_target_load_map
                      (touch_target_loads
                         (cell :: filter (λ c, dontUse r c = false)
                                         equiv_cells)
                         (target_load_map r)) r in
                  if decide (best_cell best ≠ cell) then
                    match findMaster (best_cell best) with
                    | Some best_master =>
                        let r := set_design_area (design_area r - area cell)
                                                 r in
                        let r := edit (replaceCell inst (best_cell best)) r in
                        let r :=
                          if negb revisiting_inst
                          then set_resize_count (int_incr (resize_count r)) r
                          else r in
                        let r :=
                          set_design_area
                            (design_area r + master_area best_master) r in
                        if have_estimated_parasitics r
                        then delete_instance_parasitics inst r
                        else r
                    | None => r
                    end
                  else r
                else r
            end
          else r
      end
  end.

(** [Resizer::hasFanout] *)
Definition hasFanout `{Timer} (nl : Netlist) (drvr : Pin) : bool :=
  match vertexOutEdges nl drvr with [] => false | _ :: _ => true end.

(** The test of the driver loop of [resizeToTargetSlew]. *)
Definition resize_eligible `{Timer} (nl : Netlist) (drvr : Pin) : bool :=
  match pin_net nl drvr with
  | Some net =>
      negb (isConstant drvr) && hasFanout nl drvr && negb (isClock drvr)
      && negb (isSpecial nl net)
  | None => false
  end.

(** The driver loop of [resizeToTargetSlew()], over the drivers in the
    order the loop visits them; the area test ends it with a warning. *)
Fixpoint resizeToTargetSlew_loop `{Design} `{Timer} `{Steiner}
    (drvrs : list Pin) (r : Resizer) : Resizer :=
  match drvrs with
  | [] => r
  | drvr :: drvrs' =>
      if resize_eligible (netlist r) drvr then
        let r := resizeToTargetSlew_pin drvr r in
        if overMaxArea r then warn "Max utilization reached." r
        else resizeToTargetSlew_loop drvrs' r
      else resizeToTargetSlew_loop drvrs' r
  end.

(** [Resizer::resizeToTargetSlew()]: the drivers are visited from the
    last of [level_drvr_verticies_] to the first. *)
Definition resizeToTargetSlew `{Design} `{Timer} `{Steiner} (r : Resizer)
    : Resizer :=
  let r := set_resize_count 0%Z r in
  let r := set_resized_multi_output_insts ∅ r in
  let r := resizeToTargetSlew_loop (rev (level_drvr_verticies r)) r in
  let r := ensureWireParasitics r in
  printf ("Resized " +:+ pretty (resize_count r) +:+ " instances."
          +:+ newline) r.

Local Close Scope Qc_scope.

(** The driver loop with the area test taken out: the body for one
    driver, and the drivers of a list one after the other. *)
Definition resize_step `{Design} `{Timer} `{Steiner} (r : Resizer)
    (drvr : Pin) : Resizer :=
  if resize_eligible (netlist r) drvr then resizeToTargetSlew_pin drvr r
  else r.

(** No driver of the list brings the design over the area budget. *)
Fixpoint resize_within_budget `{Design} `{Timer} `{Steiner}
    (drvrs : list Pin) (r : Resizer) : bool :=
  match drvrs with
  | [] => true
  | drvr :: drvrs' =>
      (negb (resize_eligible (netlist r) drvr)
       || negb (overMaxArea (resize_step r drvr)))
      && resize_within_budget drvrs' (resize_step r drvr)
  end.

(** What the area budget and the log of a run look at. *)
Definition budget_view (r : Resizer) : Qc * list Message :=
  (max_area r, messages r).



(** ** Hold repair *)

Local Open Scope Qc_scope.

(** [Resizer::holdSlack], [Resizer::setupSlack] *)
Definition holdSlack (slacks : Slacks) : Qc :=
  Qc_min (rise_min slacks) (fall_min slacks).

Definition setupSlack (slacks : Slacks) : Qc :=
  Qc_min (rise_max slacks) (fall_max slacks).

Local Close Scope Qc_scope.

(** [Resizer::findCenter].  [sum / pins.size()] divides an [int] by a
    [size_t]: the sum is converted to a 64-bit unsigned value, divided,
    and the quotient converted back to [int]. *)
Definition findCenter `{Design} (pins : list Pin) : Point :=
  let sum :=
    foldl (λ sum pin,
             let loc := location pin in
             mkPoint (int_add (getX sum) (getX loc))
                     (int_add (getY sum) (getY loc)))
          (mkPoint 0 0) pins in
  let size := Z.of_nat (length pins) in
  mkPoint (wrap ((getX sum `mod` 2 ^ 64) `quot` size))
          (wrap ((getY sum `mod` 2 ^ 64) `quot` size)).

(** The buffer loop of [makeHoldDelay]: [count] more rounds, the next one
    with loop index [i].  The state carried round is the resizer, the
    net to connect the next buffer input to, and the last output net. *)
Fixpoint makeHoldDelay_buffers `{Design} (count : nat) (i : Z)
    (drvr_loc : Point) (dx dy : Z) (buffer_cell : LibertyCell)
    (in_net : Net) (out_net : option Net) (r : Resizer)
    : option (Resizer * option Net) :=
  match count with
  | O => Some (r, out_net)
  | S count' =>
      '(out_net_name, r) ← makeUniqueNetName r;
      let r := edit (makeNet out_net_name) r in
      let out_net := out_net_name in
      '(buffer_name, r) ← makeUniqueInstName "hold" false r;
      let '(nl, buffer) := makeInstance buffer_cell buffer_name (netlist r) in
      let r := set_netlist nl r in
      let r := set_inserted_buffer_count
                 (int_incr (inserted_buffer_count r)) r in
      let r := set_design_area (design_area r + area buffer_cell)%Qc r in
      buffer ← buffer;
      let '(input, output) := bufferPorts buffer_cell in
      let r := edit (connectPin (InstPin buffer input) in_net) r in
      let r := edit (connectPin (InstPin buffer output) out_net) r in
      let buffer_loc :=
        mkPoint (int_add (getX drvr_loc) (int_mul dx i))
                (int_add (getY drvr_loc) (int_mul dy i)) in
      let r := edit (setLocation buffer buffer_loc) r in
      makeHoldDelay_buffers count' (int_incr i) drvr_loc dx dy buffer_cell
                            out_net (Some out_net) r
  end.

(** [Resizer::makeHoldDelay].  The driver has a net (the caller has read
    its special flag); without a buffer the loads would be connected to
    a null net, which gives [None]. *)
Definition makeHoldDelay `{Design} `{Timer} `{Steiner} (drvr_pin : Pin)
    (buffer_count : Z) (load_pins : list Pin) (buffer_cell : LibertyCell)
    (r : Resizer) : option Resizer :=
  drvr_net ← pin_net (netlist r) drvr_pin;
  let in_net := drvr_net in
  let drvr_loc := location drvr_pin in
  let load_center := findCenter load_pins in
  let dx := int_div (int_sub (getX drvr_loc) (getX load_center))
                    (int_add buffer_count 1) in
  let dy := int_div (int_sub (getY drvr_loc) (getY load_center))
                    (int_add buffer_count 1) in
  '(r, out_net) ← makeHoldDelay_buffers (Z.to_nat buffer_count) 0 drvr_loc
                    dx dy buffer_cell in_net None r;
  out_net ← out_net;
  let r := edit (λ nl, foldl (reconnectPin out_net) nl load_pins) r in
  if have_estimated_parasitics r then
    let r := estimateWireParasitic drvr_net r in
    Some (estimateWireParasitic out_net r)
  else Some r.

(** The body of the out-edge loop of [repairHoldPass]: the smallest
    positive delay so far and the loads to be delayed. *)
Definition repairHoldPass_edge `{Timer} (nl : Netlist)
    (allow_setup_violations : bool) (acc : float * list Pin) (fanout : Pin)
    : float * list Pin :=
  let '(buffer_delay, load_pins) := acc in
  let slacks := vertexSlacks nl fanout in
  let hold_slack := holdSlack slacks in
  if Qc_ltb hold_slack 0 then
    let delay := if allow_setup_violations then (- hold_slack)%Qc
                 else Qc_min (- hold_slack)%Qc (setupSlack slacks) in
    if Qc_ltb 0 delay
    then (float_min buffer_delay (Finite delay), load_pins ++ [fanout])
    else acc
  else acc.

(** [std::ceil(buffer_delay / buffer_delay)], converted to [int].  When
    both operands are [INF] the quotient is not a number and the
    conversion has no defined result. *)
Definition hold_buffer_count (dividend divisor : float) : option Z :=
  match dividend, divisor with
  | Finite x, Finite y => Some (ceil_int (x / y)%Qc)
  | Finite x, INF => Some 0
  | INF, _ => None
  end.

(** The block of [repairHoldPass] for one fanin: the loads to delay and
    the number of buffers to put before them, if there is any load.  The
    parameter [buffer_delay] is the self delay the caller passes; the
    block declares a variable of the same name, and it is that one the
    division reads, twice. *)
Definition repairHoldPass_vertex `{Timer} (nl : Netlist) (vertex : Pin)
    (buffer_delay : Qc) (allow_setup_violations : bool)
    : option (option (Z * list Pin)) :=
  let '(buffer_delay, load_pins) :=
    foldl (repairHoldPass_edge nl allow_setup_violations)
          (INF, []) (vertexOutEdges nl vertex) in
  match load_pins with
  | _ :: _ =>
      buffer_count ← hold_buffer_count buffer_delay buffer_delay;
      Some (Some (buffer_count, load_pins))
  | [] => Some None
  end.

(** The loop of [repairHoldPass] over the sorted fanins, from the
    [repair_count] reached so far.  A driver without a net hands a null
    net to [isSpecial]. *)
Fixpoint repairHoldPass_loop `{Design} `{Timer} `{Steiner}
    (sorted_fanins : list Pin) (repair_count max_repair_count : Z)
    (buffer_cell : LibertyCell) (buffer_delay : Qc)
    (allow_setup_violations : bool) (r : Resizer) : option (Z * Resizer) :=
  match sorted_fanins with
  | [] => Some (repair_count, r)
  | vertex :: sorted_fanins' =>
      if bool_decide (repair_count < max_repair_count) then
        let drvr_pin := vertex in
        let hold_slack := vertexSlack_min (netlist r) vertex in
        if Qc_ltb hold_slack 0 then
          net ← pin_net (netlist r) drvr_pin;
          if negb (isSpecial (netlist r) net) then
            block ← repairHoldPass_vertex (netlist r) vertex buffer_delay
                       allow_setup_violations;
            match block with
            | Some (buffer_count, load_pins) =>
                r ← makeHoldDelay vertex buffer_count load_pins buffer_cell r;
                let repair_count := int_add repair_count buffer_count in
                if overMaxArea r
                then Some (repair_count, warn "max utilization reached." r)
                else repairHoldPass_loop sorted_fanins' repair_count
                       max_repair_count buffer_cell buffer_delay
                       allow_setup_violations r
            | None =>
                repairHoldPass_loop sorted_fanins' repair_count
                  max_repair_count buffer_cell buffer_delay
                  allow_setup_violations r
            end
          else repairHoldPass_loop sorted_fanins' repair_count
                 max_repair_count buffer_cell buffer_delay
                 allow_setup_violations r
        else repairHoldPass_loop sorted_fanins' repair_count
               max_repair_count buffer_cell buffer_delay
               allow_setup_violations r
      else Some (repair_count, r)
  end.

(** [Resizer::repairHoldPass] *)
Definition repairHoldPass `{Design} `{Timer} `{Steiner}
    (hold_failures : list Pin) (buffer_cell : LibertyCell)
    (buffer_delay : Qc) (allow_setup_violations : bool) (r : Resizer)
    : option (Z * Resizer) :=
  let sorted_fanins := sortedHoldFanins (netlist r) hold_failures in
  let repair_count := 0 in
  let max_repair_count :=
    Z.max ((Z.of_nat (length hold_failures) * 2) `div` 10) 10 in
  repairHoldPass_loop sorted_fanins repair_count max_repair_count buffer_cell
                      buffer_delay allow_setup_violations r.

(** The number of buffers the spec asks [repairHoldPass] to insert for a
    smallest positive delay [D]: [ceil(D / buffer_self_delay)]. *)
Definition spec_hold_buffer_count (D buffer_self_delay : Qc) : Z :=
  Qceiling (D / buffer_self_delay)%Qc.

(** ** [tieLocation] *)

Definition tieLocation `{Design} (r : Resizer) (load : Pin) (separation : Z)
    : Point :=
  let load_loc := location load in
  let load_x := getX load_loc in
  let load_y := getY load_loc in
  let tie_x := load_x in
  let tie_y := load_y in
  let '(tie_x, tie_y) :=
    match load with
    | TopPin _ => (tie_x, tie_y)
    | InstPin db_inst _ =>
        let bbox := getBBox db_inst in
        let left_dist := int_abs (int_sub load_x (xMin bbox)) in
        let right_dist := int_abs (int_sub load_x (xMax bbox)) in
        let bot_dist := int_abs (int_sub load_y (yMin bbox)) in
        let top_dist := int_abs (int_sub load_y (yMax bbox)) in
        let tie_x :=
          if bool_decide (left_dist < right_dist)
             && bool_decide (left_dist < bot_dist)
             && bool_decide (left_dist < top_dist)
          then int_sub tie_x separation else tie_x in
        let tie_x :=
          if bool_decide (right_dist < left_dist)
             && bool_decide (right_dist < bot_dist)
             && bool_decide (right_dist < top_dist)
          then int_add tie_x separation else tie_x in
        let tie_y :=
          if bool_decide (bot_dist < left_dist)
             && bool_decide (bot_dist < right_dist)
             && bool_decide (bot_dist < top_dist)
          then int_sub tie_y separation else tie_y in
        let tie_y :=
          if bool_decide (top_dist < left_dist)
             && bool_decide (top_dist < right_dist)
             && bool_decide (top_dist < bot_dist)
          then int_add tie_y separation else tie_y in
        (tie_x, tie_y)
    end in
  if core_exists r then closestPtInRect (core r) tie_x tie_y
  else mkPoint tie_x tie_y.

(** The words of the spec for [tieLocation]: the four sides of the
    bounding box, the distance of a point to each, the side that is
    strictly closer than the three others, and the move towards a
    side. *)
Inductive Side := SideLeft | SideRight | SideBottom | SideTop.

Global Instance Side_eq_dec : EqDecision Side.
Proof. solve_decision. Defined.

Definition side_distance (bbox : Rect) (pt : Point) (s : Side) : Z :=
  match s with
  | SideLeft => Z.abs (getX pt - xMin bbox)
  | SideRight => Z.abs (getX pt - xMax bbox)
  | SideBottom => Z.abs (getY pt - yMin bbox)
  | SideTop => Z.abs (getY pt - yMax bbox)
  end.

Global Arguments side_distance : simpl never.

Definition strictly_closest (bbox : Rect) (pt : Point) (s : Side) : Prop :=
  ∀ s', s' ≠ s → side_distance bbox pt s < side_distance bbox pt s'.

Definition offset_towards (pt : Point) (separation : Z) (s : Side) : Point :=
  match s with
  | SideLeft => mkPoint (getX pt - separation) (getY pt)
  | SideRight => mkPoint (getX pt + separation) (getY pt)
  | SideBottom => mkPoint (getX pt) (getY pt - separation)
  | SideTop => mkPoint (getX pt) (getY pt + separation)
  end.

(** The four-way comparison of [tieLocation] for the side [s]. *)
Definition strictly_closest_test (bbox : Rect) (pt : Point) (s : Side)
    : bool :=
  let d := side_distance bbox pt in
  match s with
  | SideLeft =>
      bool_decide (d SideLeft < d SideRight)
      && bool_decide (d SideLeft < d SideBottom)
      && bool_decide (d SideLeft < d SideTop)
  | SideRight =>
      bool_decide (d SideRight < d SideLeft)
      && bool_decide (d SideRight < d SideBottom)
      && bool_decide (d SideRight < d SideTop)
  | SideBottom =>
      bool_decide (d SideBottom < d SideLeft)
      && bool_decide (d SideBottom < d SideRight)
      && bool_decide (d SideBottom < d SideTop)
  | SideTop =>
      bool_decide (d SideTop < d SideLeft)
      && bool_decide (d SideTop < d SideRight)
      && bool_decide (d SideTop < d SideBottom)
  end.

(** Coordinates and distances of a design stay far from the ends of the
    [int] range; within these bounds no operation of [tieLocation]
    overflows. *)
Definition dbu_range (z : Z) : Prop := - 2 ^ 30 ≤ z < 2 ^ 30.



(** Every connection of the netlist is to one of its nets, only nets of
    the netlist are flagged special, and a connected instance pin belongs
    to an instance of the netlist. *)
Definition wf_netlist (nl : Netlist) : Prop :=
  (∀ p n, pin_net nl p = Some n → n ∈ nl_nets nl)
  ∧ nl_special nl ⊆ nl_nets nl
  ∧ (∀ i q, is_Some (pin_net nl (InstPin i q)) → is_Some (nl_insts nl !! i)).

(** [wf_netlist] as a test that can be run. *)
Definition wf_netlistb (nl : Netlist) : bool :=
  forallb (λ pn : Pin * Net,
             bool_decide (pn.2 ∈ nl_nets nl)
             && match pn.1 with
                | InstPin i _ => bool_decide (is_Some (nl_insts nl !! i))
                | TopPin _ => true
                end)
          (map_to_list (nl_conn nl))
  && bool_decide (nl_special nl ⊆ nl_nets nl).

(** ** A small design used to run the definitions

    One input port [A] drives the sink [U1/I] over the net [A]; the nets
    [net1] and [net2] and the instance [input1] already exist, so that the
    name generator has collisions to step over. *)

Definition example_design : Design := {|
  isBuffer c := bool_decide (c = "BUF_X1" ∨ c = "BUF_X2" ∨ c = "BUF_D1");
  isInverter c := bool_decide (c = "INV_X1");
  bufferPorts _ := ("A", "Z");
  cell_dontUse _ := false;
  hasLibertyCell _ := true;
  findMaster c :=
    if bool_decide (c = "NO_LEF") then None else Some (mkMaster true 200 400);
  getDbUnitsPerMicron := 1000;
  direction p :=
    match p with
    | TopPin q => if bool_decide (q = "OUT") then DirOutput else DirInput
    | InstPin _ q =>
        if bool_decide (q = "Z" ∨ q = "Q" ∨ q = "QN") then DirOutput
        else DirInput
    end;
  location p :=
    match p with
    | TopPin _ => mkPoint (-50) 700
    | InstPin _ _ => mkPoint 1000 1000
    end;
  getBBox _ := mkRect 900 800 1400 1300;
  topPorts := ["A"]
|}.

Definition example_timer : Timer := {|
  isClock p := bool_decide (p = TopPin "CLK");
  isClockNet n := bool_decide (n = "CLK");
  isPower n := bool_decide (n = "VDD");
  isGround n := bool_decide (n = "VSS");
  isConstant _ := false;
  vertexOutEdges nl p :=
    match pin_net nl p with
    | Some n => filter (λ q, q ≠ p) (net_pins nl n)
    | None => []
    end;
  drivers nl n :=
    filter (λ p, isAnyOutput (direction (Design := example_design) p) = true)
           (net_pins nl n);
  equivCells c :=
    if bool_decide (c = "BUF_X1" ∨ c = "BUF_X2" ∨ c = "BUF_D1")
    then Some ["BUF_X1"; "BUF_X2"; "BUF_D1"]
    else if bool_decide (c = "DFF_X1" ∨ c = "DFF_X2")
    then Some ["DFF_X1"; "DFF_X2"]
    else None;
  loadCap _ _ _ := Qc_of_Z 4;
  bufferDelay c _ := if bool_decide (c = "BUF_D1") then Qc_of_Z 5 else 1%Qc;
  bufferSelfDelay _ := 1%Qc;
  vertexSlack_min _ _ := Qc_of_Z (-3);
  vertexSlacks _ _ :=
    mkSlacks (Qc_of_Z (-3)) (Qc_of_Z 10) (Qc_of_Z (-3)) (Qc_of_Z 10);
  sortedHoldFanins _ ends := ends;
  fuzzyGreaterEqual a b := bool_decide (b ≤ a)%Qc
|}.

Definition example_netlist : Netlist := {|
  nl_nets := {[ "A"; "net1"; "net2" ]};
  nl_special := ∅;
  nl_insts := {[ "U1" := mkInst "AND_X1" (mkPoint 1000 1000) true;
                 "input1" := mkInst "BUF_X1" (mkPoint 10 10) true ]};
  nl_conn := {[ TopPin "A" := "A"; InstPin "U1" "I" := "A" ]};
  nl_edits := []
|}.

Definition example_resizer : Resizer := {|
  netlist := example_netlist;
  wire_res := 0; wire_cap := 0; wire_clk_res := 0; wire_clk_cap := 0;
  max_area := 0; design_area := 0;
  core := mkRect 0 0 10000 10000; core_exists := true;
  have_estimated_parasitics := false;
  target_load_map := ∅;
  level_drvr_verticies := [];
  level_drvr_verticies_valid := false;
  tgt_slews := (0%Qc, 0%Qc);
  unique_net_index := 1; unique_inst_index := 1;
  resize_count := 0; inserted_buffer_count := 0;
  resized_multi_output_insts := ∅;
  dont_use := ∅;
  parasitics := ∅;
  messages := []
|}.

(** A buffer [b1] between the driver [U0/Z] and the loads [U1/I] and
    [U2/I]. *)
Definition example_buffered_netlist : Netlist := {|
  nl_nets := {[ "n1"; "n2" ]};
  nl_special := ∅;
  nl_insts := {[ "U0" := mkInst "AND_X1" (mkPoint 0 0) true;
                 "b1" := mkInst "BUF_X1" (mkPoint 500 0) true;
                 "U1" := mkInst "AND_X1" (mkPoint 1000 0) true;
                 "U2" := mkInst "AND_X1" (mkPoint 1000 500) true ]};
  nl_conn := {[ InstPin "U0" "Z" := "n1"; InstPin "b1" "A" := "n1";
                InstPin "b1" "Z" := "n2"; InstPin "U1" "I" := "n2";
                InstPin "U2" "I" := "n2" ]};
  nl_edits := []
|}.

(** A register [ff1] with both outputs connected and a two-output
    instance [b2] of the delay buffer [BUF_D1]; both have been visited on
    their first output.  Every driver sees the load 4. *)
Definition example_steiner : Steiner := {|
  makeSteinerTree _ _ := None
|}.

Definition example_sizer_netlist : Netlist := {|
  nl_nets := {[ "q"; "qn"; "z1"; "z2" ]};
  nl_special := ∅;
  nl_insts := {[ "ff1" := mkInst "DFF_X1" (mkPoint 0 0) true;
                 "b2" := mkInst "BUF_D1" (mkPoint 500 0) true;
                 "U1" := mkInst "AND_X1" (mkPoint 1000 0) true;
                 "U2" := mkInst "AND_X1" (mkPoint 1000 500) true ]};
  nl_conn := {[ InstPin "ff1" "Q" := "q"; InstPin "ff1" "QN" := "qn";
                InstPin "U1" "I" := "q"; InstPin "U2" "I" := "qn";
                InstPin "b2" "Z" := "z1"; InstPin "b2" "Q" := "z2";
                InstPin "U1" "J" := "z1"; InstPin "U2" "J" := "z2" ]};
  nl_edits := []
|}.

Definition example_sizer : Resizer :=
  set_resized_multi_output_insts {[ "ff1"; "b2" ]}
    (set_target_load_map
       {[ "DFF_X1" := Finite (Qc_of_Z 2); "DFF_X2" := Finite (Qc_of_Z 4);
          "BUF_D1" := Finite (Qc_of_Z 4); "BUF_X1" := Finite (Q2Qc (19 # 5));
          "BUF_X2" := Finite (Q2Qc (1 # 10)) ]}
       (set_level_drvr_verticies
          [InstPin "b2" "Z"; InstPin "ff1" "Q"; InstPin "ff1" "QN"]
          (set_netlist example_sizer_netlist example_resizer))).

(** Scenario S5 of the spec: one endpoint [FF/D], driven by [U0/Z], with
    hold slack [-3] and setup slack [10] in units of the buffer self
    delay, which is 1. *)
Definition example_hold_timer : Timer := {|
  isClock p := bool_decide (p = TopPin "CLK");
  isClockNet n := bool_decide (n = "CLK");
  isPower n := bool_decide (n = "VDD");
  isGround n := bool_decide (n = "VSS");
  isConstant _ := false;
  vertexOutEdges nl p :=
    match pin_net nl p with
    | Some n => filter (λ q, q ≠ p) (net_pins nl n)
    | None => []
    end;
  drivers nl n :=
    filter (λ p, isAnyOutput (direction (Design := example_design) p) = true)
           (net_pins nl n);
  equivCells _ := None;
  loadCap _ _ _ := Qc_of_Z 4;
  bufferDelay _ _ := 1%Qc;
  bufferSelfDelay _ := 1%Qc;
  vertexSlack_min _ _ := Qc_of_Z (-3);
  vertexSlacks _ _ :=
    mkSlacks (Qc_of_Z (-3)) (Qc_of_Z 10) (Qc_of_Z (-3)) (Qc_of_Z 10);
  sortedHoldFanins nl ends :=
    flat_map (λ e, match pin_net nl e with
                   | Some n =>
                       filter (λ p, isAnyOutput
                                      (direction (Design := example_design) p)
                                    = true)
                              (net_pins nl n)
                   | None => []
                   end) ends;
  fuzzyGreaterEqual a b := bool_decide (b ≤ a)%Qc
|}.

Definition example_hold_netlist : Netlist := {|
  nl_nets := {[ "d" ]};
  nl_special := ∅;
  nl_insts := {[ "U0" := mkInst "AND_X1" (mkPoint 0 0) true;
                 "FF" := mkInst "DFF_X1" (mkPoint 3000 0) true ]};
  nl_conn := {[ InstPin "U0" "Z" := "d"; InstPin "FF" "D" := "d" ]};
  nl_edits := []
|}.

Definition example_hold : Resizer :=
  set_netlist example_hold_netlist example_resizer.




(** A clock net [CLK] from the clock buffer [cb] to the register [ff1]
    and a signal net [sig] from [U0] to [U1]; each has one Steiner branch
    of 2000 dbu.  The clock wire constants are ten times the signal
    ones. *)
Definition example_clock_netlist : Netlist := {|
  nl_nets := {[ "CLK"; "sig" ]};
  nl_special := ∅;
  nl_insts := {[ "cb" := mkInst "BUF_X1" (mkPoint 0 0) true;
                 "ff1" := mkInst "DFF_X1" (mkPoint 2000 0) true;
                 "U0" := mkInst "AND_X1" (mkPoint 0 1000) true;
                 "U1" := mkInst "AND_X1" (mkPoint 2000 1000) true ]};
  nl_conn := {[ InstPin "cb" "Z" := "CLK"; InstPin "ff1" "CK" := "CLK";
                InstPin "U0" "Z" := "sig"; InstPin "U1" "I" := "sig" ]};
  nl_edits := []
|}.

Definition example_clock_tree : SteinerTree := {|
  branches := [mkBranch (mkPoint 0 0) (Some (InstPin "cb" "Z")) 0
                        (mkPoint 2000 0) (Some (InstPin "ff1" "CK")) 1 2000];
  steinerPtAlias _ := None
|}.

Definition example_signal_tree : SteinerTree := {|
  branches := [mkBranch (mkPoint 0 1000) (Some (InstPin "U0" "Z")) 0
                        (mkPoint 2000 1000) (Some (InstPin "U1" "I")) 1 2000];
  steinerPtAlias _ := None
|}.

Definition example_clock_steiner : Steiner := {|
  makeSteinerTree _ net :=
    if bool_decide (net = "CLK") then Some example_clock_tree
    else if bool_decide (net = "sig") then Some example_signal_tree
    else None
|}.

Definition example_clock_resizer : Resizer := {|
  netlist := example_clock_netlist;
  wire_res := Qc_of_Z 1; wire_cap := Qc_of_Z 2;
  wire_clk_res := Qc_of_Z 10; wire_clk_cap := Qc_of_Z 20;
  max_area := 0; design_area := 0;
  core := mkRect 0 0 10000 10000; core_exists := true;
  have_estimated_parasitics := true;
  target_load_map := ∅;
  level_drvr_verticies := [];
  level_drvr_verticies_valid := false;
  tgt_slews := (0%Qc, 0%Qc);
  unique_net_index := 1; unique_inst_index := 1;
  resize_count := 0; inserted_buffer_count := 0;
  resized_multi_output_insts := ∅;
  dont_use := ∅;
  parasitics := ∅;
  messages := []
|}.

(** ** Further operations of the resizer *)

Definition set_dont_use (v : gset LibertyCell) (r : Resizer) : Resizer :=
    let 'mkResizer x0 x1 x2 x3 x4 x5 x6 x7 x8 x9 x10 x11 x12 x13 x14 x15 x16
      x17 x18 _ x20 x21 := r in
    mkResizer x0 x1 x2 x3 x4 x5 x6 x7 x8 x9 x10 x11 x12 x13 x14 x15 x16 x17
    x18 v x20 x21.

(** [Resizer::setDontUse]; [None] is the null sequence. *)
Definition setDontUse (cells : option (list LibertyCell)) (r : Resizer)
    : Resizer :=
  match cells with
  | Some cells =>
      foldl (λ r cell, set_dont_use ({[cell]} ∪ dont_use r) r) r cells
  | None => r
  end.


(** [stringLess(a, b)] of the TIMER's string utilities is
    [strcmp(a, b) < 0]: the order of the first differing character, a
    proper prefix coming first. *)
Definition stringLess (a b : string) : bool :=
  match String.compare a b with Lt => true | _ => false end.

(** [VertexLevelLess::operator()], for the level of a vertex and the path
    name of its pin. *)
Definition VertexLevelLess (level : Pin → Z) (pathName : Pin → string)
    (vertex1 vertex2 : Pin) : bool :=
  let level1 := level vertex1 in
  let level2 := level vertex2 in
  bool_decide (level1 < level2)
  || (bool_decide (level1 = level2)
      && stringLess (pathName vertex1) (pathName vertex2)).

(** [Resizer::estimateWireParasitics]: [sta_->deleteParasitics()] drops
    every parasitic the TIMER holds; then every net that is neither power
    nor ground is estimated. *)
Definition estimateWireParasitics `{Design} `{Timer} `{Steiner} (r : Resizer)
    : Resizer :=
  if Qc_ltb 0 (wire_cap r) then
    let r := set_parasitics ∅ r in
    let r :=
      foldl (λ r net,
               if negb (isPower net) && negb (isGround net)
               then estimateWireParasitic net r
               else r)
            r (elements (nl_nets (netlist r))) in
    set_have_estimated_parasitics true r
  else r.

(** [Resizer::findDesignArea]: the areas of the masters of the instances
    of the block, added up one after the other. *)
Definition findDesignArea `{Design} (nl : Netlist) : Qc :=
  foldl (λ design_area d, (design_area + area (inst_master d))%Qc) 0%Qc
        (map_to_list (nl_insts nl)).*2.

(** The recorded design area is the area of the instances of the
    netlist. *)
Definition area_recorded `{Design} (r : Resizer) : Prop :=
  design_area r = findDesignArea (netlist r).

(** An instance as the gate sizer may leave it: where it was, with its
    cell or with another one that may be used and has a master. *)
Definition resized_from `{Design} (r : Resizer) (d d' : InstData) : Prop :=
  inst_location d' = inst_location d
  ∧ inst_placed d' = inst_placed d
  ∧ (inst_master d' = inst_master d
     ∨ (dontUse r (inst_master d') = false
        ∧ is_Some (findMaster (inst_master d')))).

(** A netlist as the gate sizer may leave it: the same nets, the same
    connections, the same instances, each one [resized_from] what it
    was. *)
Definition resized_to `{Design} (r : Resizer) (nl nl' : Netlist) : Prop :=
  nl_nets nl' = nl_nets nl
  ∧ nl_special nl' = nl_special nl
  ∧ nl_conn nl' = nl_conn nl
  ∧ ∀ i, option_Forall2 (resized_from r) (nl_insts nl !! i)
                        (nl_insts nl' !! i).

(** ** [bufferOutputs] *)

(** [PortDirection::isOutput] *)
Definition isOutput (d : PortDirection) : bool :=
  match d with DirOutput => true | _ => false end.

(** The body of the pin loop of [bufferOutput]: the port pin stays on its
    net, every other pin moves to the buffer input net. *)
Definition bufferOutput_pin (top_pin : Pin) (buffer_in : Net)
    (nl : Netlist) (pin : Pin) : Netlist :=
  if decide (pin ≠ top_pin) then reconnectPin buffer_in nl pin else nl.

(** [Resizer::bufferOutput].  [output_net] is the net [bufferOutputs] has
    already read off the port. *)
Definition bufferOutput `{Design} (top_pin : Pin) (output_net : Net)
    (buffer_cell : LibertyCell) (r : Resizer) : option Resizer :=
  let '(input, output) := bufferPorts buffer_cell in
  '(buffer_in_net_name, r) ← makeUniqueNetName r;
  '(buffer_name, r) ← makeUniqueInstName "output" false r;
  let r := edit (makeNet buffer_in_net_name) r in
  let buffer_in := buffer_in_net_name in
  let '(nl, buffer) := makeInstance buffer_cell buffer_name (netlist r) in
  let r := set_netlist nl r in
  match buffer with
  | Some buffer =>
      let r := edit (setLocation buffer (location top_pin)) r in
      let r := set_design_area (design_area r + area buffer_cell)%Qc r in
      let r := set_inserted_buffer_count
                 (int_incr (inserted_buffer_count r)) r in
      let r := edit (λ nl, foldl (bufferOutput_pin top_pin buffer_in) nl
                                 (net_pins nl output_net)) r in
      let r := edit (connectPin (InstPin buffer input) buffer_in) r in
      let r := edit (connectPin (InstPin buffer output) output_net) r in
      Some r
  | None => Some r
  end.

(** The test of the port loop of [bufferOutputs]: an output port with a
    net that is not special. *)
Definition bufferOutputs_port `{Design} (buffer_cell : LibertyCell)
    (r : Resizer) (pin : Pin) : option Resizer :=
  if isOutput (direction pin) then
    match pin_net (netlist r) pin with
    | Some net =>
        if negb (isSpecial (netlist r) net)
        then bufferOutput pin net buffer_cell r
        else Some r
    | None => Some r
    end
  else Some r.

(** [Resizer::bufferOutputs] *)
Definition bufferOutputs `{Design} (buffer_cell : LibertyCell)
    (r : Resizer) : option Resizer :=
  let r := init r in
  let r := set_inserted_buffer_count 0 r in
  r ← foldl (λ st pin, r ← st; bufferOutputs_port buffer_cell r pin)
            (Some r) (TopPin <$> topPorts);
  if bool_decide (0 < inserted_buffer_count r) then
    let r := printf ("Inserted " +:+ pretty (inserted_buffer_count r)
                     +:+ " output buffers." +:+ newline) r in
    Some (set_level_drvr_verticies_valid false r)
  else Some r.

(** An output port [OUT] driven by [U1/Z], with a second load [U2/I] on
    the same net. *)
Definition example_output_netlist : Netlist := {|
  nl_nets := {[ "out" ]};
  nl_special := ∅;
  nl_insts := {[ "U1" := mkInst "AND_X1" (mkPoint 1000 1000) true;
                 "U2" := mkInst "AND_X1" (mkPoint 2000 1000) true ]};
  nl_conn := {[ TopPin "OUT" := "out"; InstPin "U1" "Z" := "out";
                InstPin "U2" "I" := "out" ]};
  nl_edits := []
|}.

(** ** Distances along a Steiner tree *)

(** The points of a Steiner tree as the walks from the driver see them:
    the pin at a point, its location and its two successors.  [None] is
    [SteinerTree::null_pt]. *)
Record SteinerPts := mkSteinerPts {
  st_pin : Z → option Pin;          (* [tree->pin(pt)] *)
  st_location : Z → Point;          (* [tree->location(pt)] *)
  st_left : Z → option Z;           (* [tree->left(pt)] *)
  st_right : Z → option Z           (* [tree->right(pt)] *)
}.

(** Modelled from the spec: [Point::manhattanDistance] belongs to the
    geometry library, which is not part of the sources at hand; section
    4.1 gives it as [|ax-bx| + |ay-by|]. *)
Definition manhattanDistance (a b : Point) : Z :=
  int_add (int_abs (int_sub (getX a) (getX b)))
          (int_abs (int_sub (getY a) (getY b))).

(** [pin && db_network_->isLoad(pin)] *)
Definition is_load_pt (isLoad : Pin → bool) (tree : SteinerPts) (pt : Z)
    : bool :=
  match st_pin tree pt with Some pin => isLoad pin | None => false end.

(** [Resizer::findMaxSteinerDist(tree, pt, dist_from_drvr)], a depth-first
    walk, on [fuel] levels of recursion. *)
Fixpoint findMaxSteinerDist (fuel : nat) (isLoad : Pin → bool)
    (tree : SteinerPts) (pt : Z) (dist_from_drvr : Z) : option Z :=
  match fuel with
  | O => None
  | S fuel' =>
      if is_load_pt isLoad tree pt then Some dist_from_drvr
      else
        let loc := st_location tree pt in
        left_max ←
          match st_left tree pt with
          | Some left_pt =>
              let left_dist :=
                manhattanDistance loc (st_location tree left_pt) in
              findMaxSteinerDist fuel' isLoad tree left_pt
                                 (int_add dist_from_drvr left_dist)
          | None => Some 0
          end;
        right_max ←
          match st_right tree pt with
          | Some right_pt =>
              let right_dist :=
                manhattanDistance loc (st_location tree right_pt) in
              findMaxSteinerDist fuel' isLoad tree right_pt
                                 (int_add dist_from_drvr right_dist)
          | None => Some 0
          end;
        Some (Z.max left_max right_max)
  end.



(** A driver at point 0 with a Steiner point 1 below it, which has the
    loads [U1/I] at point 2 and [U2/I] at point 3. *)
Definition example_steiner_pts : SteinerPts := {|
  st_pin pt :=
    if bool_decide (pt = 0) then Some (InstPin "U0" "Z")
    else if bool_decide (pt = 2) then Some (InstPin "U1" "I")
    else if bool_decide (pt = 3) then Some (InstPin "U2" "I")
    else None;
  st_location pt :=
    if bool_decide (pt = 0) then mkPoint 0 0
    else if bool_decide (pt = 1) then mkPoint 100 0
    else if bool_decide (pt = 2) then mkPoint 100 50
    else mkPoint 400 0;
  st_left pt :=
    if bool_decide (pt = 0) then Some 1
    else if bool_decide (pt = 1) then Some 2
    else None;
  st_right pt := if bool_decide (pt = 1) then Some 3 else None
|}.

(** ** Binary searches on the delay calculator *)

(** A Liberty port: the cell and the name of the port. *)
Abbreviation LibertyPort := (string * string)%type (only parsing).

(** The delay calculator behind the searches: the rise and fall delays
    and slews of [Resizer::gateDelays] for a driver port, the target slews
    and a load, the drive resistance of a port, and the delay and slew
    [Resizer::bufferWireDelay] finds for a buffer driving a wire of a
    given length into a buffer of the same cell. *)
Class DelayCalc := {
  gateDelays : Qc * Qc → LibertyPort → Qc → (Qc * Qc) * (Qc * Qc);
  driveResistance : LibertyPort → Qc;
  bufferWireDelay : Resizer → LibertyCell → Qc → Qc * Qc
}.

Local Open Scope Qc_scope.

Definition Qc_abs (a : Qc) : Qc := if Qc_ltb a 0 then - a else a.

(** [Resizer::gateSlewDiff], the objective of [findSlewLoadCap] *)
Definition gateSlewDiff `{DelayCalc} (r : Resizer) (drvr_port : LibertyPort)
    (load_cap slew : Qc) : Qc :=
  let '(delays, slews) := gateDelays (tgt_slews r) drvr_port load_cap in
  let gate_slew := Qc_max (rf_get slews Rise) (rf_get slews Fall) in
  gate_slew - slew.

(** [Resizer::splitWireDelayDiff], the objective of [findMaxWireLength] *)
Definition splitWireDelayDiff `{DelayCalc} (r : Resizer) (wire_length : Qc)
    (buffer_cell : LibertyCell) : Qc :=
  let '(delay1, slew1) := bufferWireDelay r buffer_cell wire_length in
  let '(delay2, slew2) :=
    bufferWireDelay r buffer_cell (wire_length / Qc_of_Z 2) in
  delay1 - delay2 * Qc_of_Z 2.

(** The [while] loop of [findSlewLoadCap] and of [findMaxWireLength], the
    same text in both but for the names and the objective: a lower bound,
    an upper bound that doubles while the objective is negative there,
    and bisection once it is not, down to the tolerance [tol] of 1%.  On
    [fuel] rounds. *)
Fixpoint binary_search (fuel : nat) (objective : Qc → Qc)
    (cap1 cap2 diff1 diff2 : Qc) : option Qc :=
  match fuel with
  | O => None
  | S fuel' =>
      let tol := Q2Qc (1 # 100) in
      if Qc_ltb (Qc_max cap1 cap2 * tol) (Qc_abs (cap1 - cap2)) then
        if Qc_ltb diff2 0 then
          let cap1 := cap2 in
          let diff1 := diff2 in
          let cap2 := cap2 * Qc_of_Z 2 in
          let diff2 := objective cap2 in
          binary_search fuel' objective cap1 cap2 diff1 diff2
        else
          let cap3 := (cap1 + cap2) / Qc_of_Z 2 in
          let diff3 := objective cap3 in
          if Qc_ltb diff3 0
          then binary_search fuel' objective cap3 cap2 diff3 diff2
          else binary_search fuel' objective cap1 cap3 diff1 diff3
      else Some cap1
  end.

(** [Resizer::findSlewLoadCap] *)
Definition findSlewLoadCap `{DelayCalc} (fuel : nat) (r : Resizer)
    (drvr_port : LibertyPort) (slew : Qc) : option Qc :=
  let cap1 := 0 in
  let cap2 := slew / driveResistance drvr_port * Qc_of_Z 2 in
  let diff1 := gateSlewDiff r drvr_port cap1 slew in
  let diff2 := gateSlewDiff r drvr_port cap2 slew in
  binary_search fuel (λ cap, gateSlewDiff r drvr_port cap slew)
                cap1 cap2 diff1 diff2.

(** [Resizer::findMaxWireLength(drvr_port)] of the output port of a
    buffer cell *)
Definition findMaxWireLength `{Design} `{DelayCalc} (fuel : nat)
    (r : Resizer) (buffer_cell : LibertyCell) : option Qc :=
  let drvr_port := (buffer_cell, (bufferPorts buffer_cell).2) in
  let drvr_r := driveResistance drvr_port in
  let wire_length1 := 0 in
  let wire_length2 := drvr_r / wire_res r in
  let diff1 := splitWireDelayDiff r wire_length1 buffer_cell in
  let diff2 := splitWireDelayDiff r wire_length2 buffer_cell in
  binary_search fuel (λ wire_length,
                        splitWireDelayDiff r wire_length buffer_cell)
                wire_length1 wire_length2 diff1 diff2.

Local Close Scope Qc_scope.

(** A gate whose output slew is the load times [10^12] (1 at 1 pF), with
    drive resistance 1, and a buffer whose delay into a wire grows with
    the square of the wire length. *)
Definition example_delay_calc : DelayCalc := {|
  gateDelays _ _ load_cap :=
    ((load_cap * Qc_of_Z 1000000000000, load_cap * Qc_of_Z 1000000000000)%Qc,
     (load_cap * Qc_of_Z 1000000000000, load_cap * Qc_of_Z 1000000000000)%Qc);
  driveResistance _ := 1%Qc;
  bufferWireDelay _ _ wire_length :=
    ((1 + wire_length * wire_length)%Qc, 1%Qc)
|}.

(** ** [repairTieFanout] *)

(** The conversion of a [double] to [int]: the fraction is dropped. *)
Definition trunc_int (q : Qc) : Z := wrap (Qnum q `quot` Zpos (Qden q)).

(** [Resizer::metersToDbu]: [dist * dbu * 1e+6] *)
Definition metersToDbu `{Design} (dist : Qc) : Z :=
  trunc_int (dist * Qc_of_Z getDbUnitsPerMicron * Qc_of_Z 1000000)%Qc.

(** [Resizer::findCellInstances]: the leaf instances whose Liberty cell is
    [cell]. *)
Definition findCellInstances `{Design} (nl : Netlist) (cell : LibertyCell)
    : list Instance :=
  (filter (λ kv : Instance * InstData,
             hasLibertyCell (inst_master kv.2) = true
             ∧ inst_master kv.2 = cell)
          (map_to_list (nl_insts nl))).*1.

(** The body of the load loop of [repairTieFanout]: a tie instance and a
    net of its own for [load].  [makeInstance] is not checked: without an
    instance [setLocation] has nothing to work on and the result is
    [None]. *)
Definition repairTieFanout_load `{Design} (tie_cell : LibertyCell)
    (tie_port : string) (name : string) (separation_dbu : Z)
    (drvr_pin : Pin) (st : Resizer * Z) (load : Pin)
    : option (Resizer * Z) :=
  let '(r, tie_count) := st in
  if decide (load ≠ drvr_pin) then
    let tie_loc := tieLocation r load separation_dbu in
    '(tie_name, r) ← makeUniqueInstName name true r;
    let '(nl, tie) := makeInstance tie_cell tie_name (netlist r) in
    let r := set_netlist nl r in
    tie ← tie;
    let r := edit (setLocation tie tie_loc) r in
    '(load_net_name, r) ← makeUniqueNetName r;
    let r := edit (makeNet load_net_name) r in
    let load_net := load_net_name in
    let r := edit (connectPin (InstPin tie tie_port) load_net) r in
    let r := edit (λ nl, reconnectPin load_net nl load) r in
    let r := set_design_area (design_area r + area tie_cell)%Qc r in
    Some (r, int_incr tie_count)
  else Some st.

(** The body of the instance loop: the loads of the net on the tie pin, as
    the net has them when the instance is reached, get a tie instance
    each; then the net and the instance are deleted. *)
Definition repairTieFanout_inst `{Design} (tie_cell : LibertyCell)
    (tie_port : string) (separation_dbu : Z) (st : Resizer * Z)
    (inst : Instance) : option (Resizer * Z) :=
  let '(r, tie_count) := st in
  let drvr_pin := InstPin inst tie_port in
  match pin_net (netlist r) drvr_pin with
  | Some net =>
      '(r, tie_count) ←
         foldl (λ st load,
                  st ← st;
                  repairTieFanout_load tie_cell tie_port inst
                    separation_dbu drvr_pin st load)
               (Some (r, tie_count)) (net_pins (netlist r) net);
      let tie_pin := InstPin inst tie_port in
      tie_net ← pin_net (netlist r) tie_pin;
      let r := edit (deleteNet tie_net) r in
      let r := edit (deleteInstance inst) r in
      Some (r, tie_count)
  | None => Some st
  end.

(** [Resizer::repairTieFanout].  [tie_port] is a port of a Liberty cell,
    given as the cell and the port name; [separation] is in meters. *)
Definition repairTieFanout `{Design} (tie_port : LibertyPort)
    (separation : Qc) (verbose : bool) (r : Resizer) : option Resizer :=
  let tie_cell := tie_port.1 in
  let insts := findCellInstances (netlist r) tie_cell in
  let separation_dbu := metersToDbu separation in
  '(r, tie_count) ←
     foldl (λ st inst,
              st ← st;
              repairTieFanout_inst tie_cell tie_port.2 separation_dbu
                st inst)
           (Some (r, 0)) insts;
  if bool_decide (0 < tie_count)
  then Some (set_level_drvr_verticies_valid false
               (printf ("Inserted " +:+ pretty tie_count +:+ " tie "
                        +:+ tie_cell +:+ " instances." +:+ newline) r))
  else Some r.

(** A driver pin with at most one other pin on its net. *)
Definition single_load (nl : Netlist) (drvr : Pin) : Prop :=
  ∀ n p q, pin_net nl drvr = Some n →
           pin_net nl p = Some n → pin_net nl q = Some n →
           p ≠ drvr → q ≠ drvr → p = q.

(** The tie instances of [insts] whose tie pin is on a net. *)
Definition connected_ties (nl : Netlist) (tie_port : string)
    (insts : list Instance) : list Instance :=
  filter (λ i, is_Some (pin_net nl (InstPin i tie_port))) insts.

(** What the instance loop of [repairTieFanout] keeps true.  [r0] is the
    resizer the pass starts from, [todo] the instances of the tie cell
    the loop has yet to visit, [deleted] the number of instances it has
    deleted. *)
Definition tie_inv `{Design} (tie_cell : LibertyCell) (tie_port : string)
    (separation_dbu : Z) (r0 : Resizer) (todo : list Instance)
    (deleted : nat) (r : Resizer) : Prop :=
  (core r = core r0 ∧ core_exists r = core_exists r0)
  ∧ (∀ p n, pin_net (netlist r) p = Some n → n ∈ nl_nets (netlist r))
  ∧ (∀ i d, nl_insts (netlist r0) !! i = Some d →
            inst_master d ≠ tie_cell →
            nl_insts (netlist r) !! i = Some d)
  ∧ (∀ i d, nl_insts (netlist r) !! i = Some d →
            inst_master d = tie_cell →
            (i ∈ todo ∨ single_load (netlist r) (InstPin i tie_port))
            ∧ (nl_insts (netlist r0) !! i = Some d
               ∨ ∃ load, d = mkInst tie_cell
                                (tieLocation r0 load separation_dbu) true))
  ∧ (∀ i, i ∈ todo →
          (∃ d, nl_insts (netlist r) !! i = Some d
                ∧ nl_insts (netlist r0) !! i = Some d
                ∧ inst_master d = tie_cell)
          ∧ (is_Some (pin_net (netlist r) (InstPin i tie_port))
             ↔ is_Some (pin_net (netlist r0) (InstPin i tie_port))))
  ∧ (design_area r - findDesignArea (netlist r)
     = design_area r0 - findDesignArea (netlist r0)
       + Qc_of_Z (Z.of_nat deleted) * area tie_cell)%Qc.

(** A tie-high instance [T1] whose output drives [U1/A], [U2/A] and the
    port [OUT], and a second one, [T2], with nothing on its output. *)
Definition example_tie_netlist : Netlist := {|
  nl_nets := {[ "one"; "n1" ]};
  nl_special := ∅;
  nl_insts := {[ "T1" := mkInst "TIEHI" (mkPoint 0 0) true;
                 "T2" := mkInst "TIEHI" (mkPoint 5 5) true;
                 "U1" := mkInst "AND_X1" (mkPoint 1000 1000) true;
                 "U2" := mkInst "AND_X1" (mkPoint 2000 1000) true ]};
  nl_conn := {[ InstPin "T1" "Z" := "one";
                InstPin "U1" "A" := "one";
                InstPin "U2" "A" := "one";
                TopPin "OUT" := "one";
                InstPin "U1" "B" := "n1" ]};
  nl_edits := []
|}.

(** The resizer on [example_tie_netlist], its design area recorded. *)
Definition example_tie_resizer : Resizer :=
  set_design_area
    (findDesignArea (H := example_design) example_tie_netlist)
    (set_netlist example_tie_netlist example_resizer).

(** ** The buffers of [makeHoldDelay] *)

(** A chain of buffers in a netlist, as the comment in [makeHoldDelay]
    draws it ([drvr_pin->drvr_net->hold_buffer->net2->load_pins]): each
    entry of [chain] is a buffer instance with the net on its output; the
    input of the first is on [in_net], the input of every other one on the
    output net of the one before.  The buffer with loop index [i] sits at
    [drvr_loc + (dx, dy) * i]. *)
Fixpoint hold_chain `{Design} (nl : Netlist) (buffer_cell : LibertyCell)
    (drvr_loc : Point) (dx dy : Z) (i : Z) (in_net : Net)
    (chain : list (Instance * Net)) : Prop :=
  match chain with
  | [] => True
  | (buffer, out_net) :: chain' =>
      nl_insts nl !! buffer
      = Some (mkInst buffer_cell
                (mkPoint (int_add (getX drvr_loc) (int_mul dx i))
                         (int_add (getY drvr_loc) (int_mul dy i)))
                true)
      ∧ pin_net nl (InstPin buffer (bufferPorts buffer_cell).1) = Some in_net
      ∧ pin_net nl (InstPin buffer (bufferPorts buffer_cell).2)
        = Some out_net
      ∧ hold_chain nl buffer_cell drvr_loc dx dy (int_incr i) out_net chain'
  end.

(** ** [repairHoldViolations] *)

(** [fuzzyLess] of [sta/Fuzzy.hh], a service of the timer. *)
Class Fuzzy := {
  fuzzyLess : Qc → Qc → bool
}.

(** [Resizer::findHoldViolations]: the worst slack and the endpoints with
    a hold violation.  [ends] lists the vertex set in the order it is
    iterated in, which is the order of the set of violations as well. *)
Definition findHoldViolations `{Timer} `{Fuzzy} (nl : Netlist)
    (ends : list Pin) : float * list Pin :=
  foldl (λ '(worst_slack, hold_violations) end_vertex,
           let slack := vertexSlack_min nl end_vertex in
           if negb (isClock end_vertex) && fuzzyLess slack 0%Qc then
             let worst_slack :=
               if float_lt (Finite slack) worst_slack then Finite slack
               else worst_slack in
             (worst_slack, hold_violations ++ [end_vertex])
           else (worst_slack, hold_violations))
        (INF, []) ends.

(** The pass loop of [repairHoldViolations], on [fuel] rounds: it goes on
    while endpoints fail and the pass before has inserted a buffer. *)
Fixpoint repairHoldViolations_loop `{Design} `{Timer} `{Steiner} `{Fuzzy}
    (fuel : nat) (ends : list Pin) (buffer_cell : LibertyCell)
    (buffer_delay : Qc) (allow_setup_violations : bool)
    (hold_failures : list Pin) (repair_count pass : Z) (r : Resizer)
    : option Resizer :=
  match fuel with
  | O => None
  | S fuel' =>
      if negb (bool_decide (hold_failures = []))
         && bool_decide (0 < repair_count)
      then
        '(repair_count, r) ←
           repairHoldPass hold_failures buffer_cell buffer_delay
             allow_setup_violations r;
        let '(worst_slack, hold_failures) :=
          findHoldViolations (netlist r) ends in
        repairHoldViolations_loop fuel' ends buffer_cell buffer_delay
          allow_setup_violations hold_failures repair_count
          (int_incr pass) r
      else Some r
  end.

(** [Resizer::repairHoldViolations(ends, buffer_cell,
    allow_setup_violations)], the one that takes the set of endpoints. *)
Definition repairHoldViolations_ends `{Design} `{Timer} `{Steiner} `{Fuzzy}
    (fuel : nat) (ends : list Pin) (buffer_cell : LibertyCell)
    (allow_setup_violations : bool) (r : Resizer) : option Resizer :=
  let '(worst_slack, hold_failures) :=
    findHoldViolations (netlist r) ends in
  if negb (bool_decide (hold_failures = [])) then
    let r := printf ("Found " +:+ pretty (Z.of_nat (length hold_failures))
                     +:+ " endpoints with hold violations." +:+ newline)
                    r in
    let r := set_inserted_buffer_count 0 r in
    let repair_count := 1 in
    let pass := 1 in
    let buffer_delay := bufferSelfDelay buffer_cell in
    r ← repairHoldViolations_loop fuel ends buffer_cell buffer_delay
          allow_setup_violations hold_failures repair_count pass r;
    if bool_decide (0 < inserted_buffer_count r) then
      let r := printf ("Inserted " +:+ pretty (inserted_buffer_count r)
                       +:+ " hold buffers." +:+ newline) r in
      Some (set_level_drvr_verticies_valid false r)
    else Some r
  else Some (printf ("No hold violations found." +:+ newline) r).

(** [Resizer::repairHoldViolations(buffers, allow_setup_violations)].
    [ends] stands for [sta_->search()->endpoints()]; the first element of
    [buffers] is read without a check, and an empty sequence has none. *)
Definition repairHoldViolations `{Design} `{Timer} `{Steiner} `{Fuzzy}
    (fuel : nat) (ends : list Pin) (buffers : list LibertyCell)
    (allow_setup_violations : bool) (r : Resizer) : option Resizer :=
  let r := init r in
  buffer_cell ← head buffers;
  repairHoldViolations_ends fuel ends buffer_cell allow_setup_violations r.

Definition example_fuzzy : Fuzzy := {|
  fuzzyLess a b := bool_decide (a < b)%Qc
|}.

(** A timer for the design of [example_hold_netlist] in which every
    instance added takes one unit off the hold violation: the hold slack
    is the number of instances minus 4. *)
Definition example_repair_timer : Timer := {|
  isClock p := bool_decide (p = TopPin "CLK");
  isClockNet n := bool_decide (n = "CLK");
  isPower n := bool_decide (n = "VDD");
  isGround n := bool_decide (n = "VSS");
  isConstant _ := false;
  vertexOutEdges nl p :=
    match pin_net nl p with
    | Some n => filter (λ q, q ≠ p) (net_pins nl n)
    | None => []
    end;
  drivers nl n :=
    filter (λ p, isAnyOutput (direction (Design := example_design) p) = true)
           (net_pins nl n);
  equivCells _ := None;
  loadCap _ _ _ := Qc_of_Z 4;
  bufferDelay _ _ := 1%Qc;
  bufferSelfDelay _ := 1%Qc;
  vertexSlack_min nl _ := Qc_of_Z (Z.of_nat (size (nl_insts nl)) - 4);
  vertexSlacks nl _ :=
    mkSlacks (Qc_of_Z (Z.of_nat (size (nl_insts nl)) - 4)) (Qc_of_Z 10)
             (Qc_of_Z (Z.of_nat (size (nl_insts nl)) - 4)) (Qc_of_Z 10);
  sortedHoldFanins nl ends :=
    flat_map (λ e, match pin_net nl e with
                   | Some n =>
                       filter (λ p, isAnyOutput
                                      (direction (Design := example_design) p)
                                    = true)
                              (net_pins nl n)
                   | None => []
                   end) ends;
  fuzzyGreaterEqual a b := bool_decide (b ≤ a)%Qc
|}.

(** ** What [bufferOutputs] achieves *)

(** A port behind a buffer: the net of the port pin has the port pin and
    the output pin of an instance of the buffer cell, and no other pin. *)
Definition buffered_output (nl : Netlist) (buffer_cell : LibertyCell)
    (output : string) (top_pin : Pin) : Prop :=
  ∃ net buffer d,
    pin_net nl top_pin = Some net
    ∧ nl_insts nl !! buffer = Some d
    ∧ inst_master d = buffer_cell
    ∧ ∀ p, pin_net nl p = Some net ↔ p = top_pin ∨ p = InstPin buffer output.

(** What the port loop of [bufferOutputs] keeps true: the netlist is well
    formed, the ports of [visited] that had an unflagged net at the start
    ([nl0]) are behind a buffer, the ports of [todo] that had one still
    have one. *)
Definition bufferOutputs_inv `{Design} (buffer_cell : LibertyCell)
    (nl0 : Netlist) (visited todo : list string) (nl : Netlist) : Prop :=
  wf_netlist nl
  ∧ (∀ q net, q ∈ visited →
        isOutput (direction (TopPin q)) = true →
        pin_net nl0 (TopPin q) = Some net → isSpecial nl0 net = false →
        buffered_output nl buffer_cell (bufferPorts buffer_cell).2
          (TopPin q))
  ∧ (∀ q net, q ∈ todo →
        pin_net nl0 (TopPin q) = Some net → isSpecial nl0 net = false →
        ∃ net', pin_net nl (TopPin q) = Some net'
                ∧ isSpecial nl net' = false).

(** The design of [example_design] with the output port [OUT] among the
    ports of the top instance. *)
Definition example_output_design : Design := {|
  isBuffer := isBuffer (Design := example_design);
  isInverter := isInverter (Design := example_design);
  bufferPorts := bufferPorts (Design := example_design);
  cell_dontUse := cell_dontUse (Design := example_design);
  hasLibertyCell := hasLibertyCell (Design := example_design);
  findMaster := findMaster (Design := example_design);
  getDbUnitsPerMicron := getDbUnitsPerMicron (Design := example_design);
  direction := direction (Design := example_design);
  location := location (Design := example_design);
  getBBox := getBBox (Design := example_design);
  topPorts := ["A"; "OUT"]
|}.

(* ===================================================================== *)
(** * Part II: theorems                                                   *)
(* ===================================================================== *)

Lemma wrap_in_int (z : Z) : in_int z → wrap z = z.
Proof.
  unfold in_int, int_min, int_max, wrap. intros Hz.
  rewrite Z.mod_small; lia.
Qed.

Lemma int_incr_in_int (z : Z) :
  int_min ≤ z → z + 1 ≤ int_max → int_incr z = z + 1.
Proof.
  intros Hlo Hhi. unfold int_incr, int_add.
  apply wrap_in_int. unfold in_int. lia.
Qed.

(** ** Name generator *)

Lemma string_app_inv_head (s t1 t2 : string) :
  s +:+ t1 = s +:+ t2 → t1 = t2.
Proof.
  induction s as [|c s IH]; simpl; [done|].
  intros Heq. injection Heq as Heq. by apply IH.
Qed.

Lemma net_name_inj (n m : Z) : net_name n = net_name m → n = m.
Proof.
  unfold net_name. intros Heq%string_app_inv_head.
  by apply (inj pretty).
Qed.

Lemma inst_name_inj (base : string) (underscore : bool) (n m : Z) :
  inst_name base underscore n = inst_name base underscore m → n = m.
Proof.
  unfold inst_name. destruct underscore.
  - intros Heq%string_app_inv_head%string_app_inv_head.
    by apply (inj pretty).
  - intros Heq%string_app_inv_head. by apply (inj pretty).
Qed.

(** The loop stops at the first counter value whose name the netlist does
    not know, after at most [size X] collisions, where [X] holds the
    known names the loop can still run into. *)
Lemma unique_name_loop_total (fuel : nat) (found : string → bool)
    (print : Z → string) (index : Z) (X : gset string) :
  (∀ n m, print n = print m → n = m) →
  (∀ j, index ≤ j → found (print j) = true → print j ∈ X) →
  (size X < fuel)%nat →
  int_min ≤ index →
  index + Z.of_nat (size X) + 1 ≤ int_max →
  ∃ n, unique_name_loop fuel found print index = Some (print n, n + 1)
       ∧ index ≤ n ≤ index + Z.of_nat (size X)
       ∧ found (print n) = false
       ∧ ∀ j, index ≤ j < n → found (print j) = true.
Proof.
  intros Hinj. revert index X.
  induction fuel as [|fuel IH]; intros index X Hcover Hsize Hlo Hhi; [lia|].
  simpl. destruct (found (print index)) eqn:Hfound.
  - assert (print index ∈ X) as Hin by (apply Hcover; [lia|done]).
    assert (size (X ∖ {[print index]}) = (size X - 1)%nat) as Hsz.
    { rewrite size_difference; [|set_solver]. by rewrite size_singleton. }
    assert (size X ≠ 0%nat) as Hne.
    { intros H0. apply size_empty_inv in H0. set_solver. }
    rewrite int_incr_in_int; [|lia..].
    destruct (IH (index + 1) (X ∖ {[print index]})) as (n & Hn & Hr & Hf & Hb).
    + intros j Hj Hfj. apply elem_of_difference. split.
      * apply Hcover; [lia|done].
      * rewrite elem_of_singleton. intros Heq%Hinj. lia.
    + lia.
    + lia.
    + lia.
    + exists n. split; [done|]. split; [lia|]. split; [done|].
      intros j Hj. destruct (decide (j = index)) as [->|Hne'].
      * done.
      * apply Hb. lia.
  - exists index. rewrite int_incr_in_int; [|lia..].
    split; [done|]. split; [lia|]. split; [done|]. intros j Hj. lia.
Qed.

Lemma makeUniqueNetName_spec (r : Resizer) :
  int_min ≤ unique_net_index r →
  unique_net_index r + Z.of_nat (size (nl_nets (netlist r))) + 1 ≤ int_max →
  ∃ n, makeUniqueNetName r
       = Some (net_name n, set_unique_net_index (n + 1) r)
       ∧ (unique_net_index r ≤ n
          ∧ n ≤ unique_net_index r + Z.of_nat (size (nl_nets (netlist r))))
       ∧ (net_name n ∉ nl_nets (netlist r))
       ∧ (∀ j, (unique_net_index r ≤ j ∧ j < n) →
               net_name j ∈ nl_nets (netlist r)).
Proof.
  intros Hlo Hhi. unfold makeUniqueNetName.
  destruct (unique_name_loop_total (S (size (nl_nets (netlist r))))
              (findNet (netlist r)) net_name (unique_net_index r)
              (nl_nets (netlist r)))
    as (n & Hn & Hr & Hf & Hb);
    [apply net_name_inj| |apply Nat.lt_succ_diag_r|done|done|].
  - intros j _ Hj. unfold findNet in Hj. by apply bool_decide_eq_true in Hj.
  - exists n. rewrite Hn. simpl. split; [done|]. split; [done|]. split.
    + unfold findNet in Hf. by apply bool_decide_eq_false in Hf.
    + intros j Hj. specialize (Hb j Hj). unfold findNet in Hb.
      by apply bool_decide_eq_true in Hb.
Qed.

Lemma makeUniqueInstName_spec (base : string) (underscore : bool)
    (r : Resizer) :
  int_min ≤ unique_inst_index r →
  unique_inst_index r + Z.of_nat (size (nl_insts (netlist r))) + 1 ≤ int_max →
  ∃ n, makeUniqueInstName base underscore r
       = Some (inst_name base underscore n, set_unique_inst_index (n + 1) r)
       ∧ (unique_inst_index r ≤ n
          ∧ n ≤ unique_inst_index r + Z.of_nat (size (nl_insts (netlist r))))
       ∧ nl_insts (netlist r) !! inst_name base underscore n = None
       ∧ (∀ j, (unique_inst_index r ≤ j ∧ j < n) →
               is_Some (nl_insts (netlist r) !! inst_name base underscore j)).
Proof.
  intros Hlo Hhi. unfold makeUniqueInstName.
  destruct (unique_name_loop_total (S (size (nl_insts (netlist r))))
              (findInstance (netlist r)) (inst_name base underscore)
              (unique_inst_index r) (dom (nl_insts (netlist r))))
    as (n & Hn & Hr & Hf & Hb).
  - apply inst_name_inj.
  - intros j _ Hj. unfold findInstance in Hj.
    apply bool_decide_eq_true in Hj. by apply elem_of_dom.
  - rewrite size_dom. apply Nat.lt_succ_diag_r.
  - done.
  - by rewrite size_dom.
  - rewrite size_dom in Hr. exists n. rewrite Hn. simpl.
    split; [done|]. split; [done|]. split.
    + unfold findInstance in Hf. apply bool_decide_eq_false in Hf.
      by apply eq_None_not_Some.
    + intros j Hj. specialize (Hb j Hj). unfold findInstance in Hb.
      by apply bool_decide_eq_true in Hb.
Qed.

Lemma mint_net_spec (r : Resizer) :
  int_min ≤ unique_net_index r →
  unique_net_index r + Z.of_nat (size (nl_nets (netlist r))) + 1 ≤ int_max →
  ∃ name r1, mint_net r = Some (name, r1)
    ∧ (name ∉ nl_nets (netlist r))
    ∧ nl_nets (netlist r1) = {[name]} ∪ nl_nets (netlist r)
    ∧ (unique_net_index r < unique_net_index r1
       ∧ unique_net_index r1
         ≤ unique_net_index r + Z.of_nat (size (nl_nets (netlist r))) + 1).
Proof.
  intros Hlo Hhi.
  destruct (makeUniqueNetName_spec r Hlo Hhi) as (n & Hn & Hr & Hf & _).
  unfold mint_net. rewrite Hn. simpl.
  eexists _, _. split; [done|]. split; [done|].
  destruct r; simpl in *. split; [done|]. lia.
Qed.

Lemma mint_nets_spec (count : nat) (r : Resizer) :
  int_min ≤ unique_net_index r →
  unique_net_index r
    + Z.of_nat count * (Z.of_nat (size (nl_nets (netlist r)))
                        + Z.of_nat count + 1) ≤ int_max →
  ∃ names r2, mint_nets count r = Some (names, r2)
    ∧ length names = count
    ∧ NoDup names
    ∧ (∀ name, name ∈ names → name ∉ nl_nets (netlist r))
    ∧ nl_nets (netlist r) ⊆ nl_nets (netlist r2)
    ∧ (∀ name, name ∈ names → name ∈ nl_nets (netlist r2)).
Proof.
  revert r. induction count as [|count IH]; intros r Hlo Hhi.
  - exists [], r. simpl. split; [done|]. split; [done|].
    split; [constructor|]. split; [by intros ? ?%elem_of_nil|].
    split; [done|]. by intros ? ?%elem_of_nil.
  - destruct (mint_net_spec r) as (name & r1 & Hm & Hfresh & Hnets & Hi1 & Hi2);
      [done|nia|].
    assert (size (nl_nets (netlist r1)) = S (size (nl_nets (netlist r))))
      as Hsz.
    { rewrite Hnets, size_union, size_singleton; [done|].
      by apply disjoint_singleton_l. }
    destruct (IH r1) as (names & r2 & Hms & Hlen & Hnd & Hfr & Hsub & Hin).
    { lia. }
    { rewrite Hsz. nia. }
    clear IH.
    assert (name ∈ nl_nets (netlist r1)) as Hname.
    { rewrite Hnets. apply elem_of_union_l. by apply elem_of_singleton. }
    assert (nl_nets (netlist r) ⊆ nl_nets (netlist r1)) as Hsub1.
    { rewrite Hnets. apply union_subseteq_r. }
    exists (name :: names), r2. simpl. rewrite Hm. simpl. rewrite Hms. simpl.
    split; [done|]. split; [by rewrite Hlen|]. split.
    { constructor; [|done]. intros Hn%Hfr. by apply Hn. }
    split.
    { intros x [->|Hx]%elem_of_cons; [done|]. intros Hx'.
      apply (Hfr x Hx). by apply Hsub1. }
    split.
    { by etrans. }
    intros x [->|Hx]%elem_of_cons; [|by apply Hin].
    by apply Hsub.
Qed.

Lemma mint_inst_spec `{Design} (cell : LibertyCell) (req : string * bool)
    (r : Resizer) :
  is_Some (findMaster cell) →
  int_min ≤ unique_inst_index r →
  unique_inst_index r + Z.of_nat (size (nl_insts (netlist r))) + 1 ≤ int_max →
  ∃ name r1, mint_inst cell req r = Some (name, r1)
    ∧ (name ∉ dom (nl_insts (netlist r)))
    ∧ dom (nl_insts (netlist r1)) = {[name]} ∪ dom (nl_insts (netlist r))
    ∧ (unique_inst_index r < unique_inst_index r1
       ∧ unique_inst_index r1
         ≤ unique_inst_index r + Z.of_nat (size (nl_insts (netlist r))) + 1).
Proof.
  intros [m Hm] Hlo Hhi.
  destruct (makeUniqueInstName_spec req.1 req.2 r Hlo Hhi)
    as (n & Hn & Hr & Hf & _).
  unfold mint_inst. rewrite Hn. simpl.
  eexists _, _. split; [done|]. split; [by apply not_elem_of_dom|].
  unfold makeInstance. rewrite Hm.
  destruct r; simpl in *. split; [by rewrite dom_insert_L|]. lia.
Qed.

Lemma mint_insts_spec `{Design} (cell : LibertyCell)
    (reqs : list (string * bool)) (r : Resizer) :
  is_Some (findMaster cell) →
  int_min ≤ unique_inst_index r →
  unique_inst_index r
    + Z.of_nat (length reqs) * (Z.of_nat (size (nl_insts (netlist r)))
                                + Z.of_nat (length reqs) + 1) ≤ int_max →
  ∃ names r2, mint_insts cell reqs r = Some (names, r2)
    ∧ length names = length reqs
    ∧ NoDup names
    ∧ (∀ name, name ∈ names → name ∉ dom (nl_insts (netlist r)))
    ∧ dom (nl_insts (netlist r)) ⊆ dom (nl_insts (netlist r2))
    ∧ (∀ name, name ∈ names → name ∈ dom (nl_insts (netlist r2))).
Proof.
  intros Hmaster. revert r.
  induction reqs as [|req reqs IH]; intros r Hlo Hhi.
  - exists [], r. simpl. split; [done|]. split; [done|].
    split; [constructor|]. split; [by intros ? ?%elem_of_nil|].
    split; [done|]. by intros ? ?%elem_of_nil.
  - simpl length in Hhi.
    destruct (mint_inst_spec cell req r)
      as (name & r1 & Hm & Hfresh & Hdom & Hi1 & Hi2); [done|done|nia|].
    assert (size (nl_insts (netlist r1)) = S (size (nl_insts (netlist r))))
      as Hsz.
    { rewrite <- !size_dom, Hdom, size_union, size_singleton; [done|].
      by apply disjoint_singleton_l. }
    destruct (IH r1) as (names & r2 & Hms & Hlen & Hnd & Hfr & Hsub & Hin).
    { lia. }
    { rewrite Hsz. nia. }
    clear IH.
    assert (name ∈ dom (nl_insts (netlist r1))) as Hname.
    { rewrite Hdom. apply elem_of_union_l. by apply elem_of_singleton. }
    assert (dom (nl_insts (netlist r)) ⊆ dom (nl_insts (netlist r1)))
      as Hsub1.
    { rewrite Hdom. apply union_subseteq_r. }
    exists (name :: names), r2. simpl. rewrite Hm. simpl. rewrite Hms. simpl.
    split; [done|]. split; [by rewrite Hlen|]. split.
    { constructor; [|done]. intros Hn%Hfr. by apply Hn. }
    split.
    { intros x [->|Hx]%elem_of_cons; [done|]. intros Hx'.
      apply (Hfr x Hx). by apply Hsub1. }
    split.
    { by etrans. }
    intros x [->|Hx]%elem_of_cons; [|by apply Hin].
    by apply Hsub.
Qed.

(** C4. Every call of [makeUniqueNetName] returns a name ["net{n}"] that
    names no net of the top scope at the moment of return and leaves the
    net counter strictly larger than it found it; [makeUniqueInstName]
    returns ["{base}{n}"] or ["{base}_{n}"] naming no existing instance and
    advances the instance counter likewise.  Hence the names of any
    sequence of mints, each resolved against the netlist when it is minted
    (the net or instance is created before the next mint), are pairwise
    distinct and all new.  The counters are C++ [int]s: the bounds keep
    them away from overflow for the whole sequence. *)
Theorem makeUniqueName_unique `{Design} (r : Resizer) (base : string)
    (underscore : bool) (count : nat) (cell : LibertyCell)
    (reqs : list (string * bool)) :
  int_min ≤ unique_net_index r →
  unique_net_index r
    + (Z.of_nat count + 1) * (Z.of_nat (size (nl_nets (netlist r)))
                              + Z.of_nat count + 1) ≤ int_max →
  int_min ≤ unique_inst_index r →
  unique_inst_index r
    + (Z.of_nat (length reqs) + 1)
      * (Z.of_nat (size (nl_insts (netlist r)))
         + Z.of_nat (length reqs) + 1) ≤ int_max →
  is_Some (findMaster cell) →
  (∃ n r1, makeUniqueNetName r = Some (net_name n, r1)
     ∧ (net_name n ∉ nl_nets (netlist r))
     ∧ unique_net_index r < unique_net_index r1
     ∧ netlist r1 = netlist r)
  ∧ (∃ n r1, makeUniqueInstName base underscore r
             = Some (inst_name base underscore n, r1)
     ∧ nl_insts (netlist r) !! inst_name base underscore n = None
     ∧ unique_inst_index r < unique_inst_index r1
     ∧ netlist r1 = netlist r)
  ∧ (∃ names r2, mint_nets count r = Some (names, r2)
     ∧ length names = count
     ∧ NoDup names
     ∧ (∀ name, name ∈ names → name ∉ nl_nets (netlist r)))
  ∧ (∃ names r2, mint_insts cell reqs r = Some (names, r2)
     ∧ length names = length reqs
     ∧ NoDup names
     ∧ (∀ name, name ∈ names → name ∉ dom (nl_insts (netlist r)))).
Proof.
  intros Hnlo Hnhi Hilo Hihi Hmaster.
  split; [|split; [|split]].
  - destruct (makeUniqueNetName_spec r) as (n & Hn & Hr & Hf & _);
      [done|nia|].
    exists n, (set_unique_net_index (n + 1) r).
    split; [done|]. split; [done|]. destruct r; simpl in *.
    split; [lia|done].
  - destruct (makeUniqueInstName_spec base underscore r)
      as (n & Hn & Hr & Hf & _); [done|nia|].
    exists n, (set_unique_inst_index (n + 1) r).
    split; [done|]. split; [done|]. destruct r; simpl in *.
    split; [lia|done].
  - destruct (mint_nets_spec count r) as (names & r2 & Hm & Hl & Hnd & Hf & _);
      [done|nia|].
    by exists names, r2.
  - destruct (mint_insts_spec cell reqs r)
      as (names & r2 & Hm & Hl & Hnd & Hf & _); [done|done|nia|].
    by exists names, r2.
Qed.

Example mint_nets_example :
  fst <$> mint_nets 3 example_resizer = Some ["net3"; "net4"; "net5"].
Proof. by vm_compute. Qed.

Example mint_insts_example :
  fst <$> mint_insts (H := example_design) "BUF_X1"
            [("input", false); ("U", true); ("input", false)] example_resizer
  = Some ["input2"; "U_3"; "input4"].
Proof. by vm_compute. Qed.

Lemma makeUniqueName_unique_witness :
  let r := example_resizer in
  let reqs := [("input", false); ("U", true)] in
  (int_min ≤ unique_net_index r
   ∧ unique_net_index r
       + (Z.of_nat 3 + 1) * (Z.of_nat (size (nl_nets (netlist r)))
                             + Z.of_nat 3 + 1) ≤ int_max
   ∧ int_min ≤ unique_inst_index r
   ∧ unique_inst_index r
       + (Z.of_nat (length reqs) + 1)
         * (Z.of_nat (size (nl_insts (netlist r)))
            + Z.of_nat (length reqs) + 1) ≤ int_max
   ∧ is_Some (findMaster (Design := example_design) "BUF_X1"))
  ∧ ((∃ n r1, makeUniqueNetName r = Some (net_name n, r1)
        ∧ (net_name n ∉ nl_nets (netlist r))
        ∧ unique_net_index r < unique_net_index r1
        ∧ netlist r1 = netlist r)
     ∧ (∃ n r1, makeUniqueInstName "input" false r
                = Some (inst_name "input" false n, r1)
        ∧ nl_insts (netlist r) !! inst_name "input" false n = None
        ∧ unique_inst_index r < unique_inst_index r1
        ∧ netlist r1 = netlist r)
     ∧ (∃ names r2, mint_nets 3 r = Some (names, r2)
        ∧ length names = 3%nat
        ∧ NoDup names
        ∧ (∀ name, name ∈ names → name ∉ nl_nets (netlist r)))
     ∧ (∃ names r2, mint_insts (H := example_design) "BUF_X1" reqs r
                    = Some (names, r2)
        ∧ length names = length reqs
        ∧ NoDup names
        ∧ (∀ name, name ∈ names → name ∉ dom (nl_insts (netlist r))))).
Proof.
  intros r reqs.
  assert (int_min ≤ unique_net_index r) as H1 by (by vm_compute).
  assert (unique_net_index r
          + (Z.of_nat 3 + 1) * (Z.of_nat (size (nl_nets (netlist r)))
                                + Z.of_nat 3 + 1) ≤ int_max) as H2
    by (by vm_compute).
  assert (int_min ≤ unique_inst_index r) as H3 by (by vm_compute).
  assert (unique_inst_index r
          + (Z.of_nat (length reqs) + 1)
            * (Z.of_nat (size (nl_insts (netlist r)))
               + Z.of_nat (length reqs) + 1) ≤ int_max) as H4
    by (by vm_compute).
  assert (is_Some (findMaster (Design := example_design) "BUF_X1")) as H5
    by (by eexists).
  split; [done|].
  exact (makeUniqueName_unique (H := example_design) r "input" false 3
           "BUF_X1" reqs H1 H2 H3 H4 H5).
Defined.

(** ** Netlist edits *)

Lemma elem_of_net_pins (nl : Netlist) (n : Net) (p : Pin) :
  p ∈ net_pins nl n ↔ pin_net nl p = Some n.
Proof.
  unfold net_pins, pin_net. rewrite list_elem_of_fmap. split.
  - intros ([p' n'] & -> & Hin). simpl.
    apply elem_of_map_to_list in Hin.
    apply map_lookup_filter_Some in Hin as [Hl Hn]. simpl in Hn. by subst.
  - intros Hl. exists (p, n). split; [done|].
    apply elem_of_map_to_list. by apply map_lookup_filter_Some.
Qed.

Lemma NoDup_net_pins (nl : Netlist) (n : Net) : NoDup (net_pins nl n).
Proof. apply NoDup_fst_map_to_list. Qed.

Lemma instance_pin_of_pin (p : Pin) :
  instance_pin (pin_instance p) (pin_port p) = p.
Proof. by destruct p. Qed.

Lemma hasTopLevelPort_false (nl : Netlist) (n : Net) :
  hasTopLevelPort nl n = false ↔
  ∀ p, pin_net nl p = Some n → isTopLevelPort p = false.
Proof.
  unfold hasTopLevelPort. rewrite <- not_true_iff_false, existsb_exists.
  split.
  - intros Hno p Hp. destruct (isTopLevelPort p) eqn:Htop; [|done].
    destruct Hno. exists p. split; [|done].
    apply list_elem_of_In. by apply elem_of_net_pins.
  - intros Hall (p & Hin & Htop). apply list_elem_of_In in Hin.
    apply elem_of_net_pins in Hin. rewrite (Hall p Hin) in Htop. done.
Qed.

(** The pin loops of [removeBuffers] and [bufferInput]: the pins of the
    list other than [keep] end up on [n], nothing else changes, and the
    edits are one disconnect/connect pair per moved pin, in list order. *)
Lemma removeBuffers_pin_fields (keep : Pin) (n : Net) (nl : Netlist)
    (q : Pin) :
  nl_nets (removeBuffers_pin keep n nl q) = nl_nets nl
  ∧ nl_special (removeBuffers_pin keep n nl q) = nl_special nl
  ∧ nl_insts (removeBuffers_pin keep n nl q) = nl_insts nl
  ∧ (∀ p, nl_conn (removeBuffers_pin keep n nl q) !! p
          = if decide (p = q ∧ q ≠ keep) then Some n else nl_conn nl !! p)
  ∧ nl_edits (removeBuffers_pin keep n nl q)
    = nl_edits nl
      ++ (if decide (q ≠ keep) then [EDisconnect q; EConnect q n] else []).
Proof.
  unfold removeBuffers_pin. destruct (decide (q ≠ keep)) as [Hq|Hq].
  - unfold reconnectPin. rewrite instance_pin_of_pin. simpl.
    split; [done|]. split; [done|]. split; [done|]. split.
    + intros p. destruct (decide (p = q)) as [->|Hpq].
      * rewrite lookup_insert_eq. by rewrite decide_True.
      * rewrite lookup_insert_ne, lookup_delete_ne by done.
        rewrite decide_False; [done|]. by intros [? _].
    + by rewrite <- app_assoc.
  - split; [done|]. split; [done|]. split; [done|]. split.
    + intros p. rewrite decide_False; [done|]. by intros [_ ?].
    + by rewrite app_nil_r.
Qed.

(** The pin loops of [removeBuffers] and [bufferInput]: the pins of the
    list other than [keep] end up on [n], nothing else changes, and the
    edits are one disconnect/connect pair per moved pin, in list order. *)
Lemma foldl_removeBuffers_pin (keep : Pin) (n : Net) (l : list Pin)
    (nl : Netlist) :
  nl_nets (foldl (removeBuffers_pin keep n) nl l) = nl_nets nl
  ∧ nl_special (foldl (removeBuffers_pin keep n) nl l) = nl_special nl
  ∧ nl_insts (foldl (removeBuffers_pin keep n) nl l) = nl_insts nl
  ∧ (∀ p, nl_conn (foldl (removeBuffers_pin keep n) nl l) !! p
          = if decide (p ∈ l ∧ p ≠ keep) then Some n else nl_conn nl !! p)
  ∧ nl_edits (foldl (removeBuffers_pin keep n) nl l)
    = nl_edits nl
      ++ flat_map (λ p, [EDisconnect p; EConnect p n])
                  (filter (λ p, p ≠ keep) l).
Proof.
  revert nl. induction l as [|q l IH]; intros nl.
  - split; [done|]. split; [done|]. split; [done|]. split.
    + intros p. rewrite decide_False; [done|].
      intros [Hp%elem_of_nil _]. done.
    + rewrite filter_nil. simpl. by rewrite app_nil_r.
  - cbn [foldl].
    destruct (IH (removeBuffers_pin keep n nl q)) as (Hn & Hs & Hi & Hc & He).
    destruct (removeBuffers_pin_fields keep n nl q)
      as (Hn1 & Hs1 & Hi1 & Hc1 & He1).
    rewrite Hn, Hs, Hi, He, Hn1, Hs1, Hi1, He1. clear IH Hn Hs Hi He.
    split; [done|]. split; [done|]. split; [done|]. split.
    + intros p. rewrite Hc, Hc1. clear Hc Hc1.
      pose proof (elem_of_cons l p q).
      repeat case_decide; try done; exfalso; intuition congruence.
    + rewrite filter_cons. destruct (decide (q ≠ keep)); simpl.
      * by rewrite <- app_assoc.
      * by rewrite app_nil_r.
Qed.

Lemma deleteInstance_deleteNet_fields (inst : Instance) (n : Net)
    (nl : Netlist) :
  nl_nets (deleteInstance inst (deleteNet n nl)) = nl_nets nl ∖ {[n]}
  ∧ nl_insts (deleteInstance inst (deleteNet n nl)) = delete inst (nl_insts nl)
  ∧ (∀ p m, nl_conn nl !! p = Some m → m ≠ n → pin_instance p ≠ Some inst →
            nl_conn (deleteInstance inst (deleteNet n nl)) !! p = Some m)
  ∧ nl_edits (deleteInstance inst (deleteNet n nl))
    = nl_edits nl ++ [EDeleteNet n; EDeleteInstance inst].
Proof.
  unfold deleteInstance, deleteNet. simpl.
  split; [done|]. split; [done|]. split.
  - intros p m Hp Hm Hi. apply map_lookup_filter_Some. split; [|done].
    by apply map_lookup_filter_Some.
  - by rewrite <- app_assoc.
Qed.


Example removeBuffers_example :
  (λ r, (map_to_list (nl_conn (netlist r)), elements (nl_nets (netlist r)),
         messages r))
    <$> removeBuffers (H := example_design)
          (set_netlist example_buffered_netlist example_resizer)
  = Some ([(InstPin "U1" "I", "n1"); (InstPin "U2" "I", "n1");
           (InstPin "U0" "Z", "n1")],
          ["n1"],
          [Printf ("Removed 1 buffers." +:+ newline)]).
Proof. by vm_compute. Qed.


(** ** [bufferInputs] *)





Lemma wf_netlistb_correct (nl : Netlist) :
  wf_netlistb nl = true → wf_netlist nl.
Proof.
  unfold wf_netlistb, wf_netlist, pin_net.
  intros [Hall Hsub%bool_decide_eq_true]%andb_true_iff.
  rewrite forallb_forall in Hall.
  assert (∀ p n, nl_conn nl !! p = Some n →
            n ∈ nl_nets nl
            ∧ match p with
              | InstPin i _ => is_Some (nl_insts nl !! i)
              | TopPin _ => True
              end) as Hall'.
  { intros p n Hp.
    assert (In (p, n) (map_to_list (nl_conn nl))) as Hin.
    { apply list_elem_of_In. by apply elem_of_map_to_list. }
    apply Hall in Hin. simpl in Hin.
    apply andb_true_iff in Hin as [Hn Hi].
    apply bool_decide_eq_true in Hn. split; [done|].
    destruct p; [|done]. by apply bool_decide_eq_true in Hi. }
  split; [|split; [done|]].
  - intros p n Hp. by apply (Hall' p n).
  - intros i q [n Hn]. by apply (Hall' _ _ Hn).
Qed.

Example bufferInputs_example :
  (λ r, (map_to_list (nl_conn (netlist r)), map_to_list (nl_insts (netlist r)),
         inserted_buffer_count r, messages r))
    <$> bufferInputs (H := example_design) (H0 := example_timer) "BUF_X1"
          example_resizer
  = Some ([(TopPin "A", "A"); (InstPin "U1" "I", "net3");
           (InstPin "input2" "A", "A"); (InstPin "input2" "Z", "net3")],
          [("U1", mkInst "AND_X1" (mkPoint 1000 1000) true);
           ("input1", mkInst "BUF_X1" (mkPoint 10 10) true);
           ("input2", mkInst "BUF_X1" (mkPoint 0 700) true)],
          1,
          [Printf ("Inserted 1 input buffers." +:+ newline)]).
Proof. by vm_compute. Qed.


(** ** [tieLocation] *)

Lemma int_sub_dbu (a b : Z) : dbu_range a → dbu_range b → int_sub a b = a - b.
Proof.
  unfold dbu_range, int_sub. intros Ha Hb. apply wrap_in_int.
  unfold in_int, int_min, int_max. lia.
Qed.

Lemma int_add_dbu (a b : Z) : dbu_range a → dbu_range b → int_add a b = a + b.
Proof.
  unfold dbu_range, int_add. intros Ha Hb. apply wrap_in_int.
  unfold in_int, int_min, int_max. lia.
Qed.

Lemma int_abs_sub_dbu (a b : Z) :
  dbu_range a → dbu_range b → int_abs (int_sub a b) = Z.abs (a - b).
Proof.
  intros Ha Hb. rewrite int_sub_dbu by done.
  unfold dbu_range, int_abs in *. apply wrap_in_int.
  unfold in_int, int_min, int_max. lia.
Qed.

Lemma strictly_closest_test_spec (bbox : Rect) (pt : Point) (s : Side) :
  strictly_closest_test bbox pt s = true ↔ strictly_closest bbox pt s.
Proof.
  unfold strictly_closest. split.
  - intros Ht s' Hs'.
    destruct s; simpl in Ht;
      apply andb_true_iff in Ht as [Ht H3];
      apply andb_true_iff in Ht as [H1 H2];
      apply bool_decide_eq_true in H1, H2, H3;
      destruct s'; done.
  - intros Hs.
    destruct s; simpl;
      rewrite !andb_true_iff, !bool_decide_eq_true;
      (split; [split|]); by apply Hs.
Qed.

Lemma strictly_closest_unique (bbox : Rect) (pt : Point) (s s' : Side) :
  strictly_closest bbox pt s → strictly_closest bbox pt s' → s = s'.
Proof.
  intros Hs Hs'. destruct (decide (s = s')) as [|Hne]; [done|exfalso].
  assert (s' ≠ s) as Hne' by done.
  specialize (Hs s' Hne'). specialize (Hs' s Hne). lia.
Qed.

(** C8. For a load pin on an instance, [tieLocation] moves the load
    location by [separation] towards the side of the instance's bounding
    box that is strictly closer to the load location than the three other
    sides; there is at most one such side; when there is none the point
    is the load location itself; and with a core rectangle the point is
    then clamped into the core.  The bounds say that the coordinates and
    the separation are database units far inside the [int] range. *)
Theorem tieLocation_spec `{Design} (r : Resizer) (inst port : string)
    (separation : Z) :
  dbu_range (getX (location (InstPin inst port))) →
  dbu_range (getY (location (InstPin inst port))) →
  dbu_range (xMin (getBBox inst)) →
  dbu_range (xMax (getBBox inst)) →
  dbu_range (yMin (getBBox inst)) →
  dbu_range (yMax (getBBox inst)) →
  dbu_range separation →
  ∃ tie : Point,
    tieLocation r (InstPin inst port) separation
    = (if core_exists r
       then closestPtInRect (core r) (getX tie) (getY tie)
       else tie)
    ∧ (∀ s, strictly_closest (getBBox inst) (location (InstPin inst port)) s →
            tie = offset_towards (location (InstPin inst port)) separation s)
    ∧ ((∀ s, ¬ strictly_closest (getBBox inst)
                 (location (InstPin inst port)) s) →
       tie = location (InstPin inst port))
    ∧ (∀ s s', strictly_closest (getBBox inst)
                 (location (InstPin inst port)) s →
               strictly_closest (getBBox inst)
                 (location (InstPin inst port)) s' →
               s = s').
Proof.
  intros Hx Hy Hx0 Hx1 Hy0 Hy1 Hsep.
  unfold tieLocation. rewrite !int_abs_sub_dbu by done.
  set (loc := location (InstPin inst port)) in *.
  set (bbox := getBBox inst) in *.
  pose proof (strictly_closest_test_spec bbox loc SideLeft) as HL.
  pose proof (strictly_closest_test_spec bbox loc SideRight) as HR.
  pose proof (strictly_closest_test_spec bbox loc SideBottom) as HB.
  pose proof (strictly_closest_test_spec bbox loc SideTop) as HT.
  pose proof (strictly_closest_unique bbox loc) as Huniq.
  unfold strictly_closest_test, side_distance in HL, HR, HB, HT.
  cbv zeta in HL, HR, HB, HT.
  match type of HL with ?c = true ↔ _ => destruct c eqn:EL end;
  match type of HR with ?c = true ↔ _ => destruct c eqn:ER end;
  match type of HB with ?c = true ↔ _ => destruct c eqn:EB end;
  match type of HT with ?c = true ↔ _ => destruct c eqn:ET end;
  repeat match goal with
         | H : true = true ↔ _ |- _ => apply proj1 in H; specialize (H eq_refl)
         | H : false = true ↔ _ |- _ => apply proj2 in H
         end;
  try (exfalso; discriminate (Huniq SideLeft SideRight HL HR));
  try (exfalso; discriminate (Huniq SideLeft SideBottom HL HB));
  try (exfalso; discriminate (Huniq SideLeft SideTop HL HT));
  try (exfalso; discriminate (Huniq SideRight SideBottom HR HB));
  try (exfalso; discriminate (Huniq SideRight SideTop HR HT));
  try (exfalso; discriminate (Huniq SideBottom SideTop HB HT)).
  - (* left *)
    rewrite int_sub_dbu by done.
    exists (offset_towards loc separation SideLeft).
    split; [done|]. split; [|split; [|done]].
    + intros s Hs. by rewrite (Huniq s SideLeft Hs HL).
    + intros Hnone. by destruct (Hnone SideLeft).
  - (* right *)
    rewrite int_add_dbu by done.
    exists (offset_towards loc separation SideRight).
    split; [done|]. split; [|split; [|done]].
    + intros s Hs. by rewrite (Huniq s SideRight Hs HR).
    + intros Hnone. by destruct (Hnone SideRight).
  - (* bottom *)
    rewrite int_sub_dbu by done.
    exists (offset_towards loc separation SideBottom).
    split; [done|]. split; [|split; [|done]].
    + intros s Hs. by rewrite (Huniq s SideBottom Hs HB).
    + intros Hnone. by destruct (Hnone SideBottom).
  - (* top *)
    rewrite int_add_dbu by done.
    exists (offset_towards loc separation SideTop).
    split; [done|]. split; [|split; [|done]].
    + intros s Hs. by rewrite (Huniq s SideTop Hs HT).
    + intros Hnone. by destruct (Hnone SideTop).
  - (* no side is strictly closest *)
    exists loc. split; [by destruct loc|]. split; [|split; [done|done]].
    intros s Hs. exfalso.
    destruct s; [apply HL in Hs|apply HR in Hs|apply HB in Hs|apply HT in Hs];
      discriminate.
Qed.

Example tieLocation_example :
  tieLocation (H := example_design) example_resizer (InstPin "U1" "I") 10
  = mkPoint 990 1000.
Proof. by vm_compute. Qed.

Lemma tieLocation_spec_witness :
  let D := example_design in
  let r := example_resizer in
  let load := InstPin "U1" "I" in
  (dbu_range (getX (location load))
   ∧ dbu_range (getY (location load))
   ∧ dbu_range (xMin (getBBox "U1"))
   ∧ dbu_range (xMax (getBBox "U1"))
   ∧ dbu_range (yMin (getBBox "U1"))
   ∧ dbu_range (yMax (getBBox "U1"))
   ∧ dbu_range 10)
  ∧ ∃ tie : Point,
      tieLocation r load 10
      = (if core_exists r
         then closestPtInRect (core r) (getX tie) (getY tie)
         else tie)
      ∧ (∀ s, strictly_closest (getBBox "U1") (location load) s →
              tie = offset_towards (location load) 10 s)
      ∧ ((∀ s, ¬ strictly_closest (getBBox "U1") (location load) s) →
         tie = location load)
      ∧ (∀ s s', strictly_closest (getBBox "U1") (location load) s →
                 strictly_closest (getBBox "U1") (location load) s' →
                 s = s').
Proof.
  intros D r load.
  assert (dbu_range (getX (location load))) as H1 by (by vm_compute).
  assert (dbu_range (getY (location load))) as H2 by (by vm_compute).
  assert (dbu_range (xMin (getBBox "U1"))) as H3 by (by vm_compute).
  assert (dbu_range (xMax (getBBox "U1"))) as H4 by (by vm_compute).
  assert (dbu_range (yMin (getBBox "U1"))) as H5 by (by vm_compute).
  assert (dbu_range (yMax (getBBox "U1"))) as H6 by (by vm_compute).
  assert (dbu_range 10) as H7 by (by vm_compute).
  split; [done|].
  exact (tieLocation_spec (H := D) r "U1" "I" 10 H1 H2 H3 H4 H5 H6 H7).
Defined.

(** ** Gate sizer *)




(** The estimator only touches the parasitics the TIMER holds. *)
Lemma set_parasitics_twice (ps ps' : gmap Net Parasitic) (r : Resizer) :
  set_parasitics ps (set_parasitics ps' r) = set_parasitics ps r.
Proof. by destruct r. Qed.

Lemma set_parasitics_same (r : Resizer) : set_parasitics (parasitics r) r = r.
Proof. by destruct r. Qed.

Lemma estimateWireParasitic_frame `{Design} `{Timer} `{Steiner} (net : Net)
    (r : Resizer) :
  ∃ ps, estimateWireParasitic net r = set_parasitics ps r.
Proof.
  unfold estimateWireParasitic.
  destruct (negb (hasTopLevelPort (netlist r) net)).
  - destruct (makeSteinerTree (netlist r) net); [by eexists|].
    exists (parasitics r). by rewrite set_parasitics_same.
  - exists (parasitics r). by rewrite set_parasitics_same.
Qed.

Lemma ensureWireParasitic_frame `{Design} `{Timer} `{Steiner}
    (drvr_pin : Pin) (r : Resizer) :
  ∃ ps, ensureWireParasitic drvr_pin r = set_parasitics ps r.
Proof.
  unfold ensureWireParasitic.
  destruct (have_estimated_parasitics r);
    [|exists (parasitics r); by rewrite set_parasitics_same].
  destruct (pin_net (netlist r) drvr_pin) as [net|];
    [|exists (parasitics r); by rewrite set_parasitics_same].
  destruct (parasitics r !! net);
    [exists (parasitics r); by rewrite set_parasitics_same|].
  apply estimateWireParasitic_frame.
Qed.

Lemma ensureWireParasitics_frame `{Design} `{Timer} `{Steiner}
    (r : Resizer) :
  ∃ ps, ensureWireParasitics r = set_parasitics ps r.
Proof.
  unfold ensureWireParasitics.
  destruct (have_estimated_parasitics r);
    [|exists (parasitics r); by rewrite set_parasitics_same].
  generalize (elements (nl_nets (netlist r))) as nets. intros nets.
  assert (∀ r0, (∃ ps, r0 = set_parasitics ps r) →
            ∃ ps, foldl (λ r net,
                     if negb (isPower net) && negb (isGround net) then
                       match drivers (netlist r) net with
                       | drvr_pin :: _ => ensureWireParasitic drvr_pin r
                       | [] => r
                       end
                     else r) r0 nets = set_parasitics ps r) as Hfold.
  { induction nets as [|net nets IH]; intros r0 Hr0; [done|].
    cbn [foldl]. apply IH. destruct Hr0 as [ps ->].
    destruct (negb (isPower net) && negb (isGround net)); [|by eexists].
    destruct (drivers (netlist (set_parasitics ps r)) net) as [|d ?];
      [by eexists|].
    destruct (ensureWireParasitic_frame d (set_parasitics ps r)) as [ps' ->].
    exists ps'. apply set_parasitics_twice. }
  apply Hfold. exists (parasitics r). by rewrite set_parasitics_same.
Qed.

Lemma delete_instance_parasitics_frame (inst : Instance) (r : Resizer) :
  ∃ ps, delete_instance_parasitics inst r = set_parasitics ps r.
Proof.
  unfold delete_instance_parasitics.
  generalize (instance_pins (netlist r) inst) as pins. intros pins.
  assert (∀ r0, (∃ ps, r0 = set_parasitics ps r) →
            ∃ ps, foldl (λ r pin,
                     match pin_net (netlist r) pin with
                     | Some net => set_parasitics (delete net (parasitics r)) r
                     | None => r
                     end) r0 pins = set_parasitics ps r) as Hfold.
  { induction pins as [|pin pins IH]; intros r0 Hr0; [done|].
    cbn [foldl]. apply IH. destruct Hr0 as [ps ->].
    destruct (pin_net (netlist (set_parasitics ps r)) pin); [|by eexists].
    eexists. apply set_parasitics_twice. }
  apply Hfold. exists (parasitics r). by rewrite set_parasitics_same.
Qed.



Example resizeToTargetSlew_pin_example :
  inst_master
    <$> nl_insts (netlist (resizeToTargetSlew_pin (H := example_design)
                             (H0 := example_timer) (H1 := example_steiner)
                             (InstPin "ff1" "QN") example_sizer)) !! "ff1"
  = Some "DFF_X2".
Proof. by vm_compute. Qed.


(** Resizing one driver neither changes the area budget nor says
    anything. *)
Lemma resizeToTargetSlew_pin_frame `{Design} `{Timer} `{Steiner}
    (drvr_pin : Pin) (r : Resizer) :
  max_area (resizeToTargetSlew_pin drvr_pin r) = max_area r
  ∧ messages (resizeToTargetSlew_pin drvr_pin r) = messages r.
Proof.
  unfold resizeToTargetSlew_pin.
  destruct (pin_instance drvr_pin) as [inst|]; [|done].
  destruct (nl_insts (netlist r) !! inst) as [dinst|]; [|done].
  destruct (hasLibertyCell (inst_master dinst)); [|done].
  destruct (equivCells (inst_master dinst)) as [equiv_cells|]; [|done].
  cbv zeta.
  repeat match goal with
         | |- context [ensureWireParasitic ?p ?x] =>
             destruct (ensureWireParasitic_frame p x) as [? ->]
         end.
  destruct (hasMultipleOutputs (netlist r) inst).
  - repeat case_match;
      repeat match goal with
             | |- context [delete_instance_parasitics ?i ?x] =>
                 destruct (delete_instance_parasitics_frame i x) as [? ->]
             end;
      by destruct r.
  - repeat case_match;
      repeat match goal with
             | |- context [delete_instance_parasitics ?i ?x] =>
                 destruct (delete_instance_parasitics_frame i x) as [? ->]
             end;
      by destruct r.
Qed.

(** ** Hold repair *)

Lemma float_min_INF (d : Qc) : float_min INF (Finite d) = Finite d.
Proof. done. Qed.

Lemma float_min_Finite (d e : Qc) :
  float_min (Finite d) (Finite e) = Finite (if Qc_ltb e d then e else d).
Proof. unfold float_min, float_lt, Qc_ltb. by case_bool_decide. Qed.

(** After any number of out edges, the block's own [buffer_delay] is
    still [INF] with no load kept, or a positive finite delay. *)
Lemma repairHoldPass_edges_delay `{Timer} (nl : Netlist) (allow : bool)
    (fanouts : list Pin) (acc : float * list Pin) :
  (acc.1 = INF ∧ acc.2 = []) ∨ (∃ d, acc.1 = Finite d ∧ (0 < d)%Qc) →
  ((foldl (repairHoldPass_edge nl allow) acc fanouts).1 = INF
   ∧ (foldl (repairHoldPass_edge nl allow) acc fanouts).2 = [])
  ∨ (∃ d, (foldl (repairHoldPass_edge nl allow) acc fanouts).1 = Finite d
          ∧ (0 < d)%Qc).
Proof.
  revert acc. induction fanouts as [|f fanouts IH]; intros acc Hacc; [done|].
  cbn [foldl]. apply IH. clear IH.
  unfold repairHoldPass_edge. destruct acc as [bd loads]. simpl in *.
  destruct (Qc_ltb (holdSlack (vertexSlacks nl f)) 0); [|done].
  match goal with |- context [Qc_ltb 0 ?d] => destruct (Qc_ltb 0 d) eqn:Hd end;
    [|done].
  apply bool_decide_eq_true in Hd. right. simpl.
  destruct Hacc as [[-> _]|(d & -> & Hpos)].
  - eexists. split; [apply float_min_INF|done].
  - eexists. split; [apply float_min_Finite|]. by destruct (Qc_ltb _ d).
Qed.

Lemma ceil_int_self (d : Qc) : (0 < d)%Qc → ceil_int (d / d)%Qc = 1.
Proof.
  intros Hd. unfold Qcdiv. rewrite Qcmult_inv_r.
  - done.
  - intros Hz. by apply Qclt_not_eq in Hd.
Qed.

(** C1, what the code does: whatever self delay [repairHoldPass] is
    given, whenever the block for a fanin keeps at least one load, the
    number of buffers it hands to [makeHoldDelay] is
    [ceil(buffer_delay / buffer_delay)] of its own minimum, that is 1, and
    not [ceil(D / buffer_self_delay)]. *)
Theorem repairHoldPass_vertex_one_buffer `{Timer} (nl : Netlist)
    (vertex : Pin) (buffer_delay : Qc) (allow_setup_violations : bool)
    (buffer_count : Z) (load_pins : list Pin) :
  repairHoldPass_vertex nl vertex buffer_delay allow_setup_violations
  = Some (Some (buffer_count, load_pins)) →
  buffer_count = 1.
Proof.
  unfold repairHoldPass_vertex.
  pose proof (repairHoldPass_edges_delay nl allow_setup_violations
                (vertexOutEdges nl vertex) (INF, [])) as Hinv.
  destruct (foldl (repairHoldPass_edge nl allow_setup_violations) (INF, [])
                  (vertexOutEdges nl vertex)) as [bd loads].
  simpl in Hinv. destruct loads as [|l loads]; [done|].
  destruct Hinv as [[_ ?]|(d & -> & Hd)]; [by left|done|].
  simpl. rewrite ceil_int_self by done. by intros [= <- _].
Qed.

(** Scenario S5 run through [repairHoldPass]: the smallest positive delay
    is 3 self delays, the spec asks for 3 buffers, the pass inserts 1. *)
Example repairHoldPass_S5 :
  let r := example_hold in
  let run := repairHoldPass (H := example_design) (H0 := example_hold_timer)
               (H1 := example_steiner) [InstPin "FF" "D"] "BUF_X1"
               (bufferSelfDelay (Timer := example_hold_timer) "BUF_X1")
               false r in
  holdSlack (vertexSlacks (Timer := example_hold_timer) (netlist r)
                          (InstPin "FF" "D")) = Qc_of_Z (-3)
  ∧ setupSlack (vertexSlacks (Timer := example_hold_timer) (netlist r)
                             (InstPin "FF" "D")) = Qc_of_Z 10
  ∧ spec_hold_buffer_count (Qc_of_Z 3)
      (bufferSelfDelay (Timer := example_hold_timer) "BUF_X1") = 3
  ∧ repairHoldPass_vertex (H := example_hold_timer) (netlist r)
      (InstPin "U0" "Z")
      (bufferSelfDelay (Timer := example_hold_timer) "BUF_X1") false
    = Some (Some (1, [InstPin "FF" "D"]))
  ∧ fst <$> run = Some 1
  ∧ (inserted_buffer_count ∘ snd) <$> run = Some 1
  ∧ (λ x, size (nl_insts (netlist x.2))) <$> run = Some 3%nat.
Proof. by vm_compute. Qed.

Lemma repairHoldPass_vertex_one_buffer_witness :
  repairHoldPass_vertex (H := example_hold_timer) example_hold_netlist
    (InstPin "U0" "Z") 1%Qc false
  = Some (Some (1, [InstPin "FF" "D"]))
  ∧ 1 = 1.
Proof.
  assert (repairHoldPass_vertex (H := example_hold_timer)
            example_hold_netlist (InstPin "U0" "Z") 1%Qc false
          = Some (Some (1, [InstPin "FF" "D"]))) as H1 by (by vm_compute).
  split; [exact H1|].
  exact (repairHoldPass_vertex_one_buffer (H := example_hold_timer)
           example_hold_netlist (InstPin "U0" "Z") 1%Qc false 1
           [InstPin "FF" "D"] H1).
Defined.

(** ** Area budget *)

Lemma budget_view_set_parasitics ps r :
  budget_view (set_parasitics ps r) = budget_view r.
Proof. by destruct r. Qed.

Lemma budget_view_set_netlist nl r :
  budget_view (set_netlist nl r) = budget_view r.
Proof. by destruct r. Qed.

Lemma budget_view_edit f r : budget_view (edit f r) = budget_view r.
Proof. by destruct r. Qed.

Lemma budget_view_set_design_area a r :
  budget_view (set_design_area a r) = budget_view r.
Proof. by destruct r. Qed.

Lemma budget_view_set_inserted_buffer_count n r :
  budget_view (set_inserted_buffer_count n r) = budget_view r.
Proof. by destruct r. Qed.

Lemma budget_view_set_unique_net_index n r :
  budget_view (set_unique_net_index n r) = budget_view r.
Proof. by destruct r. Qed.

Lemma budget_view_set_unique_inst_index n r :
  budget_view (set_unique_inst_index n r) = budget_view r.
Proof. by destruct r. Qed.

Lemma budget_view_set_resize_count n r :
  budget_view (set_resize_count n r) = budget_view r.
Proof. by destruct r. Qed.

Lemma budget_view_set_resized_multi_output_insts x r :
  budget_view (set_resized_multi_output_insts x r) = budget_view r.
Proof. by destruct r. Qed.

Create Rewrite HintDb budget.
#[global] Hint Rewrite budget_view_set_parasitics budget_view_set_netlist
  budget_view_edit budget_view_set_design_area
  budget_view_set_inserted_buffer_count budget_view_set_unique_net_index
  budget_view_set_unique_inst_index budget_view_set_resize_count
  budget_view_set_resized_multi_output_insts : budget.

Lemma budget_view_resizeToTargetSlew_pin `{Design} `{Timer} `{Steiner}
    (drvr_pin : Pin) (r : Resizer) :
  budget_view (resizeToTargetSlew_pin drvr_pin r) = budget_view r.
Proof.
  unfold budget_view.
  by destruct (resizeToTargetSlew_pin_frame drvr_pin r) as [-> ->].
Qed.

Lemma budget_view_resize_step `{Design} `{Timer} `{Steiner} (r : Resizer)
    (drvr : Pin) :
  budget_view (resize_step r drvr) = budget_view r.
Proof.
  unfold resize_step. destruct (resize_eligible (netlist r) drvr); [|done].
  apply budget_view_resizeToTargetSlew_pin.
Qed.

Lemma budget_view_resize_steps `{Design} `{Timer} `{Steiner}
    (drvrs : list Pin) (r : Resizer) :
  budget_view (foldl resize_step r drvrs) = budget_view r.
Proof.
  revert r. induction drvrs as [|d drvrs IH]; intros r; [done|].
  cbn [foldl]. by rewrite IH, budget_view_resize_step.
Qed.

Lemma overMaxArea_zero `{Timer} (r : Resizer) :
  max_area r = 0%Qc → overMaxArea r = false.
Proof. unfold overMaxArea. intros ->. done. Qed.

(** While no driver brings the design over budget the loop is the plain
    sequence of resizes. *)
Lemma resizeToTargetSlew_loop_within_budget `{Design} `{Timer} `{Steiner}
    (drvrs : list Pin) (r : Resizer) :
  resize_within_budget drvrs r = true →
  resizeToTargetSlew_loop drvrs r = foldl resize_step r drvrs.
Proof.
  revert r. induction drvrs as [|d drvrs IH]; intros r Hok; [done|].
  simpl in Hok. apply andb_true_iff in Hok as [Hd Hrest].
  cbn [resizeToTargetSlew_loop foldl]. unfold resize_step in *.
  destruct (resize_eligible (netlist r) d); simpl in Hd.
  - apply negb_true_iff in Hd. rewrite Hd. by apply IH.
  - by apply IH.
Qed.


Lemma makeUniqueNetName_budget (r r' : Resizer) (name : string) :
  makeUniqueNetName r = Some (name, r') → budget_view r' = budget_view r.
Proof.
  unfold makeUniqueNetName.
  destruct (unique_name_loop _ _ _ _) as [[? ?]|]; [|done]. simpl.
  intros [= _ <-]. by autorewrite with budget.
Qed.

Lemma makeUniqueInstName_budget (base : string) (underscore : bool)
    (r r' : Resizer) (name : string) :
  makeUniqueInstName base underscore r = Some (name, r') →
  budget_view r' = budget_view r.
Proof.
  unfold makeUniqueInstName.
  destruct (unique_name_loop _ _ _ _) as [[? ?]|]; [|done]. simpl.
  intros [= _ <-]. by autorewrite with budget.
Qed.

Lemma makeHoldDelay_buffers_budget `{Design} (count : nat) (i : Z)
    (drvr_loc : Point) (dx dy : Z) (buffer_cell : LibertyCell) (in_net : Net)
    (out_net out_net' : option Net) (r r' : Resizer) :
  makeHoldDelay_buffers count i drvr_loc dx dy buffer_cell in_net out_net r
  = Some (r', out_net') →
  budget_view r' = budget_view r.
Proof.
  revert i in_net out_net r.
  induction count as [|count IH]; intros i in_net out_net r; simpl.
  - by intros [= <- _].
  - destruct (makeUniqueNetName r) as [[n1 r1]|] eqn:E1; [|done]. simpl.
    destruct (makeUniqueInstName "hold" false (edit (makeNet n1) r1))
      as [[n2 r2]|] eqn:E2; [|done]. simpl.
    unfold makeInstance. destruct (findMaster buffer_cell); [|done]. simpl.
    destruct (bufferPorts buffer_cell) as [input output].
    intros Hrec. apply IH in Hrec. rewrite Hrec.
    autorewrite with budget.
    rewrite (makeUniqueInstName_budget _ _ _ _ _ E2).
    autorewrite with budget.
    by rewrite (makeUniqueNetName_budget _ _ _ E1).
Qed.

Lemma budget_view_estimateWireParasitic `{Design} `{Timer} `{Steiner}
    (net : Net) (r : Resizer) :
  budget_view (estimateWireParasitic net r) = budget_view r.
Proof.
  destruct (estimateWireParasitic_frame net r) as [ps ->].
  by autorewrite with budget.
Qed.

Lemma makeHoldDelay_budget `{Design} `{Timer} `{Steiner} (drvr_pin : Pin)
    (buffer_count : Z) (load_pins : list Pin) (buffer_cell : LibertyCell)
    (r r' : Resizer) :
  makeHoldDelay drvr_pin buffer_count load_pins buffer_cell r = Some r' →
  budget_view r' = budget_view r.
Proof.
  unfold makeHoldDelay.
  destruct (pin_net (netlist r) drvr_pin) as [drvr_net|]; [|done]. simpl.
  destruct (makeHoldDelay_buffers _ _ _ _ _ _ _ _ _) as [[r1 out]|] eqn:E;
    [|done]. simpl.
  destruct out as [out_net|]; [|done]. simpl.
  apply makeHoldDelay_buffers_budget in E.
  destruct (have_estimated_parasitics _); intros [= <-].
  - rewrite !budget_view_estimateWireParasitic. by autorewrite with budget.
  - by autorewrite with budget.
Qed.

(** Without an area budget the hold pass says nothing. *)
Lemma repairHoldPass_loop_budget `{Design} `{Timer} `{Steiner}
    (sorted_fanins : list Pin) (repair_count max_repair_count : Z)
    (buffer_cell : LibertyCell) (buffer_delay : Qc) (allow : bool)
    (r r' : Resizer) (n : Z) :
  max_area r = 0%Qc →
  repairHoldPass_loop sorted_fanins repair_count max_repair_count buffer_cell
                      buffer_delay allow r = Some (n, r') →
  budget_view r' = budget_view r.
Proof.
  revert repair_count r.
  induction sorted_fanins as [|v fanins IH]; intros repair_count r Hzero;
    simpl.
  - by intros [= _ <-].
  - case_bool_decide; [|by intros [= _ <-]].
    destruct (Qc_ltb (vertexSlack_min (netlist r) v) 0); [|by apply IH].
    destruct (pin_net (netlist r) v) as [net|]; [|done]. simpl.
    destruct (negb (isSpecial (netlist r) net)); [|by apply IH].
    destruct (repairHoldPass_vertex (netlist r) v buffer_delay allow)
      as [[[buffer_count load_pins]|]|]; simpl; [| by apply IH | done].
    destruct (makeHoldDelay v buffer_count load_pins buffer_cell r)
      as [r1|] eqn:E; [|done]. simpl.
    apply makeHoldDelay_budget in E.
    assert (max_area r1 = 0%Qc) as Hzero1.
    { unfold budget_view in E. by injection E as -> _. }
    rewrite (overMaxArea_zero r1 Hzero1).
    intros Hrec. apply IH in Hrec; [|done]. by rewrite Hrec.
Qed.

Lemma resize_within_budget_zero `{Design} `{Timer} `{Steiner}
    (drvrs : list Pin) (r : Resizer) :
  max_area r = 0%Qc → resize_within_budget drvrs r = true.
Proof.
  revert r. induction drvrs as [|d drvrs IH]; intros r Hzero; [done|].
  simpl.
  assert (max_area (resize_step r d) = 0%Qc) as Hzero1.
  { pose proof (budget_view_resize_step r d) as E. unfold budget_view in E.
    by injection E as -> _. }
  rewrite (overMaxArea_zero _ Hzero1), IH by done.
  by rewrite orb_true_r.
Qed.

Lemma messages_resizeToTargetSlew `{Design} `{Timer} `{Steiner}
    (r : Resizer) :
  ∃ r1, messages (resizeToTargetSlew r)
        = messages
            (resizeToTargetSlew_loop (rev (level_drvr_verticies r))
               (set_resized_multi_output_insts ∅ (set_resize_count 0 r)))
          ++ [Printf ("Resized " +:+ pretty (resize_count r1)
                      +:+ " instances." +:+ newline)]
        ∧ netlist (resizeToTargetSlew r)
          = netlist
              (resizeToTargetSlew_loop (rev (level_drvr_verticies r))
                 (set_resized_multi_output_insts ∅ (set_resize_count 0 r)))
        ∧ design_area (resizeToTargetSlew r)
          = design_area
              (resizeToTargetSlew_loop (rev (level_drvr_verticies r))
                 (set_resized_multi_output_insts ∅ (set_resize_count 0 r))).
Proof.
  unfold resizeToTargetSlew.
  assert (level_drvr_verticies
            (set_resized_multi_output_insts ∅ (set_resize_count 0 r))
          = level_drvr_verticies r) as -> by by destruct r.
  destruct (ensureWireParasitics_frame
              (resizeToTargetSlew_loop (rev (level_drvr_verticies r))
                 (set_resized_multi_output_insts ∅ (set_resize_count 0 r))))
    as [ps ->].
  eexists. split.
  - unfold printf.
    match goal with
    | |- messages (set_messages ?m ?x) = _ =>
        assert (messages (set_messages m x) = m) as -> by by destruct x
    end.
    f_equal. by destruct (resizeToTargetSlew_loop _ _).
  - split; unfold printf; by destruct (resizeToTargetSlew_loop _ _).
Qed.

(** C10. With [max_area] 0, the value the constructor gives it and only
    [setMaxUtilization] changes, [overMaxArea] is false whatever the
    design area; the driver loop of [resizeToTargetSlew] then is the
    plain sequence of resizes and the pass logs its summary line only;
    and a hold-repair pass that returns has logged nothing. *)
Theorem overMaxArea_without_budget `{Design} `{Timer} `{Steiner}
    (r : Resizer) (area' : Qc) (drvrs hold_failures : list Pin)
    (buffer_cell : LibertyCell) (buffer_delay : Qc) (allow : bool) :
  max_area r = 0%Qc →
  overMaxArea (set_design_area area' r) = false
  ∧ resizeToTargetSlew_loop drvrs r = foldl resize_step r drvrs
  ∧ (∃ text, messages (resizeToTargetSlew r) = messages r ++ [Printf text])
  ∧ (∀ n r', repairHoldPass hold_failures buffer_cell buffer_delay allow r
             = Some (n, r') →
             messages r' = messages r).
Proof.
  intros Hzero. split; [|split; [|split]].
  - apply overMaxArea_zero. by destruct r.
  - apply resizeToTargetSlew_loop_within_budget.
    by apply resize_within_budget_zero.
  - destruct (messages_resizeToTargetSlew r) as (r1 & -> & _ & _).
    eexists. f_equal.
    rewrite resizeToTargetSlew_loop_within_budget.
    2:{ apply resize_within_budget_zero. by destruct r. }
    pose proof (budget_view_resize_steps (rev (level_drvr_verticies r))
                  (set_resized_multi_output_insts ∅ (set_resize_count 0 r)))
      as E.
    autorewrite with budget in E. unfold budget_view in E.
    by injection E as _ ->.
  - intros n r' Hrun. unfold repairHoldPass in Hrun.
    apply repairHoldPass_loop_budget in Hrun; [|done].
    unfold budget_view in Hrun. by injection Hrun as _ ->.
Qed.

Example resizeToTargetSlew_without_budget :
  let r := set_design_area (Qc_of_Z 5) example_sizer in
  let r' := resizeToTargetSlew (H := example_design) (H0 := example_timer)
              (H1 := example_steiner) r in
  max_area r = 0%Qc
  ∧ fuzzyGreaterEqual (Timer := example_timer) (design_area r) (max_area r)
    = true
  ∧ messages r' = [Printf ("Resized 2 instances." +:+ newline)]
  ∧ nl_edits (netlist r')
    = [EReplaceCell "ff1" "DFF_X2"; EReplaceCell "b2" "BUF_X1"].
Proof. by vm_compute. Qed.

Lemma overMaxArea_without_budget_witness :
  let D := example_design in
  let T := example_timer in
  let S := example_steiner in
  let r := set_design_area (Qc_of_Z 5) example_sizer in
  let drvrs := [InstPin "ff1" "QN"; InstPin "b2" "Z"] in
  max_area r = 0%Qc
  ∧ (overMaxArea (set_design_area (Qc_of_Z 7) r) = false
     ∧ resizeToTargetSlew_loop drvrs r = foldl resize_step r drvrs
     ∧ (∃ text, messages (resizeToTargetSlew r) = messages r ++ [Printf text])
     ∧ (∀ n r', repairHoldPass [InstPin "U1" "I"] "BUF_X1" 1%Qc false r
                = Some (n, r') →
                messages r' = messages r)).
Proof.
  intros D T S r drvrs.
  assert (max_area r = 0%Qc) as H1 by (by vm_compute).
  split; [exact H1|].
  exact (overMaxArea_without_budget (H := D) (H0 := T) (H1 := S) r
           (Qc_of_Z 7) drvrs [InstPin "U1" "I"] "BUF_X1" 1%Qc false H1).
Defined.




(** ** Target loads *)

Lemma foldl_option_None {A B} (f : A → B → option A) (l : list B) :
  foldl (λ st x, a ← st; f a x) None l = None.
Proof. by induction l. Qed.

Lemma target_load_map_set (m : gmap LibertyCell float) (r : Resizer) :
  target_load_map (set_target_load_map m r) = m.
Proof. by destruct r. Qed.

Lemma tgt_slews_set_target_load_map (m : gmap LibertyCell float)
    (r : Resizer) :
  tgt_slews (set_target_load_map m r) = tgt_slews r.
Proof. by destruct r. Qed.

(** One library: each of its cells ends with the value of its last visit,
    the other entries and the target slews stay. *)
Lemma findTargetLoads_library_entries `{Liberty} (fuel : nat)
    (slews : Qc * Qc) (cells : list LibertyCell) (r r' : Resizer) :
  foldl (λ st cell, r ← st; findTargetLoad fuel slews r cell) (Some r) cells
  = Some r' →
  (∀ c, c ∈ cells →
        ∃ v, findTargetLoad_value fuel c slews = Some v
             ∧ target_load_map r' !! c = Some v)
  ∧ (∀ c, c ∉ cells → target_load_map r' !! c = target_load_map r !! c)
  ∧ tgt_slews r' = tgt_slews r.
Proof.
  revert r. induction cells as [|c cells IH]; intros r.
  - simpl. intros [= <-]. split; [by intros ? ?%elem_of_nil|]. done.
  - cbn [foldl]. simpl.
    destruct (findTargetLoad fuel slews r c) as [r1|] eqn:E.
    2:{ by rewrite foldl_option_None. }
    intros Hrest. apply IH in Hrest as (Hin & Hout & Hsl).
    unfold findTargetLoad in E.
    destruct (findTargetLoad_value fuel c slews) as [v|] eqn:Ev; [|done].
    simpl in E. injection E as <-.
    rewrite tgt_slews_set_target_load_map in Hsl.
    split; [|split; [|done]].
    + intros c' Hc'. apply elem_of_cons in Hc' as [Heq|Hc'];
        [subst c'|by apply Hin].
      destruct (decide (c ∈ cells)) as [Hc|Hc]; [by apply Hin|].
      exists v. split; [done|]. rewrite Hout by done.
      by rewrite target_load_map_set, lookup_insert_eq.
    + intros c' Hc'. apply not_elem_of_cons in Hc' as [Hne Hc'].
      rewrite Hout by done. rewrite target_load_map_set.
      by rewrite lookup_insert_ne.
Qed.


Lemma findTargetLoads_libraries_slews `{Liberty} (fuel : nat)
    (libs : list LibertyLibrary) (r r' : Resizer) :
  foldl (λ st lib, r ← st;
                   findTargetLoads_library fuel (tgt_slews r) r lib)
        (Some r) libs = Some r' →
  tgt_slews r' = tgt_slews r.
Proof.
  revert r. induction libs as [|l libs IH]; intros r Hrest.
  - by injection Hrest as ->.
  - cbn [foldl] in Hrest. simpl in Hrest.
    destruct (findTargetLoads_library fuel (tgt_slews r) r l) as [r1|]
      eqn:E.
    2:{ by rewrite foldl_option_None in Hrest. }
    apply findTargetLoads_library_entries in E as (_ & _ & Hsl).
    by rewrite (IH r1 Hrest).
Qed.
















(** ** Wire parasitics *)

Lemma estimateWireParasitic_network_flat_map `{Design} `{Timer} (r : Resizer)
    (tree : SteinerTree) (net : Net) :
  estimateWireParasitic_network r tree net
  = flat_map (estimateWireParasitic_branch r tree net (negb (isClockNet net)))
             (branches tree).
Proof.
  unfold estimateWireParasitic_network.
  transitivity
    ([] ++ flat_map (estimateWireParasitic_branch r tree net
                       (negb (isClockNet net))) (branches tree)); [|done].
  generalize (@nil ParasiticElem).
  induction (branches tree) as [|b bs IH]; intros acc.
  - simpl. by rewrite app_nil_r.
  - cbn [foldl flat_map]. rewrite IH. by rewrite app_assoc.
Qed.

(** C2, what the code does.  For a net without top-level port,
    [estimateWireParasitic] gives every Steiner branch of nonzero length
    between two different nodes a pi-model: half the wire capacitance on
    each end and the wire resistance in between.  The constants per unit length are the signal
    ones ([wire_res], [wire_cap]) when the TIMER reports the net as a
    clock net, and the clock ones ([wire_clk_res], [wire_clk_cap]) when it
    does not: the flag [is_clk] holds the negation of [isClock(net)]. *)
Theorem estimateWireParasitic_rc `{Design} `{Timer} `{Steiner} (r : Resizer)
    (net : Net) (tree : SteinerTree) (b : Branch) :
  hasTopLevelPort (netlist r) net = false →
  makeSteinerTree (netlist r) net = Some tree →
  b ∈ branches tree →
  wire_length_dbu b ≠ 0 →
  findParasiticNode tree net (pin1 b) (steiner_pt1 b)
  ≠ findParasiticNode tree net (pin2 b) (steiner_pt2 b) →
  let n1 := findParasiticNode tree net (pin1 b) (steiner_pt1 b) in
  let n2 := findParasiticNode tree net (pin2 b) (steiner_pt2 b) in
  let wire_length := dbuToMeters (wire_length_dbu b) in
  let res := if isClockNet net then wire_res r else wire_clk_res r in
  let cap := if isClockNet net then wire_cap r else wire_clk_cap r in
  ∃ before after,
    parasitics (estimateWireParasitic net r) !! net
    = Some (before
            ++ [IncrCap n1 (wire_length * cap / Qc_of_Z 2)%Qc;
                Resistor n1 n2 (wire_length * res)%Qc;
                IncrCap n2 (wire_length * cap / Qc_of_Z 2)%Qc]
            ++ after).
Proof.
  intros Htop Htree Hb Hlen Hnodes n1 n2 wire_length res cap.
  unfold estimateWireParasitic. rewrite Htop, Htree. cbn [negb].
  assert (∀ ps, parasitics (set_parasitics ps r) = ps) as ->
    by (intros; by destruct r).
  rewrite lookup_insert_eq, estimateWireParasitic_network_flat_map.
  apply list_elem_of_split in Hb as (bs1 & bs2 & ->).
  rewrite flat_map_app. cbn [flat_map].
  eexists _, _. f_equal. f_equal. f_equal.
  unfold estimateWireParasitic_branch. fold n1 n2.
  rewrite decide_True by done. rewrite decide_False by done.
  fold wire_length. unfold res, cap. by destruct (isClockNet net).
Qed.

Example estimateWireParasitic_example :
  let D := example_design in
  let T := example_timer in
  let S := example_clock_steiner in
  let r := example_clock_resizer in
  isClockNet (Timer := T) "CLK" = true
  ∧ isClockNet (Timer := T) "sig" = false
  ∧ bool_decide
      (parasitics (estimateWireParasitic (H := D) (H0 := T) (H1 := S)
                     "CLK" r) !! "CLK"
       = Some [IncrCap (PinNode (InstPin "cb" "Z")) (Q2Qc (2 # 1000000));
               Resistor (PinNode (InstPin "cb" "Z"))
                        (PinNode (InstPin "ff1" "CK")) (Q2Qc (2 # 1000000));
               IncrCap (PinNode (InstPin "ff1" "CK")) (Q2Qc (2 # 1000000))])
    = true
  ∧ bool_decide
      (parasitics (estimateWireParasitic (H := D) (H0 := T) (H1 := S)
                     "sig" r) !! "sig"
       = Some [IncrCap (PinNode (InstPin "U0" "Z")) (Q2Qc (20 # 1000000));
               Resistor (PinNode (InstPin "U0" "Z"))
                        (PinNode (InstPin "U1" "I")) (Q2Qc (20 # 1000000));
               IncrCap (PinNode (InstPin "U1" "I")) (Q2Qc (20 # 1000000))])
    = true.
Proof. by vm_compute. Qed.

Lemma estimateWireParasitic_rc_witness :
  let D := example_design in
  let T := example_timer in
  let S := example_clock_steiner in
  let r := example_clock_resizer in
  let b := mkBranch (mkPoint 0 0) (Some (InstPin "cb" "Z")) 0
                    (mkPoint 2000 0) (Some (InstPin "ff1" "CK")) 1 2000 in
  (hasTopLevelPort (netlist r) "CLK" = false
   ∧ makeSteinerTree (Steiner := S) (netlist r) "CLK"
     = Some example_clock_tree
   ∧ b ∈ branches example_clock_tree
   ∧ wire_length_dbu b ≠ 0
   ∧ findParasiticNode example_clock_tree "CLK" (pin1 b) (steiner_pt1 b)
     ≠ findParasiticNode example_clock_tree "CLK" (pin2 b) (steiner_pt2 b))
  ∧ isClockNet (Timer := T) "CLK" = true
  ∧ ∃ before after,
      parasitics (estimateWireParasitic (H := D) (H0 := T) (H1 := S)
                    "CLK" r) !! "CLK"
      = Some (before
              ++ [IncrCap (PinNode (InstPin "cb" "Z"))
                          (dbuToMeters (H := D) 2000 * wire_cap r
                           / Qc_of_Z 2)%Qc;
                  Resistor (PinNode (InstPin "cb" "Z"))
                           (PinNode (InstPin "ff1" "CK"))
                           (dbuToMeters (H := D) 2000 * wire_res r)%Qc;
                  IncrCap (PinNode (InstPin "ff1" "CK"))
                          (dbuToMeters (H := D) 2000 * wire_cap r
                           / Qc_of_Z 2)%Qc]
              ++ after).
Proof.
  intros D T S r b.
  assert (hasTopLevelPort (netlist r) "CLK" = false) as H1
    by (by vm_compute).
  assert (makeSteinerTree (Steiner := S) (netlist r) "CLK"
          = Some example_clock_tree) as H2 by done.
  assert (b ∈ branches example_clock_tree) as H3 by (by repeat constructor).
  assert (wire_length_dbu b ≠ 0) as H4 by done.
  assert (findParasiticNode example_clock_tree "CLK" (pin1 b) (steiner_pt1 b)
          ≠ findParasiticNode example_clock_tree "CLK" (pin2 b)
              (steiner_pt2 b)) as H5 by done.
  split; [exact (conj H1 (conj H2 (conj H3 (conj H4 H5))))|].
  split; [done|].
  exact (estimateWireParasitic_rc (H := D) (H0 := T) (H1 := S) r "CLK"
           example_clock_tree b H1 H2 H3 H4 H5).
Defined.

(** ** Instances with several outputs *)

Lemma elem_of_instance_pins (nl : Netlist) (i : Instance) (p : Pin) :
  p ∈ instance_pins nl i ↔ pin_instance p = Some i ∧ is_Some (pin_net nl p).
Proof.
  unfold instance_pins, pin_net. rewrite list_elem_of_fmap. split.
  - intros ([q n] & -> & Hin). apply elem_of_map_to_list in Hin.
    apply map_lookup_filter_Some in Hin as [Hq Hi]. simpl in *. eauto.
  - intros [Hi [n Hn]]. exists (p, n). split; [done|].
    apply elem_of_map_to_list, map_lookup_filter_Some. done.
Qed.

Lemma NoDup_instance_pins (nl : Netlist) (i : Instance) :
  NoDup (instance_pins nl i).
Proof. apply NoDup_fst_map_to_list. Qed.

(** The loop returns as soon as the count passes 1: it answers whether
    the count so far and the connected outputs still to come make 2. *)
Lemma hasMultipleOutputs_loop_spec `{Design} (nl : Netlist) (pins : list Pin)
    (output_count : Z) :
  0 ≤ output_count ≤ 1 →
  hasMultipleOutputs_loop nl pins output_count
  = bool_decide
      (2 ≤ output_count
           + Z.of_nat
               (length (filter (λ p, isAnyOutput (direction p)
                                     && bool_decide (is_Some (pin_net nl p))
                                     = true) pins))).
Proof.
  revert output_count. induction pins as [|p pins IH]; intros c Hc.
  - simpl. symmetry. apply bool_decide_eq_false_2. lia.
  - cbn [hasMultipleOutputs_loop]. rewrite filter_cons.
    destruct (isAnyOutput (direction p)
              && bool_decide (is_Some (pin_net nl p))) eqn:E.
    + rewrite decide_True by done. rewrite length_cons.
      rewrite int_incr_in_int by (unfold int_min, int_max; lia).
      destruct (bool_decide (1 < c + 1)) eqn:Hgt.
      * apply bool_decide_eq_true in Hgt.
        symmetry. apply bool_decide_eq_true_2. lia.
      * apply bool_decide_eq_false in Hgt.
        rewrite IH by lia. apply bool_decide_ext. lia.
    + rewrite decide_False by (intros ?; congruence). by apply IH.
Qed.

Lemma NoDup_two_elements {A} (l : list A) :
  NoDup l →
  (2 ≤ length l)%nat ↔ ∃ x y, x ≠ y ∧ x ∈ l ∧ y ∈ l.
Proof.
  intros Hnd. split.
  - destruct l as [|x [|y l]]; simpl; [lia..|]. intros _.
    exists x, y. apply list.NoDup_cons in Hnd as [Hx _].
    split; [|split].
    + intros ->. apply Hx. by left.
    + by left.
    + right. by left.
  - intros (x & y & Hne & Hx & Hy).
    destruct l as [|a [|b l]]; simpl; [|exfalso|lia].
    + by apply elem_of_nil in Hx.
    + apply list_elem_of_singleton in Hx, Hy. congruence.
Qed.

(** X1. [hasMultipleOutputs] answers true exactly for an instance with at
    least two different pins that have an output direction (anything but
    input) and are connected to a net. *)
Theorem hasMultipleOutputs_iff `{Design} (nl : Netlist) (inst : Instance) :
  hasMultipleOutputs nl inst = true ↔
  ∃ p q, p ≠ q
    ∧ pin_instance p = Some inst ∧ pin_instance q = Some inst
    ∧ isAnyOutput (direction p) = true ∧ isAnyOutput (direction q) = true
    ∧ is_Some (pin_net nl p) ∧ is_Some (pin_net nl q).
Proof.
  unfold hasMultipleOutputs. rewrite hasMultipleOutputs_loop_spec by lia.
  rewrite bool_decide_eq_true.
  set (test := λ p, isAnyOutput (direction p)
                    && bool_decide (is_Some (pin_net nl p)) = true).
  assert (NoDup (filter test (instance_pins nl inst))) as Hnd
    by apply list.NoDup_filter, NoDup_instance_pins.
  transitivity (2 ≤ length (filter test (instance_pins nl inst)))%nat;
    [lia|].
  rewrite (NoDup_two_elements _ Hnd). split.
  - intros (p & q & Hne & Hp & Hq).
    apply list_elem_of_filter in Hp as [Hp1 Hp2], Hq as [Hq1 Hq2].
    apply elem_of_instance_pins in Hp2 as [? ?], Hq2 as [? ?].
    unfold test in Hp1, Hq1.
    apply andb_true_iff in Hp1 as [? _], Hq1 as [? _].
    exists p, q. done.
  - intros (p & q & Hne & Hp & Hq & Hdp & Hdq & Hnp & Hnq).
    exists p, q. split; [done|].
    split; apply list_elem_of_filter; (split;
      [unfold test; rewrite andb_true_iff, bool_decide_eq_true; done
      |by apply elem_of_instance_pins]).
Qed.

Example hasMultipleOutputs_example :
  hasMultipleOutputs (H := example_design) example_sizer_netlist "ff1" = true
  ∧ hasMultipleOutputs (H := example_design) example_buffered_netlist "b1"
    = false.
Proof. by vm_compute. Qed.

(** ** Cells that may not be used *)

Lemma dont_use_set_dont_use (v : gset LibertyCell) (r : Resizer) :
  dont_use (set_dont_use v r) = v.
Proof. by destruct r. Qed.

Lemma setDontUse_cells (cells : list LibertyCell) (r : Resizer) :
  dont_use (setDontUse (Some cells) r) = list_to_set cells ∪ dont_use r.
Proof.
  simpl. revert r. induction cells as [|c cells IH]; intros r.
  - simpl. by rewrite (left_id_L ∅ (∪)).
  - cbn [foldl list_to_set]. rewrite IH, dont_use_set_dont_use.
    rewrite (assoc_L (∪)). f_equal. apply (comm_L (∪)).
Qed.

(** X2. [setDontUse] only ever adds to the set of cells that may not be
    used: after any sequence of calls, [dontUse] holds for a cell exactly
    when it held before or one of the sequences given names the cell; a
    null sequence changes nothing. *)
Theorem setDontUse_accumulates `{Design}
    (calls : list (option (list LibertyCell))) (r : Resizer)
    (cell : LibertyCell) :
  dontUse (foldl (λ r cells, setDontUse cells r) r calls) cell = true ↔
  dontUse r cell = true ∨ ∃ cells, Some cells ∈ calls ∧ cell ∈ cells.
Proof.
  revert r. induction calls as [|call calls IH]; intros r.
  - simpl. split; [by left|]. intros [?|(? & ?%elem_of_nil & _)]; done.
  - cbn [foldl]. rewrite IH. clear IH.
    assert (dontUse (setDontUse call r) cell = true ↔
            dontUse r cell = true ∨ ∃ cells, call = Some cells ∧ cell ∈ cells)
      as ->.
    { destruct call as [cells|].
      - unfold dontUse. rewrite setDontUse_cells.
        rewrite !orb_true_iff, !bool_decide_eq_true, elem_of_union,
          elem_of_list_to_set.
        split; [intros [?|[?|?]]; eauto|].
        intros [[?|?]|(? & [= <-] & ?)]; eauto.
      - simpl. split; [by left|]. by intros [?|(? & ? & _)]. }
    split.
    + intros [[?|(cells & -> & ?)]|(cells & ? & ?)]; [by left|right..].
      * exists cells. split; [by left|done].
      * exists cells. split; [by right|done].
    + intros [?|(cells & [<-|?]%elem_of_cons & ?)]; [by left; left|..].
      * left. right. eauto.
      * right. eauto.
Qed.

Example setDontUse_example :
  let r := setDontUse None
             (setDontUse (Some ["BUF_X2"; "INV_X1"])
                (setDontUse (Some ["BUF_D1"]) example_resizer)) in
  dontUse (H := example_design) r <$> ["BUF_X1"; "BUF_X2"; "BUF_D1"; "INV_X1"]
  = [false; true; true; true].
Proof. by vm_compute. Qed.

(** ** Utilization and the area budget *)



(** ** The order of the driver list *)

Lemma ascii_compare_refl (a : Ascii.ascii) : Ascii.compare a a = Eq.
Proof. unfold Ascii.compare. apply N.compare_refl. Qed.

Lemma ascii_compare_lt_trans (a b c : Ascii.ascii) :
  Ascii.compare a b = Lt → Ascii.compare b c = Lt → Ascii.compare a c = Lt.
Proof. unfold Ascii.compare. rewrite !N.compare_lt_iff. lia. Qed.

Lemma string_compare_refl (s : string) : String.compare s s = Eq.
Proof.
  induction s as [|a s IH]; [done|]. cbn [String.compare].
  by rewrite ascii_compare_refl.
Qed.

Lemma string_compare_lt_trans (s1 s2 s3 : string) :
  String.compare s1 s2 = Lt → String.compare s2 s3 = Lt →
  String.compare s1 s3 = Lt.
Proof.
  revert s2 s3. induction s1 as [|a s1 IH]; intros [|b s2] [|c s3];
    cbn [String.compare]; try done.
  destruct (Ascii.compare a b) eqn:Eab; [|intros _|done].
  - apply Ascii.compare_eq_iff in Eab as ->.
    destruct (Ascii.compare b c); [apply IH|done..].
  - destruct (Ascii.compare b c) eqn:Ebc; [|intros _|done].
    + apply Ascii.compare_eq_iff in Ebc as <-. by rewrite Eab.
    + by rewrite (ascii_compare_lt_trans a b c).
Qed.

Lemma stringLess_irrefl (s : string) : stringLess s s = false.
Proof. unfold stringLess. by rewrite string_compare_refl. Qed.

Lemma stringLess_trans (s1 s2 s3 : string) :
  stringLess s1 s2 = true → stringLess s2 s3 = true →
  stringLess s1 s3 = true.
Proof.
  unfold stringLess. intros H12 H23.
  rewrite (string_compare_lt_trans s1 s2 s3); [done|..].
  - by destruct (String.compare s1 s2).
  - by destruct (String.compare s2 s3).
Qed.

Lemma stringLess_total (s1 s2 : string) :
  s1 ≠ s2 → stringLess s1 s2 = true ∨ stringLess s2 s1 = true.
Proof.
  intros Hne. unfold stringLess.
  rewrite (String.compare_antisym s2 s1).
  destruct (String.compare s1 s2) eqn:E; simpl; [|by left|by right].
  by apply String.compare_eq_iff in E.
Qed.

(** X4. [VertexLevelLess] is a strict total order on vertices with
    different path names: no vertex is below itself, the relation is
    transitive, two vertices neither of which is below the other have the
    same level and the same path name, and so of two vertices with
    different path names one is below the other.  Lower levels come
    first; within a level the path names decide. *)
Theorem VertexLevelLess_strict_total (level : Pin → Z)
    (pathName : Pin → string) :
  (∀ v, VertexLevelLess level pathName v v = false)
  ∧ (∀ v1 v2 v3,
       VertexLevelLess level pathName v1 v2 = true →
       VertexLevelLess level pathName v2 v3 = true →
       VertexLevelLess level pathName v1 v3 = true)
  ∧ (∀ v1 v2,
       VertexLevelLess level pathName v1 v2 = false →
       VertexLevelLess level pathName v2 v1 = false →
       level v1 = level v2 ∧ pathName v1 = pathName v2)
  ∧ (∀ v1 v2, level v1 < level v2 →
       VertexLevelLess level pathName v1 v2 = true).
Proof.
  unfold VertexLevelLess. split; [|split; [|split]].
  - intros v. rewrite stringLess_irrefl, andb_false_r, orb_false_r.
    apply bool_decide_eq_false_2. lia.
  - intros v1 v2 v3.
    rewrite !orb_true_iff, !andb_true_iff, !bool_decide_eq_true.
    intros [H12|[H12 S12]] [H23|[H23 S23]]; [left; lia..|].
    right. split; [lia|]. by apply (stringLess_trans _ (pathName v2)).
  - intros v1 v2.
    rewrite !orb_false_iff, !andb_false_iff, !bool_decide_eq_false.
    intros [H12 E12] [H21 E21].
    assert (level v1 = level v2) as Hl by lia. split; [done|].
    destruct E12 as [?|S12]; [done|]. destruct E21 as [?|S21]; [lia|].
    destruct (decide (pathName v1 = pathName v2)) as [|Hne]; [done|].
    destruct (stringLess_total _ _ Hne); congruence.
  - intros v1 v2 Hlt. by rewrite bool_decide_eq_true_2.
Qed.

Example VertexLevelLess_example :
  let level := λ p, match p with InstPin _ _ => 1 | TopPin _ => 0 end in
  let pathName := λ p, match p with
                       | InstPin i q => i +:+ "/" +:+ q
                       | TopPin q => q
                       end in
  VertexLevelLess level pathName (TopPin "b") (InstPin "a" "Z") = true
  ∧ VertexLevelLess level pathName (InstPin "u1" "Z") (InstPin "u10" "Z")
    = true
  ∧ VertexLevelLess level pathName (InstPin "u10" "Z") (InstPin "u1" "Z")
    = false
  ∧ VertexLevelLess level pathName (InstPin "u2" "Z") (InstPin "u10" "Z")
    = false.
Proof. by vm_compute. Qed.

(** ** The centre of the loads *)

Lemma findCenter_sum `{Design} (pins : list Pin) (sum : Point)
    (hi_x hi_y : Z) :
  (∀ p, p ∈ pins → 0 ≤ getX (location p) ≤ hi_x
                   ∧ 0 ≤ getY (location p) ≤ hi_y) →
  0 ≤ getX sum → 0 ≤ getY sum →
  getX sum + Z.of_nat (length pins) * hi_x ≤ int_max →
  getY sum + Z.of_nat (length pins) * hi_y ≤ int_max →
  foldl (λ sum pin,
           let loc := location pin in
           mkPoint (int_add (getX sum) (getX loc))
                   (int_add (getY sum) (getY loc))) sum pins
  = mkPoint (getX sum + foldr Z.add 0 ((getX ∘ location) <$> pins))
            (getY sum + foldr Z.add 0 ((getY ∘ location) <$> pins)).
Proof.
  revert sum. induction pins as [|p pins IH]; intros [sx sy] Hin Hx Hy Bx By.
  - simpl. f_equal; lia.
  - destruct (Hin p) as [Hpx Hpy]; [by left|].
    assert (∀ q, q ∈ pins → 0 ≤ getX (location q) ≤ hi_x
                            ∧ 0 ≤ getY (location q) ≤ hi_y) as Hin'
      by (intros q Hq; apply Hin; by right).
    rewrite length_cons in Bx, By. cbn [getX getY] in *.
    rewrite !fmap_cons. cbn [foldl foldr compose getX getY].
    assert (int_add sx (getX (location p)) = sx + getX (location p)) as ->
      by (apply wrap_in_int; unfold in_int, int_min; nia).
    assert (int_add sy (getY (location p)) = sy + getY (location p)) as ->
      by (apply wrap_in_int; unfold in_int, int_min; nia).
    rewrite (IH _ Hin'); cbn [getX getY]; [|lia|lia|nia|nia].
    f_equal; lia.
Qed.

Lemma foldr_add_bounds {A} (f : A → Z) (l : list A) (lo hi : Z) :
  (∀ x, x ∈ l → lo ≤ f x ≤ hi) →
  Z.of_nat (length l) * lo ≤ foldr Z.add 0 (f <$> l)
  ≤ Z.of_nat (length l) * hi.
Proof.
  induction l as [|x l IH]; intros Hin; [simpl; lia|].
  rewrite fmap_cons. cbn [foldr length].
  destruct (Hin x) as [? ?]; [by left|].
  destruct IH as [? ?]; [intros y Hy; apply Hin; by right|].
  rewrite Nat2Z.inj_succ. lia.
Qed.

(** X5. For a non-empty list of pins with coordinates that are not
    negative and whose sums fit an [int], [findCenter] returns the mean of
    the pin locations, rounded down in each coordinate, and so a point
    within the bounding box of the pins. *)
Theorem findCenter_mean `{Design} (pins : list Pin)
    (lo_x hi_x lo_y hi_y : Z) :
  pins ≠ [] →
  0 ≤ lo_x → 0 ≤ lo_y →
  (∀ p, p ∈ pins → lo_x ≤ getX (location p) ≤ hi_x
                   ∧ lo_y ≤ getY (location p) ≤ hi_y) →
  Z.of_nat (length pins) * hi_x ≤ int_max →
  Z.of_nat (length pins) * hi_y ≤ int_max →
  findCenter pins
  = mkPoint (foldr Z.add 0 ((getX ∘ location) <$> pins)
             `div` Z.of_nat (length pins))
            (foldr Z.add 0 ((getY ∘ location) <$> pins)
             `div` Z.of_nat (length pins))
  ∧ lo_x ≤ getX (findCenter pins) ≤ hi_x
  ∧ lo_y ≤ getY (findCenter pins) ≤ hi_y.
Proof.
  intros Hne Hlx Hly Hin Bx By.
  assert (0 < Z.of_nat (length pins)) as Hn
    by (destruct pins; [done|simpl; lia]).
  pose proof (foldr_add_bounds (getX ∘ location) pins lo_x hi_x) as Hsx.
  pose proof (foldr_add_bounds (getY ∘ location) pins lo_y hi_y) as Hsy.
  destruct Hsx as [Hsx1 Hsx2]; [intros p Hp; by apply Hin|].
  destruct Hsy as [Hsy1 Hsy2]; [intros p Hp; by apply Hin|].
  set (sx := foldr Z.add 0 ((getX ∘ location) <$> pins)) in *.
  set (sy := foldr Z.add 0 ((getY ∘ location) <$> pins)) in *.
  assert (0 ≤ Z.of_nat (length pins) * lo_x) as Hpx by (apply Z.mul_nonneg_nonneg; lia).
  assert (0 ≤ Z.of_nat (length pins) * lo_y) as Hpy by (apply Z.mul_nonneg_nonneg; lia).
  assert (0 ≤ sx) as H0x by lia.
  assert (0 ≤ sy) as H0y by lia.
  assert (findCenter pins
          = mkPoint (sx `div` Z.of_nat (length pins))
                    (sy `div` Z.of_nat (length pins))) as Hc.
  { unfold findCenter.
    rewrite (findCenter_sum pins (mkPoint 0 0) hi_x hi_y); simpl;
      [|intros p Hp; destruct (Hin p Hp); lia|lia..].
    fold sx sy. rewrite !Z.add_0_l. unfold int_max in *.
    rewrite !Z.mod_small by lia.
    rewrite !Z.quot_div_nonneg by lia.
    assert (0 ≤ sx `div` Z.of_nat (length pins) ≤ sx).
    { split; [apply Z.div_pos; lia|].
      apply Z.div_le_upper_bound; [lia|].
      rewrite <- (Z.mul_1_l sx) at 1.
      apply Z.mul_le_mono_nonneg_r; lia. }
    assert (0 ≤ sy `div` Z.of_nat (length pins) ≤ sy).
    { split; [apply Z.div_pos; lia|].
      apply Z.div_le_upper_bound; [lia|].
      rewrite <- (Z.mul_1_l sy) at 1.
      apply Z.mul_le_mono_nonneg_r; lia. }
    rewrite !wrap_in_int by (unfold in_int, int_min, int_max; lia).
    done. }
  rewrite Hc. simpl. split; [done|]. split; split.
  - apply Z.div_le_lower_bound; lia.
  - apply Z.div_le_upper_bound; lia.
  - apply Z.div_le_lower_bound; lia.
  - apply Z.div_le_upper_bound; lia.
Qed.

Lemma findCenter_mean_witness :
  let D := example_design in
  let pins := [InstPin "U1" "I"; InstPin "U2" "I"; InstPin "U3" "I"] in
  (pins ≠ []
   ∧ 0 ≤ 1000 ∧ 0 ≤ 1000
   ∧ (∀ p, p ∈ pins → 1000 ≤ getX (location (Design := D) p) ≤ 1000
                      ∧ 1000 ≤ getY (location (Design := D) p) ≤ 1000)
   ∧ Z.of_nat (length pins) * 1000 ≤ int_max
   ∧ Z.of_nat (length pins) * 1000 ≤ int_max)
  ∧ findCenter (H := D) pins = mkPoint 1000 1000.
Proof.
  intros D pins.
  assert (pins ≠ []) as H1 by done.
  assert (0 ≤ 1000) as H2 by lia.
  assert (∀ p, p ∈ pins → 1000 ≤ getX (location (Design := D) p) ≤ 1000
                          ∧ 1000 ≤ getY (location (Design := D) p) ≤ 1000)
    as H3.
  { intros p Hp. unfold pins in Hp. rewrite !elem_of_cons in Hp.
    destruct Hp as [->|[->|[->|Hp]]]; [by vm_compute..|].
    by apply elem_of_nil in Hp. }
  assert (Z.of_nat (length pins) * 1000 ≤ int_max) as H4 by (by vm_compute).
  split; [exact (conj H1 (conj H2 (conj H2 (conj H3 (conj H4 H4)))))|].
  exact (proj1 (findCenter_mean (H := D) pins 1000 1000 1000 1000
                  H1 H2 H2 H3 H4 H4)).
Defined.

(** ** Estimating all wires *)

Lemma estimateWireParasitic_parasitics `{Design} `{Timer} `{Steiner}
    (net : Net) (ps : gmap Net Parasitic) (r : Resizer) :
  estimateWireParasitic net (set_parasitics ps r)
  = set_parasitics
      (if hasTopLevelPort (netlist r) net then ps
       else match makeSteinerTree (netlist r) net with
            | Some tree =>
                <[net := estimateWireParasitic_network r tree net]> ps
            | None => ps
            end)
      r.
Proof.
  unfold estimateWireParasitic.
  assert (netlist (set_parasitics ps r) = netlist r) as -> by (by destruct r).
  destruct (hasTopLevelPort (netlist r) net); [done|]. cbn [negb].
  destruct (makeSteinerTree (netlist r) net) as [tree|]; [|done].
  by destruct r.
Qed.

Lemma estimateWireParasitics_fold `{Design} `{Timer} `{Steiner}
    (nets : list Net) (ps : gmap Net Parasitic) (r : Resizer) :
  ∃ ps',
    foldl (λ r net,
             if negb (isPower net) && negb (isGround net)
             then estimateWireParasitic net r
             else r)
          (set_parasitics ps r) nets
    = set_parasitics ps' r
    ∧ ∀ net,
        ps' !! net
        = if bool_decide (net ∈ nets)
             && negb (isPower net) && negb (isGround net)
             && negb (hasTopLevelPort (netlist r) net)
          then match makeSteinerTree (netlist r) net with
               | Some tree => Some (estimateWireParasitic_network r tree net)
               | None => ps !! net
               end
          else ps !! net.
Proof.
  revert ps. induction nets as [|n nets IH]; intros ps.
  - exists ps. by split.
  - cbn [foldl].
    assert (∃ ps1,
      (if negb (isPower n) && negb (isGround n)
       then estimateWireParasitic n (set_parasitics ps r)
       else set_parasitics ps r) = set_parasitics ps1 r
      ∧ ∀ net, ps1 !! net
          = if bool_decide (net = n)
               && negb (isPower net) && negb (isGround net)
               && negb (hasTopLevelPort (netlist r) net)
            then match makeSteinerTree (netlist r) net with
                 | Some tree =>
                     Some (estimateWireParasitic_network r tree net)
                 | None => ps !! net
                 end
            else ps !! net) as (ps1 & -> & Hps1).
    { destruct (negb (isPower n) && negb (isGround n)) eqn:E.
      - rewrite estimateWireParasitic_parasitics. eexists. split; [done|].
        intros net. destruct (decide (net = n)) as [->|Hne].
        + rewrite bool_decide_eq_true_2 by done. cbn [andb]. rewrite E.
          cbn [andb].
          destruct (hasTopLevelPort (netlist r) n); [done|]. cbn [negb].
          destruct (makeSteinerTree (netlist r) n); [|done].
          by rewrite lookup_insert_eq.
        + rewrite bool_decide_eq_false_2 by done. cbn [andb].
          destruct (hasTopLevelPort (netlist r) n); [done|].
          destruct (makeSteinerTree (netlist r) n); [|done].
          by rewrite lookup_insert_ne.
      - exists ps. split; [done|]. intros net.
        destruct (decide (net = n)) as [->|Hne].
        + rewrite bool_decide_eq_true_2 by done. cbn [andb]. by rewrite E.
        + by rewrite bool_decide_eq_false_2 by done. }
    destruct (IH ps1) as (ps' & -> & Hps'). exists ps'. split; [done|].
    intros net. rewrite Hps', Hps1.
    destruct (decide (net = n)) as [->|Hne].
    + rewrite (bool_decide_eq_true_2 (n = n)) by done.
      rewrite (bool_decide_eq_true_2 (n ∈ n :: nets)) by (by left).
      destruct (bool_decide (n ∈ nets)), (isPower n), (isGround n),
        (hasTopLevelPort (netlist r) n); cbn [andb negb]; try done;
        by destruct (makeSteinerTree (netlist r) n).
    + rewrite (bool_decide_eq_false_2 (net = n)) by done. cbn [andb].
      rewrite (bool_decide_ext (net ∈ n :: nets) (net ∈ nets)); [done|].
      rewrite elem_of_cons. split; [by intros [?|?]|by right].
Qed.

(** X6. [estimateWireParasitics] does nothing unless the signal wire
    capacitance is positive.  When it is, the pass leaves the netlist as
    it is, sets [have_estimated_parasitics], and the TIMER ends with a
    parasitic for exactly the nets of the design that are neither power
    nor ground, have no top-level port and have a Steiner tree: the
    network built from that tree.  Whatever parasitics there were before
    are gone. *)
Theorem estimateWireParasitics_spec `{Design} `{Timer} `{Steiner}
    (r : Resizer) :
  (Qc_ltb 0 (wire_cap r) = false → estimateWireParasitics r = r)
  ∧ (Qc_ltb 0 (wire_cap r) = true →
     have_estimated_parasitics (estimateWireParasitics r) = true
     ∧ netlist (estimateWireParasitics r) = netlist r
     ∧ ∀ net,
         parasitics (estimateWireParasitics r) !! net
         = if bool_decide (net ∈ nl_nets (netlist r))
              && negb (isPower net) && negb (isGround net)
              && negb (hasTopLevelPort (netlist r) net)
           then match makeSteinerTree (netlist r) net with
                | Some tree =>
                    Some (estimateWireParasitic_network r tree net)
                | None => None
                end
           else None).
Proof.
  unfold estimateWireParasitics. split; intros Hcap; rewrite Hcap; [done|].
  assert (netlist (set_parasitics ∅ r) = netlist r) as -> by (by destruct r).
  destruct (estimateWireParasitics_fold (elements (nl_nets (netlist r))) ∅ r)
    as (ps & -> & Hps).
  split; [by destruct r|]. split; [by destruct r|].
  intros net.
  assert (parasitics (set_have_estimated_parasitics true
                        (set_parasitics ps r)) = ps) as ->
    by (by destruct r).
  rewrite Hps, lookup_empty.
  rewrite (bool_decide_ext (net ∈ elements (nl_nets (netlist r)))
                           (net ∈ nl_nets (netlist r)))
    by apply elem_of_elements.
  destruct (_ && _); [|done].
  by destruct (makeSteinerTree (netlist r) net).
Qed.

Example estimateWireParasitics_example :
  let r := estimateWireParasitics (H := example_design) (H0 := example_timer)
             (H1 := example_clock_steiner)
             (set_parasitics {[ "old" := [] ]} example_clock_resizer) in
  dom (parasitics r) = {[ "CLK"; "sig" ]}
  ∧ have_estimated_parasitics r = true.
Proof. by vm_compute. Qed.

Lemma estimateWireParasitics_spec_witness :
  let D := example_design in
  let T := example_timer in
  let S := example_clock_steiner in
  let r := example_clock_resizer in
  Qc_ltb 0 (wire_cap r) = true
  ∧ have_estimated_parasitics
      (estimateWireParasitics (H := D) (H0 := T) (H1 := S) r) = true.
Proof.
  intros D T S r.
  assert (Qc_ltb 0 (wire_cap r) = true) as H1 by (by vm_compute).
  split; [exact H1|].
  exact (proj1 (proj2 (estimateWireParasitics_spec (H := D) (H0 := T)
                         (H1 := S) r) H1)).
Defined.

(** ** What [removeBuffers] leaves alone *)

(** One round of the instance loop: instances are only removed, and only
    buffers; nets are only removed; the connection of a top-level port
    stays; the count goes up with every instance removed. *)
Lemma removeBuffers_inst_frame `{Design} (nl nl' : Netlist) (c c' : Z)
    (inst : Instance) :
  removeBuffers_inst (nl, c) inst = Some (nl', c') →
  (∀ i d, nl_insts nl' !! i = Some d → nl_insts nl !! i = Some d)
  ∧ (∀ i d, nl_insts nl !! i = Some d → isBuffer (inst_master d) = false →
            nl_insts nl' !! i = Some d)
  ∧ nl_nets nl' ⊆ nl_nets nl
  ∧ (∀ q, pin_net nl' (TopPin q) = pin_net nl (TopPin q))
  ∧ ((nl' = nl ∧ c' = c)
     ∨ (is_Some (nl_insts nl !! inst)
        ∧ nl_insts nl' = delete inst (nl_insts nl)
        ∧ c' = int_incr c)).
Proof.
  unfold removeBuffers_inst.
  destruct (nl_insts nl !! inst) as [d0|] eqn:Hd0.
  2:{ intros [= <- <-]. repeat split; try done. by left. }
  destruct (isBuffer (inst_master d0)) eqn:Hbuf.
  2:{ intros [= <- <-]. repeat split; try done. by left. }
  destruct (bufferPorts (inst_master d0)) as [input_port output_port].
  destruct (pin_net nl (InstPin inst input_port)) as [input_net|]; [|done].
  destruct (pin_net nl (InstPin inst output_port)) as [output_net|] eqn:Hout;
    [|done].
  simpl.
  destruct (hasTopLevelPort nl input_net); simpl.
  { intros [= <- <-]. repeat split; try done. by left. }
  destruct (hasTopLevelPort nl output_net) eqn:Htop; simpl.
  { intros [= <- <-]. repeat split; try done. by left. }
  intros [= <- <-].
  pose proof (proj1 (hasTopLevelPort_false _ _) Htop) as Hnotop.
  destruct (foldl_removeBuffers_pin (InstPin inst output_port) input_net
              (net_pins nl output_net) nl)
    as (Hnets & _ & Hinsts & Hconn & _).
  set (nl1 := foldl (removeBuffers_pin (InstPin inst output_port) input_net)
                    nl (net_pins nl output_net)) in *.
  destruct (deleteInstance_deleteNet_fields inst output_net nl1)
    as (Hnets2 & Hinsts2 & _ & _).
  rewrite Hnets in Hnets2. rewrite Hinsts in Hinsts2.
  split; [|split; [|split; [|split]]].
  - intros i d. rewrite Hinsts2. by intros [_ ?]%lookup_delete_Some.
  - intros i d Hi Hnb. rewrite Hinsts2. apply lookup_delete_Some.
    split; [|done]. intros <-. congruence.
  - rewrite Hnets2. apply subseteq_difference_l. done.
  - intros q. unfold pin_net. simpl.
    assert (nl_conn nl1 !! TopPin q = nl_conn nl !! TopPin q) as Hq.
    { rewrite Hconn. rewrite decide_False; [done|].
      intros [Hin _]. apply elem_of_net_pins in Hin.
      by specialize (Hnotop _ Hin). }
    destruct (nl_conn nl !! TopPin q) as [m|] eqn:Hm.
    + apply map_lookup_filter_Some. split; [|done].
      apply map_lookup_filter_Some. split; [by rewrite Hq|]. simpl.
      intros ->. by specialize (Hnotop (TopPin q) Hm).
    + apply map_lookup_filter_None. left.
      apply map_lookup_filter_None. left. by rewrite Hq.
  - right. split; [by eexists|]. done.
Qed.

Lemma removeBuffers_fold_frame `{Design} (insts : list Instance)
    (nl nl' : Netlist) (c c' : Z) :
  foldl (λ st inst, st ← st; removeBuffers_inst st inst) (Some (nl, c)) insts
  = Some (nl', c') →
  0 ≤ c →
  c + Z.of_nat (size (nl_insts nl)) ≤ int_max →
  (∀ i d, nl_insts nl' !! i = Some d → nl_insts nl !! i = Some d)
  ∧ (∀ i d, nl_insts nl !! i = Some d → isBuffer (inst_master d) = false →
            nl_insts nl' !! i = Some d)
  ∧ nl_nets nl' ⊆ nl_nets nl
  ∧ (∀ q, pin_net nl' (TopPin q) = pin_net nl (TopPin q))
  ∧ c' + Z.of_nat (size (nl_insts nl')) = c + Z.of_nat (size (nl_insts nl)).
Proof.
  revert nl c. induction insts as [|inst insts IH]; intros nl c.
  - intros [= <- <-]. done.
  - cbn [foldl].
    replace (Some (nl, c) ≫= λ st, removeBuffers_inst st inst)
      with (removeBuffers_inst (nl, c) inst) by done.
    destruct (removeBuffers_inst (nl, c) inst) as [[nl1 c1]|] eqn:E.
    2:{ by rewrite foldl_option_None. }
    intros Hrest Hc Hbound.
    apply removeBuffers_inst_frame in E as (Hsub & Hkeep & Hnets & Htop & Hc1).
    assert (0 ≤ c1 ∧ c1 + Z.of_nat (size (nl_insts nl1))
                     = c + Z.of_nat (size (nl_insts nl))) as [Hc1' Hsz].
    { destruct Hc1 as [[-> ->]|([d Hd] & Hdel & ->)]; [done|].
      rewrite Hdel.
      pose proof (map_size_delete inst (nl_insts nl)) as Hs.
      rewrite Hd in Hs.
      assert (size (nl_insts nl) ≠ 0%nat) as Hnz.
      { intros Hz. apply map_size_empty_iff in Hz. by rewrite Hz in Hd. }
      rewrite int_incr_in_int by (unfold int_min; lia). lia. }
    destruct (IH nl1 c1 Hrest) as (Hsub' & Hkeep' & Hnets' & Htop' & Hcount);
      [done|lia|].
    split; [|split; [|split; [|split]]].
    + intros i d Hi. by apply Hsub, Hsub'.
    + intros i d Hi Hnb. apply Hkeep'; [by apply Hkeep|done].
    + by transitivity (nl_nets nl1).
    + intros q. by rewrite Htop', Htop.
    + lia.
Qed.

(** X7. [removeBuffers] only takes away: every instance the design ends
    with was there before with the same data, every instance whose cell is
    not a buffer is still there, no net is added, and the connection of
    every top-level port is as before.  The number it reports is the
    number of instances removed.  The recorded design area is not
    touched. *)
Theorem removeBuffers_frame `{Design} (r r' : Resizer) :
  removeBuffers r = Some r' →
  Z.of_nat (size (nl_insts (netlist r))) ≤ int_max →
  (∀ i d, nl_insts (netlist r') !! i = Some d →
          nl_insts (netlist r) !! i = Some d)
  ∧ (∀ i d, nl_insts (netlist r) !! i = Some d →
            isBuffer (inst_master d) = false →
            nl_insts (netlist r') !! i = Some d)
  ∧ nl_nets (netlist r') ⊆ nl_nets (netlist r)
  ∧ (∀ q, pin_net (netlist r') (TopPin q) = pin_net (netlist r) (TopPin q))
  ∧ messages r'
    = messages r
      ++ [Printf ("Removed "
                  +:+ pretty (Z.of_nat (size (nl_insts (netlist r)))
                              - Z.of_nat (size (nl_insts (netlist r'))))
                  +:+ " buffers." +:+ newline)]
  ∧ design_area r' = design_area r.
Proof.
  unfold removeBuffers. intros Hrun Hbound.
  destruct (foldl _ _ _) as [[nl c]|] eqn:E; [|done].
  simpl in Hrun. injection Hrun as <-.
  apply removeBuffers_fold_frame in E as (Hsub & Hkeep & Hnets & Htop & Hc);
    [|done|lia].
  assert (netlist (printf ("Removed " +:+ pretty c +:+ " buffers."
                           +:+ newline) (set_netlist nl r)) = nl) as ->
    by (by destruct r).
  repeat (split; [done|]). split; [|by destruct r].
  replace (Z.of_nat (size (nl_insts (netlist r)))
           - Z.of_nat (size (nl_insts nl))) with c by lia.
  by destruct r.
Qed.

Lemma removeBuffers_frame_witness :
  let D := example_design in
  let r := set_netlist example_buffered_netlist example_resizer in
  let r' := default r (removeBuffers (H := D) r) in
  (removeBuffers (H := D) r = Some r'
   ∧ Z.of_nat (size (nl_insts (netlist r))) ≤ int_max)
  ∧ messages r' = [Printf ("Removed 1 buffers." +:+ newline)]
  ∧ dom (nl_insts (netlist r')) = {[ "U0"; "U1"; "U2" ]}.
Proof.
  intros D r r'.
  assert (removeBuffers (H := D) r = Some r') as H1 by (by vm_compute).
  assert (Z.of_nat (size (nl_insts (netlist r))) ≤ int_max) as H2
    by (by vm_compute).
  split; [exact (conj H1 H2)|].
  pose proof (removeBuffers_frame (H := D) r r' H1 H2) as Hspec.
  split; [|by vm_compute].
  destruct Hspec as (_ & _ & _ & _ & Hm & _). rewrite Hm. by vm_compute.
Defined.

(** ** The recorded design area *)

Lemma foldl_Qcplus {A} (f : A → Qc) (l : list A) (a : Qc) :
  foldl (λ acc x, (acc + f x)%Qc) a l = (a + foldr Qcplus 0%Qc (f <$> l))%Qc.
Proof.
  revert a. induction l as [|x l IH]; intros a.
  - simpl. ring.
  - cbn [foldl]. rewrite IH, fmap_cons. cbn [foldr]. ring.
Qed.

Lemma foldr_Qcplus_perm (l1 l2 : list Qc) :
  l1 ≡ₚ l2 → foldr Qcplus 0%Qc l1 = foldr Qcplus 0%Qc l2.
Proof.
  induction 1 as [|x l1 l2 _ IH|x y l|l1 l2 l3 _ IH1 _ IH2]; simpl.
  - done.
  - by rewrite IH.
  - ring.
  - by rewrite IH1.
Qed.

(** The area the masters of a design add up to. *)
Lemma findDesignArea_masters `{Design} (nl : Netlist) :
  findDesignArea nl
  = foldr Qcplus 0%Qc
      (area <$> (map_to_list (inst_master <$> nl_insts nl)).*2).
Proof.
  unfold findDesignArea. rewrite foldl_Qcplus.
  rewrite map_to_list_fmap, <- !list_fmap_compose.
  rewrite Qcplus_0_l. done.
Qed.

Lemma findDesignArea_ext `{Design} (nl nl' : Netlist) :
  inst_master <$> nl_insts nl' = inst_master <$> nl_insts nl →
  findDesignArea nl' = findDesignArea nl.
Proof. intros E. by rewrite !findDesignArea_masters, E. Qed.

Lemma findDesignArea_insert `{Design} (nl nl' : Netlist) (i : Instance)
    (c : LibertyCell) :
  inst_master <$> nl_insts nl' = <[i := c]> (inst_master <$> nl_insts nl) →
  nl_insts nl !! i = None →
  findDesignArea nl' = (findDesignArea nl + area c)%Qc.
Proof.
  intros E Hfresh. rewrite !findDesignArea_masters, E.
  rewrite (foldr_Qcplus_perm _
             (area <$> ((i, c) :: map_to_list (inst_master <$> nl_insts nl)).*2)).
  - rewrite !fmap_cons. cbn [foldr snd]. ring.
  - apply fmap_Permutation, fmap_Permutation, map_to_list_insert.
    by rewrite lookup_fmap, Hfresh.
Qed.

Lemma findDesignArea_replace `{Design} (nl nl' : Netlist) (i : Instance)
    (d : InstData) (c : LibertyCell) :
  inst_master <$> nl_insts nl' = <[i := c]> (inst_master <$> nl_insts nl) →
  nl_insts nl !! i = Some d →
  findDesignArea nl'
  = (findDesignArea nl - area (inst_master d) + area c)%Qc.
Proof.
  intros E Hd. rewrite !findDesignArea_masters, E.
  assert (inst_master <$> nl_insts nl
          = <[i := inst_master d]> (delete i (inst_master <$> nl_insts nl)))
    as Hsplit.
  { symmetry. apply insert_delete_id. by rewrite lookup_fmap, Hd. }
  rewrite Hsplit at 2. rewrite <- (insert_delete_eq (_ <$> _)).
  rewrite (foldr_Qcplus_perm _
             (area <$> ((i, c) :: map_to_list
                                    (delete i (inst_master <$> nl_insts nl))).*2)).
  2:{ apply fmap_Permutation, fmap_Permutation, map_to_list_insert.
      apply lookup_delete_eq. }
  rewrite (foldr_Qcplus_perm
             (area <$> (map_to_list (<[i := inst_master d]> _)).*2)
             (area <$> ((i, inst_master d)
                        :: map_to_list
                             (delete i (inst_master <$> nl_insts nl))).*2)).
  2:{ apply fmap_Permutation, fmap_Permutation, map_to_list_insert.
      apply lookup_delete_eq. }
  rewrite !fmap_cons. cbn [foldr snd]. ring.
Qed.

Lemma area_recorded_same `{Design} (r r' : Resizer) :
  design_area r' = design_area r →
  inst_master <$> nl_insts (netlist r')
  = inst_master <$> nl_insts (netlist r) →
  area_recorded r → area_recorded r'.
Proof.
  unfold area_recorded. intros -> E ->. symmetry.
  by apply findDesignArea_ext.
Qed.

Lemma unique_name_loop_fresh (fuel : nat) (found : string → bool)
    (print : Z → string) (index index' : Z) (name : string) :
  unique_name_loop fuel found print index = Some (name, index') →
  found name = false.
Proof.
  revert index. induction fuel as [|fuel IH]; intros index; [done|].
  cbn [unique_name_loop].
  destruct (found (print index)) eqn:E; [apply IH|].
  by intros [= <- _].
Qed.

Lemma makeUniqueNetName_inv (r r1 : Resizer) (name : string) :
  makeUniqueNetName r = Some (name, r1) →
  (∃ k, r1 = set_unique_net_index k r) ∧ (name ∉ nl_nets (netlist r)).
Proof.
  unfold makeUniqueNetName.
  destruct (unique_name_loop _ _ _ _) as [[n k]|] eqn:E; [|done]. simpl.
  intros [= <- <-]. split; [by eexists|].
  apply unique_name_loop_fresh in E. unfold findNet in E.
  by apply bool_decide_eq_false in E.
Qed.

Lemma makeUniqueInstName_inv (base : string) (underscore : bool)
    (r r1 : Resizer) (name : string) :
  makeUniqueInstName base underscore r = Some (name, r1) →
  (∃ k, r1 = set_unique_inst_index k r)
  ∧ nl_insts (netlist r) !! name = None.
Proof.
  unfold makeUniqueInstName.
  destruct (unique_name_loop _ _ _ _) as [[n k]|] eqn:E; [|done]. simpl.
  intros [= <- <-]. split; [by eexists|].
  apply unique_name_loop_fresh in E. unfold findInstance in E.
  apply bool_decide_eq_false in E.
  destruct (nl_insts (netlist r) !! n) eqn:Hn; [|done].
  exfalso. apply E. by eexists.
Qed.

Lemma nl_insts_foldl_reconnectPin (n : Net) (l : list Pin) (nl : Netlist) :
  nl_insts (foldl (reconnectPin n) nl l) = nl_insts nl.
Proof. revert nl. induction l as [|p l IH]; intros nl; [done|]. simpl. by rewrite IH. Qed.

(** [bufferInput] adds the area of the buffer it creates. *)
Lemma bufferInput_area_recorded `{Design} (top_pin : Pin) (input_net : Net)
    (buffer_cell : LibertyCell) (r r' : Resizer) :
  bufferInput top_pin input_net buffer_cell r = Some r' →
  area_recorded r → area_recorded r'.
Proof.
  unfold bufferInput.
  destruct (bufferPorts buffer_cell) as [input output].
  destruct (makeUniqueNetName r) as [[n r1]|] eqn:E1; [|done]. simpl.
  apply makeUniqueNetName_inv in E1 as [[k1 ->] _].
  destruct (makeUniqueInstName "input" false (set_unique_net_index k1 r))
    as [[b r2]|] eqn:E2; [|done]. simpl.
  apply makeUniqueInstName_inv in E2 as [[k2 ->] Hfresh].
  assert (nl_insts (netlist r) !! b = None) as Hb by (by destruct r).
  unfold makeInstance. destruct (findMaster buffer_cell) as [m|] eqn:Hm.
  - intros [= <-]. unfold area_recorded. intros Hrec.
    destruct r. simpl in *. unfold edit. simpl.
    change (bufferInput_pin top_pin n)
      with (removeBuffers_pin top_pin n).
    match goal with
    | |- context [foldl ?f ?a ?l] =>
        destruct (foldl_removeBuffers_pin top_pin n l a)
          as (_ & _ & Hfi & _ & _)
    end.
    match type of Hrec with
    | _ = findDesignArea ?nl =>
        rewrite (findDesignArea_insert nl _ b buffer_cell);
          [by rewrite Hrec| |done]
    end.
    simpl. rewrite Hfi. simpl. by rewrite alter_insert_eq, fmap_insert.
  - intros [= <-]. apply area_recorded_same; by destruct r.
Qed.

Lemma bufferInputs_loop_area_recorded `{Design} `{Timer}
    (buffer_cell : LibertyCell) (pins : list Pin) (r r' : Resizer) :
  bufferInputs_loop buffer_cell (Some r) pins = Some r' →
  area_recorded r → area_recorded r'.
Proof.
  unfold bufferInputs_loop. revert r.
  induction pins as [|pin pins IH]; intros r.
  - by intros [= <-].
  - cbn [foldl].
    replace (Some r ≫= λ r0, bufferInputs_port buffer_cell r0 pin)
      with (bufferInputs_port buffer_cell r pin) by done.
    destruct (bufferInputs_port buffer_cell r pin) as [r1|] eqn:E.
    2:{ by rewrite foldl_option_None. }
    intros Hrest Hrec. apply (IH r1 Hrest).
    unfold bufferInputs_port in E.
    destruct (isInput (direction pin) && negb (isClock pin));
      [|by injection E as <-].
    destruct (pin_net (netlist r) pin) as [net|]; [|done]. simpl in E.
    destruct (negb (isSpecial (netlist r) net)); [|by injection E as <-].
    by apply (bufferInput_area_recorded _ _ _ _ _ E).
Qed.

(** X8. [bufferInputs] keeps the recorded design area in step with the
    netlist: when [design_area] is the area [findDesignArea] adds up
    before the pass, it is so after it (areas taken as exact numbers). *)
Theorem bufferInputs_area_recorded `{Design} `{Timer}
    (buffer_cell : LibertyCell) (r r' : Resizer) :
  bufferInputs buffer_cell r = Some r' →
  area_recorded r → area_recorded r'.
Proof.
  unfold bufferInputs. intros Hrun Hrec.
  destruct (bufferInputs_loop _ _ _) as [r1|] eqn:E; [|done].
  simpl in Hrun.
  apply bufferInputs_loop_area_recorded in E.
  2:{ revert Hrec. apply area_recorded_same; by destruct r. }
  destruct (bool_decide (0 < inserted_buffer_count r1));
    injection Hrun as <-; [|done].
  revert E. apply area_recorded_same; by destruct r1.
Qed.

Lemma bufferInputs_area_recorded_witness :
  let D := example_design in
  let T := example_timer in
  let r := set_design_area (findDesignArea (H := D) example_netlist)
             example_resizer in
  let r' := default r (bufferInputs (H := D) (H0 := T) "BUF_X1" r) in
  (bufferInputs (H := D) (H0 := T) "BUF_X1" r = Some r'
   ∧ area_recorded (H := D) r)
  ∧ area_recorded (H := D) r'
  ∧ size (nl_insts (netlist r')) = 3%nat.
Proof.
  intros D T r r'.
  assert (bufferInputs (H := D) (H0 := T) "BUF_X1" r = Some r') as H1
    by (by vm_compute).
  assert (area_recorded (H := D) r) as H2 by done.
  split; [exact (conj H1 H2)|].
  split; [|by vm_compute].
  exact (bufferInputs_area_recorded (H := D) (H0 := T) "BUF_X1" r r' H1 H2).
Defined.

Lemma area_cell_master `{Design} (cell : LibertyCell) (m : Master) :
  findMaster cell = Some m → area cell = master_area m.
Proof. unfold area. by intros ->. Qed.

(** [resizeToTargetSlew(drvr_pin)] takes the area of the old master off
    and adds that of the new one. *)
Lemma resizeToTargetSlew_pin_area_recorded `{Design} `{Timer} `{Steiner}
    (drvr_pin : Pin) (r : Resizer) :
  area_recorded r → area_recorded (resizeToTargetSlew_pin drvr_pin r).
Proof.
  intros Hrec. unfold resizeToTargetSlew_pin.
  destruct (pin_instance drvr_pin) as [inst|]; [|done].
  destruct (nl_insts (netlist r) !! inst) as [dinst|] eqn:Hinst; [|done].
  destruct (hasLibertyCell (inst_master dinst)); [|done].
  destruct (equivCells (inst_master dinst)) as [equiv_cells|]; [|done].
  set (revisiting_inst := hasMultipleOutputs (netlist r) inst
                          && bool_decide (inst ∈ resized_multi_output_insts r)).
  set (r1 := if hasMultipleOutputs (netlist r) inst
             then set_resized_multi_output_insts
                    ({[inst]} ∪ resized_multi_output_insts r) r
             else r).
  destruct (ensureWireParasitic_frame drvr_pin r1) as [ps ->].
  set (r2 := set_parasitics ps r1).
  assert (netlist r2 = netlist r ∧ design_area r2 = design_area r)
    as [Hnl2 Hda2].
  { unfold r2, r1. destruct (hasMultipleOutputs (netlist r) inst);
      by destruct r. }
  assert (area_recorded r2) as Hrec2.
  { revert Hrec. apply area_recorded_same; [done|by rewrite Hnl2]. }
  destruct (Qc_ltb 0 (loadCap (netlist r2) (parasitics r2) drvr_pin));
    [|done].
  match goal with
  | |- context [foldl (resize_candidate ?a ?b ?c ?d) ?e ?f] =>
      set (best := foldl (resize_candidate a b c d) e f)
  end.
  match goal with
  | |- context [set_target_load_map ?m r2] =>
      set (r3 := set_target_load_map m r2)
  end.
  assert (netlist r3 = netlist r ∧ design_area r3 = design_area r)
    as [Hnl3 Hda3].
  { unfold r3. rewrite <- Hnl2, <- Hda2. by destruct r2. }
  assert (area_recorded r3) as Hrec3.
  { revert Hrec. apply area_recorded_same; [done|by rewrite Hnl3]. }
  destruct (decide (best_cell best ≠ inst_master dinst)); [|done].
  destruct (findMaster (best_cell best)) as [best_master|] eqn:Hbm; [|done].
  match goal with
  | |- area_recorded (if ?c then delete_instance_parasitics inst ?x else ?x) =>
      assert (∃ ps', (if c then delete_instance_parasitics inst x else x)
                     = set_parasitics ps' x) as [ps' ->]
  end.
  { match goal with |- ∃ _, (if ?c then _ else _) = _ => destruct c end.
    - apply delete_instance_parasitics_frame.
    - eexists. by rewrite set_parasitics_same. }
  unfold area_recorded in *.
  assert (∀ (b : bool) x,
            netlist (if b then set_resize_count (int_incr (resize_count x)) x
                     else x) = netlist x
            ∧ design_area (if b then set_resize_count
                                       (int_incr (resize_count x)) x
                           else x) = design_area x) as Hif.
  { intros [] x; by destruct x. }
  match goal with
  | |- design_area (set_parasitics _ (set_design_area ?a ?x)) = _ =>
      assert (design_area (set_parasitics ps' (set_design_area a x)) = a
              ∧ netlist (set_parasitics ps' (set_design_area a x))
                = netlist x) as [-> ->]
        by (split; by destruct x)
  end.
  destruct (Hif (negb revisiting_inst)
                (edit (replaceCell inst (best_cell best))
                   (set_design_area
                      (design_area r3 - area (inst_master dinst))%Qc r3)))
    as [-> ->].
  assert (∀ a f x, design_area (edit f (set_design_area a x)) = a
                   ∧ netlist (edit f (set_design_area a x)) = f (netlist x))
    as Hed by (intros a f x; split; by destruct x).
  destruct (Hed (design_area r3 - area (inst_master dinst))%Qc
                (replaceCell inst (best_cell best)) r3) as [-> ->].
  rewrite Hnl3, Hda3.
  rewrite (findDesignArea_replace (netlist r) _ inst dinst (best_cell best));
    [|simpl|done].
  - rewrite Hrec. by rewrite (area_cell_master _ _ Hbm).
  - apply map_eq. intros i. rewrite lookup_fmap.
    destruct (decide (i = inst)) as [->|Hne].
    + by rewrite lookup_alter_eq, lookup_insert_eq, Hinst.
    + by rewrite lookup_alter_ne, lookup_insert_ne, lookup_fmap by done.
Qed.

Lemma resizeToTargetSlew_loop_area_recorded `{Design} `{Timer} `{Steiner}
    (drvrs : list Pin) (r : Resizer) :
  area_recorded r → area_recorded (resizeToTargetSlew_loop drvrs r).
Proof.
  revert r. induction drvrs as [|drvr drvrs IH]; intros r Hrec; [done|].
  cbn [resizeToTargetSlew_loop].
  destruct (resize_eligible (netlist r) drvr); [|by apply IH].
  pose proof (resizeToTargetSlew_pin_area_recorded drvr r Hrec) as Hrec1.
  destruct (overMaxArea _); [|by apply IH].
  revert Hrec1. apply area_recorded_same;
    by destruct (resizeToTargetSlew_pin drvr r).
Qed.

Lemma ensureWireParasitics_area_recorded `{Design} `{Timer} `{Steiner}
    (r : Resizer) :
  area_recorded r → area_recorded (ensureWireParasitics r).
Proof.
  destruct (ensureWireParasitics_frame r) as [ps ->].
  apply area_recorded_same; by destruct r.
Qed.

(** X9. [resizeToTargetSlew] keeps the recorded design area in step with
    the netlist: every swap takes the area of the old master off and adds
    the area of the new one, so when [design_area] is what
    [findDesignArea] adds up before the pass, it is so after it (areas
    taken as exact numbers). *)
Theorem resizeToTargetSlew_area_recorded `{Design} `{Timer} `{Steiner}
    (r : Resizer) :
  area_recorded r → area_recorded (resizeToTargetSlew r).
Proof.
  intros Hrec. unfold resizeToTargetSlew.
  match goal with
  | |- area_recorded (printf ?t ?x) =>
      assert (area_recorded x) as Hx;
      [|revert Hx; apply area_recorded_same; by destruct x]
  end.
  apply ensureWireParasitics_area_recorded.
  apply resizeToTargetSlew_loop_area_recorded.
  revert Hrec. apply area_recorded_same; by destruct r.
Qed.

Lemma resizeToTargetSlew_area_recorded_witness :
  let D := example_design in
  let T := example_timer in
  let S := example_steiner in
  let r := set_design_area (findDesignArea (H := D) example_sizer_netlist)
             example_sizer in
  area_recorded (H := D) r
  ∧ area_recorded (H := D)
      (resizeToTargetSlew (H := D) (H0 := T) (H1 := S) r)
  ∧ nl_edits (netlist (resizeToTargetSlew (H := D) (H0 := T) (H1 := S) r))
    = [EReplaceCell "ff1" "DFF_X2"; EReplaceCell "b2" "BUF_X1"].
Proof.
  intros D T S r.
  assert (area_recorded (H := D) r) as H1 by done.
  split; [exact H1|]. split; [|by vm_compute].
  exact (resizeToTargetSlew_area_recorded (H := D) (H0 := T) (H1 := S) r H1).
Defined.

Lemma makeHoldDelay_buffers_area_recorded `{Design} (count : nat) (i : Z)
    (drvr_loc : Point) (dx dy : Z) (buffer_cell : LibertyCell) (in_net : Net)
    (out_net out_net' : option Net) (r r' : Resizer) :
  makeHoldDelay_buffers count i drvr_loc dx dy buffer_cell in_net out_net r
  = Some (r', out_net') →
  area_recorded r → area_recorded r'.
Proof.
  revert i in_net out_net r.
  induction count as [|count IH]; intros i in_net out_net r.
  - by intros [= <- _].
  - cbn [makeHoldDelay_buffers].
    destruct (makeUniqueNetName r) as [[n1 r1]|] eqn:E1; [|done]. simpl.
    apply makeUniqueNetName_inv in E1 as [[k1 ->] _].
    destruct (makeUniqueInstName "hold" false
                (edit (makeNet n1) (set_unique_net_index k1 r)))
      as [[b r2]|] eqn:E2; [|done]. simpl.
    apply makeUniqueInstName_inv in E2 as [[k2 ->] Hfresh].
    assert (nl_insts (netlist r) !! b = None) as Hb by (by destruct r).
    unfold makeInstance. destruct (findMaster buffer_cell) as [m|]; [|done].
    simpl. destruct (bufferPorts buffer_cell) as [input output].
    intros Hrec1 Hrec. apply IH in Hrec1; [done|]. clear IH Hrec1.
    unfold area_recorded in *. destruct r. simpl in *. unfold edit. simpl.
    match type of Hrec with
    | _ = findDesignArea ?nl =>
        rewrite (findDesignArea_insert nl _ b buffer_cell);
          [by rewrite Hrec| |done]
    end.
    simpl. by rewrite alter_insert_eq, fmap_insert.
Qed.

Lemma makeHoldDelay_area_recorded `{Design} `{Timer} `{Steiner}
    (drvr_pin : Pin) (buffer_count : Z) (load_pins : list Pin)
    (buffer_cell : LibertyCell) (r r' : Resizer) :
  makeHoldDelay drvr_pin buffer_count load_pins buffer_cell r = Some r' →
  area_recorded r → area_recorded r'.
Proof.
  unfold makeHoldDelay.
  destruct (pin_net (netlist r) drvr_pin) as [drvr_net|]; [|done]. simpl.
  destruct (makeHoldDelay_buffers _ _ _ _ _ _ _ _ _) as [[r1 out]|] eqn:E;
    [|done]. simpl.
  destruct out as [out_net|]; [|done]. simpl.
  intros Hrun Hrec.
  apply makeHoldDelay_buffers_area_recorded in E; [|done].
  set (r2 := edit (λ nl, foldl (reconnectPin out_net) nl load_pins) r1) in *.
  assert (area_recorded r2) as Hrec2.
  { revert E. apply area_recorded_same; [by destruct r1|].
    unfold r2. destruct r1. simpl. by rewrite nl_insts_foldl_reconnectPin. }
  destruct (have_estimated_parasitics r2); injection Hrun as <-; [|done].
  destruct (estimateWireParasitic_frame drvr_net r2) as [ps1 ->].
  destruct (estimateWireParasitic_frame out_net (set_parasitics ps1 r2))
    as [ps2 ->].
  revert Hrec2. apply area_recorded_same; by destruct r2.
Qed.

Lemma repairHoldPass_loop_area_recorded `{Design} `{Timer} `{Steiner}
    (sorted_fanins : list Pin) (repair_count max_repair_count : Z)
    (buffer_cell : LibertyCell) (buffer_delay : Qc) (allow : bool)
    (r r' : Resizer) (n : Z) :
  repairHoldPass_loop sorted_fanins repair_count max_repair_count buffer_cell
    buffer_delay allow r = Some (n, r') →
  area_recorded r → area_recorded r'.
Proof.
  revert repair_count r.
  induction sorted_fanins as [|v fanins IH]; intros repair_count r.
  - by intros [= _ <-].
  - cbn [repairHoldPass_loop].
    destruct (bool_decide (repair_count < max_repair_count));
      [|by intros [= _ <-]].
    destruct (Qc_ltb (vertexSlack_min (netlist r) v) 0); [|apply IH].
    destruct (pin_net (netlist r) v) as [net|]; [|done]. simpl.
    destruct (negb (isSpecial (netlist r) net)); [|apply IH].
    destruct (repairHoldPass_vertex _ _ _ _) as [[[buffer_count load_pins]|]|];
      [| apply IH | done].
    simpl.
    destruct (makeHoldDelay v buffer_count load_pins buffer_cell r)
      as [r1|] eqn:E; [|done]. simpl.
    intros Hrun Hrec.
    pose proof (makeHoldDelay_area_recorded _ _ _ _ _ _ E Hrec) as Hrec1.
    destruct (overMaxArea r1).
    + injection Hrun as _ <-. revert Hrec1.
      apply area_recorded_same; by destruct r1.
    + by apply (IH _ _ Hrun).
Qed.

(** X10. A hold-repair pass keeps the recorded design area in step with
    the netlist: every hold buffer adds the area of the buffer cell, so
    when [design_area] is what [findDesignArea] adds up before
    [repairHoldPass], it is so after it (areas taken as exact
    numbers). *)
Theorem repairHoldPass_area_recorded `{Design} `{Timer} `{Steiner}
    (hold_failures : list Pin) (buffer_cell : LibertyCell)
    (buffer_delay : Qc) (allow_setup_violations : bool) (r r' : Resizer)
    (repair_count : Z) :
  repairHoldPass hold_failures buffer_cell buffer_delay
    allow_setup_violations r = Some (repair_count, r') →
  area_recorded r → area_recorded r'.
Proof. unfold repairHoldPass. apply repairHoldPass_loop_area_recorded. Qed.

Lemma repairHoldPass_area_recorded_witness :
  let D := example_design in
  let T := example_hold_timer in
  let S := example_steiner in
  let r := set_design_area (findDesignArea (H := D) example_hold_netlist)
             example_hold in
  let run := repairHoldPass (H := D) (H0 := T) (H1 := S) [InstPin "FF" "D"]
               "BUF_X1" 1%Qc false r in
  (run = Some (1, default r (snd <$> run)) ∧ area_recorded (H := D) r)
  ∧ area_recorded (H := D) (default r (snd <$> run))
  ∧ size (nl_insts (netlist (default r (snd <$> run)))) = 3%nat.
Proof.
  intros D T S r run.
  assert (run = Some (1, default r (snd <$> run))) as H1 by (by vm_compute).
  assert (area_recorded (H := D) r) as H2 by done.
  split; [exact (conj H1 H2)|]. split; [|by vm_compute].
  exact (repairHoldPass_area_recorded (H := D) (H0 := T) (H1 := S)
           [InstPin "FF" "D"] "BUF_X1" 1%Qc false r _ 1 H1 H2).
Defined.

(** ** What the gate sizer changes *)

(** The best cell after the candidate loop is the first one or a
    candidate that may be used. *)
Lemma resize_candidates_best_cell `{Design} `{Timer} (r : Resizer)
    (is_buf_inv revisiting_inst : bool) (load_cap : Qc)
    (cells : list LibertyCell) (best : Best) :
  best_cell (foldl (resize_candidate r is_buf_inv revisiting_inst load_cap)
                   best cells) = best_cell best
  ∨ (best_cell (foldl (resize_candidate r is_buf_inv revisiting_inst load_cap)
                      best cells) ∈ cells
     ∧ dontUse r (best_cell (foldl (resize_candidate r is_buf_inv
                                      revisiting_inst load_cap) best cells))
       = false).
Proof.
  revert best. induction cells as [|c cells IH]; intros best; [by left|].
  cbn [foldl].
  destruct (IH (resize_candidate r is_buf_inv revisiting_inst load_cap best c))
    as [Hsame|[Hin Hok]].
  - rewrite Hsame. unfold resize_candidate.
    destruct (dontUse r c) eqn:Hc; [by left|]. cbn [negb].
    destruct (resize_accepts _ _ _ _ _ _); [|by left].
    right. simpl. split; [by left|done].
  - right. split; [by right|done].
Qed.

Lemma resized_from_refl `{Design} (r : Resizer) (d : InstData) :
  resized_from r d d.
Proof. repeat split. by left. Qed.

Lemma resized_to_refl `{Design} (r : Resizer) (nl : Netlist) :
  resized_to r nl nl.
Proof.
  repeat split. intros i. destruct (nl_insts nl !! i); constructor.
  apply resized_from_refl.
Qed.

Lemma resized_to_trans `{Design} (r : Resizer) (nl1 nl2 nl3 : Netlist) :
  resized_to r nl1 nl2 → resized_to r nl2 nl3 → resized_to r nl1 nl3.
Proof.
  intros (Hn & Hs & Hc & Hi) (Hn' & Hs' & Hc' & Hi').
  split; [congruence|]. split; [congruence|]. split; [congruence|].
  intros i. specialize (Hi i). specialize (Hi' i).
  destruct Hi as [d1 d2 H12|]; inversion Hi' as [? d3 H23|]; constructor.
  destruct H12 as (Hl & Hp & Hm), H23 as (Hl' & Hp' & Hm').
  split; [congruence|]. split; [congruence|].
  destruct Hm' as [Hm'|?]; [|by right].
  rewrite Hm'. done.
Qed.

Lemma resized_to_dont_use `{Design} (r1 r2 : Resizer) (nl nl' : Netlist) :
  dont_use r1 = dont_use r2 → resized_to r1 nl nl' → resized_to r2 nl nl'.
Proof.
  intros E (Hn & Hs & Hc & Hi). repeat (split; [done|]).
  intros i. specialize (Hi i). destruct Hi as [d d' H12|]; constructor.
  unfold resized_from, dontUse in *. by rewrite <- E.
Qed.

(** One driver: the netlist is left as it is but for the cell of the
    instance of the driver. *)
Lemma resizeToTargetSlew_pin_resized `{Design} `{Timer} `{Steiner}
    (drvr_pin : Pin) (r : Resizer) :
  resized_to r (netlist r) (netlist (resizeToTargetSlew_pin drvr_pin r))
  ∧ dont_use (resizeToTargetSlew_pin drvr_pin r) = dont_use r.
Proof.
  unfold resizeToTargetSlew_pin.
  pose proof (resized_to_refl r (netlist r)) as Hrefl.
  destruct (pin_instance drvr_pin) as [inst|]; [|done].
  destruct (nl_insts (netlist r) !! inst) as [dinst|] eqn:Hinst; [|done].
  destruct (hasLibertyCell (inst_master dinst)); [|done].
  destruct (equivCells (inst_master dinst)) as [equiv_cells|]; [|done].
  set (revisiting_inst := hasMultipleOutputs (netlist r) inst
                          && bool_decide (inst ∈ resized_multi_output_insts r)).
  set (r1 := if hasMultipleOutputs (netlist r) inst
             then set_resized_multi_output_insts
                    ({[inst]} ∪ resized_multi_output_insts r) r
             else r).
  destruct (ensureWireParasitic_frame drvr_pin r1) as [ps ->].
  set (r2 := set_parasitics ps r1).
  assert (netlist r2 = netlist r ∧ dont_use r2 = dont_use r) as [Hnl2 Hdu2].
  { unfold r2, r1. destruct (hasMultipleOutputs (netlist r) inst);
      by destruct r. }
  destruct (Qc_ltb 0 (loadCap (netlist r2) (parasitics r2) drvr_pin));
    [|by rewrite Hnl2, Hdu2].
  match goal with
  | |- context [foldl (resize_candidate ?a ?b ?c ?d) ?e ?f] =>
      pose proof (resize_candidates_best_cell a b c d f e) as Hbest;
      set (best := foldl (resize_candidate a b c d) e f) in *
  end.
  match goal with
  | |- context [set_target_load_map ?m r2] =>
      set (r3 := set_target_load_map m r2)
  end.
  assert (netlist r3 = netlist r ∧ dont_use r3 = dont_use r) as [Hnl3 Hdu3].
  { unfold r3. rewrite <- Hnl2, <- Hdu2. by destruct r2. }
  destruct (decide (best_cell best ≠ inst_master dinst)) as [Hne|];
    [|by rewrite Hnl3, Hdu3].
  destruct (findMaster (best_cell best)) as [best_master|] eqn:Hbm;
    [|by rewrite Hnl3, Hdu3].
  match goal with
  | |- context [if ?c then delete_instance_parasitics inst ?x else ?x] =>
      assert (∃ ps', (if c then delete_instance_parasitics inst x else x)
                     = set_parasitics ps' x) as [ps' ->]
  end.
  { match goal with |- ∃ _, (if ?c then _ else _) = _ => destruct c end.
    - apply delete_instance_parasitics_frame.
    - eexists. by rewrite set_parasitics_same. }
  match goal with
  | |- context [set_parasitics ps' ?x] =>
      assert (netlist (set_parasitics ps' x)
              = replaceCell inst (best_cell best) (netlist r)
              ∧ dont_use (set_parasitics ps' x) = dont_use r) as [-> ->]
  end.
  { rewrite <- Hnl3, <- Hdu3. destruct (negb revisiting_inst); by destruct r3. }
  split; [|done]. repeat (split; [done|]).
  intros i. simpl. destruct (decide (i = inst)) as [->|Hi].
  - rewrite lookup_alter_eq, Hinst. constructor.
    repeat (split; [done|]). right. simpl. split; [|by eexists].
    destruct Hbest as [Hsame|[_ Hok]]; [done|].
    unfold dontUse in *. by rewrite <- Hdu2.
  - rewrite lookup_alter_ne by done.
    destruct (nl_insts (netlist r) !! i); constructor.
    apply resized_from_refl.
Qed.

Lemma resizeToTargetSlew_loop_resized `{Design} `{Timer} `{Steiner}
    (drvrs : list Pin) (r : Resizer) :
  resized_to r (netlist r) (netlist (resizeToTargetSlew_loop drvrs r))
  ∧ dont_use (resizeToTargetSlew_loop drvrs r) = dont_use r.
Proof.
  revert r. induction drvrs as [|drvr drvrs IH]; intros r.
  - split; [apply resized_to_refl|done].
  - cbn [resizeToTargetSlew_loop].
    destruct (resize_eligible (netlist r) drvr); [|apply IH].
    destruct (resizeToTargetSlew_pin_resized drvr r) as [Hpin Hdu].
    destruct (overMaxArea _).
    + assert (∀ t x, netlist (warn t x) = netlist x
                     ∧ dont_use (warn t x) = dont_use x) as Hw
        by (intros t x; by destruct x).
      destruct (Hw "Max utilization reached."
                   (resizeToTargetSlew_pin drvr r)) as [-> ->]. done.
    + destruct (IH (resizeToTargetSlew_pin drvr r)) as [Hrest Hdu'].
      split; [|congruence].
      apply (resized_to_trans r _ _ _ Hpin).
      by apply (resized_to_dont_use _ _ _ _ Hdu).
Qed.

(** X11. [resizeToTargetSlew] changes nothing of the netlist but the
    cells of instances: nets, special flags, connections, the set of
    instances and their placement are as before, and every instance has
    the cell it had or a cell that may be used (neither its [dont_use]
    attribute nor the resizer's list forbids it) and that has a LEF
    master. *)
Theorem resizeToTargetSlew_resized `{Design} `{Timer} `{Steiner}
    (r : Resizer) :
  resized_to r (netlist r) (netlist (resizeToTargetSlew r)).
Proof.
  unfold resizeToTargetSlew.
  set (r0 := set_resized_multi_output_insts ∅ (set_resize_count 0 r)).
  assert (netlist r0 = netlist r ∧ dont_use r0 = dont_use r) as [Hnl0 Hdu0]
    by (by destruct r).
  destruct (resizeToTargetSlew_loop_resized (rev (level_drvr_verticies r0)) r0)
    as [Hloop _].
  destruct (ensureWireParasitics_frame
              (resizeToTargetSlew_loop (rev (level_drvr_verticies r0)) r0))
    as [ps ->].
  match goal with
  | |- resized_to r _ (netlist (printf ?t (set_parasitics ps ?x))) =>
      assert (netlist (printf t (set_parasitics ps x)) = netlist x) as ->
        by (by destruct x)
  end.
  rewrite <- Hnl0 at 1. by apply (resized_to_dont_use r0 r).
Qed.

Example resizeToTargetSlew_resized_example :
  let r := setDontUse (Some ["DFF_X2"]) example_sizer in
  let r' := resizeToTargetSlew (H := example_design) (H0 := example_timer)
              (H1 := example_steiner) r in
  inst_master <$> nl_insts (netlist r') !! "ff1" = Some "DFF_X1"
  ∧ inst_master <$> nl_insts (netlist r') !! "b2" = Some "BUF_X1"
  ∧ inst_master
      <$> nl_insts (netlist (resizeToTargetSlew (H := example_design)
                               (H0 := example_timer) (H1 := example_steiner)
                               example_sizer)) !! "ff1" = Some "DFF_X2".
Proof. by vm_compute. Qed.

(** ** How much a hold-repair pass inserts *)

Lemma repairHoldPass_vertex_count `{Timer} (nl : Netlist) (vertex : Pin)
    (buffer_delay : Qc) (allow : bool) (block : option (Z * list Pin)) :
  repairHoldPass_vertex nl vertex buffer_delay allow = Some block →
  match block with
  | Some (buffer_count, load_pins) => buffer_count = 1 ∧ load_pins ≠ []
  | None => True
  end.
Proof.
  unfold repairHoldPass_vertex.
  pose proof (repairHoldPass_edges_delay nl allow (vertexOutEdges nl vertex)
                (INF, [])) as Hinv.
  destruct (foldl (repairHoldPass_edge nl allow) (INF, [])
                  (vertexOutEdges nl vertex)) as [bd loads].
  simpl in Hinv. destruct loads as [|l loads]; [by intros [= <-]|].
  destruct Hinv as [[_ ?]|(d & -> & Hd)]; [by left|done|].
  simpl. rewrite ceil_int_self by done. by intros [= <-].
Qed.

(** One hold buffer: one more instance, counted once. *)
Lemma makeHoldDelay_one `{Design} `{Timer} `{Steiner} (drvr_pin : Pin)
    (load_pins : list Pin) (buffer_cell : LibertyCell) (r r' : Resizer) :
  makeHoldDelay drvr_pin 1 load_pins buffer_cell r = Some r' →
  inserted_buffer_count r' = int_incr (inserted_buffer_count r)
  ∧ size (nl_insts (netlist r')) = S (size (nl_insts (netlist r))).
Proof.
  unfold makeHoldDelay.
  destruct (pin_net (netlist r) drvr_pin) as [drvr_net|]; [|done]. simpl.
  change (Z.to_nat 1) with 1%nat. cbn [makeHoldDelay_buffers].
  destruct (makeUniqueNetName r) as [[n1 r1]|] eqn:E1; [|done]. simpl.
  apply makeUniqueNetName_inv in E1 as [[k1 ->] _].
  destruct (makeUniqueInstName "hold" false
              (edit (makeNet n1) (set_unique_net_index k1 r)))
    as [[b r2]|] eqn:E2; [|done]. simpl.
  apply makeUniqueInstName_inv in E2 as [[k2 ->] Hfresh].
  assert (nl_insts (netlist r) !! b = None) as Hb by (by destruct r).
  unfold makeInstance. destruct (findMaster buffer_cell) as [m|]; [|done].
  simpl. destruct (bufferPorts buffer_cell) as [input output]. simpl.
  match goal with
  | |- (if have_estimated_parasitics ?x then _ else _) = _ → _ =>
      set (r3 := x);
      assert (inserted_buffer_count r3 = int_incr (inserted_buffer_count r)
              ∧ nl_insts (netlist r3)
                = alter (λ d, mkInst (inst_master d)
                                (mkPoint
                                   (int_add (getX (location drvr_pin))
                                      (int_mul
                                         (int_div
                                            (int_sub
                                               (getX (location drvr_pin))
                                               (getX (findCenter load_pins)))
                                            (int_add 1 1)) 0))
                                   (int_add (getY (location drvr_pin))
                                      (int_mul
                                         (int_div
                                            (int_sub
                                               (getY (location drvr_pin))
                                               (getY (findCenter load_pins)))
                                            (int_add 1 1)) 0))) true) b
                    (<[b := mkInst buffer_cell (mkPoint 0 0) false]>
                       (nl_insts (netlist r)))) as [Hc Hi]
  end.
  { unfold r3. destruct r. simpl. unfold edit. simpl.
    by rewrite nl_insts_foldl_reconnectPin. }
  assert (size (nl_insts (netlist r3)) = S (size (nl_insts (netlist r))))
    as Hsz.
  { rewrite Hi, alter_insert_eq. by rewrite map_size_insert_None. }
  destruct (have_estimated_parasitics r3); intros [= <-]; [|done].
  destruct (estimateWireParasitic_frame drvr_net r3) as [ps1 ->].
  destruct (estimateWireParasitic_frame n1 (set_parasitics ps1 r3))
    as [ps2 ->].
  rewrite <- Hc, <- Hsz. by destruct r3.
Qed.

Lemma repairHoldPass_loop_count `{Design} `{Timer} `{Steiner}
    (sorted_fanins : list Pin) (repair_count max_repair_count : Z)
    (buffer_cell : LibertyCell) (buffer_delay : Qc) (allow : bool)
    (r r' : Resizer) (n : Z) :
  repairHoldPass_loop sorted_fanins repair_count max_repair_count buffer_cell
    buffer_delay allow r = Some (n, r') →
  0 ≤ repair_count → max_repair_count ≤ int_max →
  0 ≤ inserted_buffer_count r →
  inserted_buffer_count r + Z.max 0 (max_repair_count - repair_count)
  ≤ int_max →
  repair_count ≤ n ≤ Z.max repair_count max_repair_count
  ∧ inserted_buffer_count r' = inserted_buffer_count r + (n - repair_count)
  ∧ Z.of_nat (size (nl_insts (netlist r')))
    = Z.of_nat (size (nl_insts (netlist r))) + (n - repair_count)
  ∧ (n - repair_count ≤ Z.of_nat (length sorted_fanins)).
Proof.
  revert repair_count r.
  induction sorted_fanins as [|v fanins IH]; intros c r.
  - intros [= <- <-] ? ? ? ?. simpl. lia.
  - cbn [repairHoldPass_loop]. rewrite length_cons, Nat2Z.inj_succ.
    destruct (bool_decide (c < max_repair_count)) eqn:Hlt.
    2:{ intros [= <- <-] ? ? ? ?. lia. }
    apply bool_decide_eq_true in Hlt.
    assert (repairHoldPass_loop fanins c max_repair_count buffer_cell
              buffer_delay allow r = Some (n, r') →
            0 ≤ c → max_repair_count ≤ int_max →
            0 ≤ inserted_buffer_count r →
            inserted_buffer_count r + Z.max 0 (max_repair_count - c)
            ≤ int_max →
            c ≤ n ≤ Z.max c max_repair_count
            ∧ inserted_buffer_count r' = inserted_buffer_count r + (n - c)
            ∧ Z.of_nat (size (nl_insts (netlist r')))
              = Z.of_nat (size (nl_insts (netlist r))) + (n - c)
            ∧ n - c ≤ Z.succ (Z.of_nat (length fanins))) as Hskip.
    { intros Hrun ? ? ? ?.
      destruct (IH c r Hrun) as (? & ? & ? & ?); [done..|].
      repeat split; lia. }
    destruct (Qc_ltb (vertexSlack_min (netlist r) v) 0); [|apply Hskip].
    destruct (pin_net (netlist r) v) as [net|]; [|done]. simpl.
    destruct (negb (isSpecial (netlist r) net)); [|apply Hskip].
    destruct (repairHoldPass_vertex (netlist r) v buffer_delay allow)
      as [[[buffer_count load_pins]|]|] eqn:Ev; [| apply Hskip | done].
    apply repairHoldPass_vertex_count in Ev as [-> _]. simpl.
    destruct (makeHoldDelay v 1 load_pins buffer_cell r) as [r1|] eqn:E;
      [|done]. simpl.
    apply makeHoldDelay_one in E as [Hc1 Hs1].
    intros Hrun Hc Hmax Hibc Hbound.
    rewrite int_incr_in_int in Hc1 by (unfold int_min; lia).
    assert (int_add c 1 = c + 1) as Hadd
      by (apply int_incr_in_int; unfold int_min; lia).
    rewrite Hadd in Hrun.
    destruct (overMaxArea r1).
    + injection Hrun as <- <-.
      assert (∀ t x, inserted_buffer_count (warn t x)
                     = inserted_buffer_count x
                     ∧ netlist (warn t x) = netlist x) as Hw
        by (intros t x; by destruct x).
      destruct (Hw "max utilization reached." r1) as [-> ->].
      rewrite Hc1, Hs1. lia.
    + destruct (IH (c + 1) r1 Hrun) as (? & ? & ? & ?); [lia..|].
      rewrite Hc1 in *. rewrite Hs1 in *. lia.
Qed.

(** X12. A hold-repair pass that returns has inserted at most
    [max(0.2 * failures, 10)] buffers, and at most one per sorted fanin:
    the count it returns lies between 0 and that bound, the design has
    that many more instances, and [inserted_buffer_count] has grown by
    it. *)
Theorem repairHoldPass_count `{Design} `{Timer} `{Steiner}
    (hold_failures : list Pin) (buffer_cell : LibertyCell)
    (buffer_delay : Qc) (allow_setup_violations : bool) (r r' : Resizer)
    (repair_count : Z) :
  repairHoldPass hold_failures buffer_cell buffer_delay
    allow_setup_violations r = Some (repair_count, r') →
  Z.of_nat (length hold_failures) ≤ int_max →
  0 ≤ inserted_buffer_count r →
  inserted_buffer_count r
  + Z.max ((Z.of_nat (length hold_failures) * 2) `div` 10) 10 ≤ int_max →
  0 ≤ repair_count
      ≤ Z.max ((Z.of_nat (length hold_failures) * 2) `div` 10) 10
  ∧ repair_count
    ≤ Z.of_nat (length (sortedHoldFanins (netlist r) hold_failures))
  ∧ inserted_buffer_count r' = inserted_buffer_count r + repair_count
  ∧ Z.of_nat (size (nl_insts (netlist r')))
    = Z.of_nat (size (nl_insts (netlist r))) + repair_count.
Proof.
  unfold repairHoldPass. intros Hrun Hlen Hibc Hbound.
  apply repairHoldPass_loop_count in Hrun as (Hn & Hi & Hs & Hl);
    [|lia| |done|lia].
  - rewrite Z.sub_0_r in *. repeat split; lia.
  - unfold int_max in *.
    assert ((Z.of_nat (length hold_failures) * 2) `div` 10
            ≤ Z.of_nat (length hold_failures)).
    { apply Z.div_le_upper_bound; lia. }
    lia.
Qed.

Lemma repairHoldPass_count_witness :
  let D := example_design in
  let T := example_hold_timer in
  let S := example_steiner in
  let r := example_hold in
  let run := repairHoldPass (H := D) (H0 := T) (H1 := S) [InstPin "FF" "D"]
               "BUF_X1" 1%Qc false r in
  (run = Some (1, default r (snd <$> run))
   ∧ Z.of_nat (length [InstPin "FF" "D"]) ≤ int_max
   ∧ 0 ≤ inserted_buffer_count r
   ∧ inserted_buffer_count r
     + Z.max ((Z.of_nat (length [InstPin "FF" "D"]) * 2) `div` 10) 10
     ≤ int_max)
  ∧ inserted_buffer_count (default r (snd <$> run))
    = inserted_buffer_count r + 1.
Proof.
  intros D T S r run.
  assert (run = Some (1, default r (snd <$> run))) as H1 by (by vm_compute).
  assert (Z.of_nat (length [InstPin "FF" "D"]) ≤ int_max) as H2
    by (by vm_compute).
  assert (0 ≤ inserted_buffer_count r) as H3 by (by vm_compute).
  assert (inserted_buffer_count r
          + Z.max ((Z.of_nat (length [InstPin "FF" "D"]) * 2) `div` 10) 10
          ≤ int_max) as H4 by (by vm_compute).
  split; [exact (conj H1 (conj H2 (conj H3 H4)))|].
  exact (proj1 (proj2 (proj2 (repairHoldPass_count (H := D) (H0 := T)
           (H1 := S) [InstPin "FF" "D"] "BUF_X1" 1%Qc false r _ 1
           H1 H2 H3 H4)))).
Defined.

(** ** [bufferOutputs] *)

(** X13. [bufferOutput] on a port pin creates one net and one buffer
    instance with new names, places the buffer at the location of the
    port as it is (it is not moved into the core), moves every other pin
    of the port's net to the new net, connects the buffer input to the
    new net and the buffer output to the port's net, so that the port's
    net is left with the port and the buffer output; the buffer counter
    goes up by one. *)
Theorem bufferOutput_spec `{Design} (top_pin : Pin) (output_net : Net)
    (buffer_cell : LibertyCell) (r : Resizer) (m : Master) :
  findMaster buffer_cell = Some m →
  int_min ≤ unique_net_index r →
  unique_net_index r + Z.of_nat (size (nl_nets (netlist r))) + 1 ≤ int_max →
  int_min ≤ unique_inst_index r →
  unique_inst_index r + Z.of_nat (size (nl_insts (netlist r))) + 1 ≤ int_max →
  int_min ≤ inserted_buffer_count r →
  inserted_buffer_count r + 1 ≤ int_max →
  ∃ n k r',
    bufferOutput top_pin output_net buffer_cell r = Some r'
    ∧ (net_name n ∉ nl_nets (netlist r))
    ∧ nl_insts (netlist r) !! inst_name "output" false k = None
    ∧ nl_nets (netlist r') = {[net_name n]} ∪ nl_nets (netlist r)
    ∧ nl_insts (netlist r')
      = <[inst_name "output" false k
          := mkInst buffer_cell (location top_pin) true]>
          (nl_insts (netlist r))
    ∧ (∀ p, pin_net (netlist r') p
        = if decide (p = InstPin (inst_name "output" false k)
                                 (bufferPorts buffer_cell).2)
          then Some output_net
          else if decide (p = InstPin (inst_name "output" false k)
                                      (bufferPorts buffer_cell).1)
          then Some (net_name n)
          else if decide (pin_net (netlist r) p = Some output_net
                          ∧ p ≠ top_pin)
          then Some (net_name n)
          else pin_net (netlist r) p)
    ∧ inserted_buffer_count r' = inserted_buffer_count r + 1
    ∧ design_area r' = (design_area r + area buffer_cell)%Qc.
Proof.
  intros Hmaster Hn1 Hn2 Hi1 Hi2 Hc1 Hc2.
  destruct (makeUniqueNetName_spec r Hn1 Hn2) as (n & Hn & _ & Hnf & _).
  destruct (makeUniqueInstName_spec "output" false
              (set_unique_net_index (n + 1) r))
    as (k & Hk & _ & Hkf & _).
  { by destruct r. }
  { by destruct r. }
  exists n, k. unfold bufferOutput.
  destruct (bufferPorts buffer_cell) as [input output] eqn:Hports.
  rewrite Hn. simpl. rewrite Hk. simpl.
  unfold makeInstance. rewrite Hmaster.
  eexists. split; [done|].
  destruct r. simpl in *. unfold edit. simpl.
  change (bufferOutput_pin top_pin (net_name n))
    with (removeBuffers_pin top_pin (net_name n)).
  match goal with
  | |- context [foldl ?f ?a ?l] =>
      destruct (foldl_removeBuffers_pin top_pin (net_name n) l a)
        as (Hfn & Hfs & Hfi & Hfc & _)
  end.
  rewrite Hfn, Hfi. simpl.
  split; [done|]. split; [done|]. split; [done|].
  split.
  { by rewrite alter_insert_eq. }
  split.
  { intros p. unfold pin_net. simpl.
    destruct (decide (p = InstPin (inst_name "output" false k) output))
      as [->|Hpo].
    { by rewrite lookup_insert_eq. }
    rewrite lookup_insert_ne by done.
    destruct (decide (p = InstPin (inst_name "output" false k) input))
      as [->|Hpi].
    { by rewrite lookup_insert_eq. }
    rewrite lookup_insert_ne by done.
    rewrite Hfc. simpl.
    match goal with
    | |- context [p ∈ net_pins ?a ?b] =>
        pose proof (elem_of_net_pins a b p) as Hpins
    end.
    unfold pin_net in Hpins. simpl in Hpins.
    repeat case_decide; try done; exfalso; intuition congruence. }
  split; [|done].
  apply int_incr_in_int; lia.
Qed.

Example bufferOutputs_example :
  let r := set_netlist example_output_netlist example_resizer in
  (λ r', (map_to_list (nl_conn (netlist r')),
          nl_insts (netlist r') !! "output1",
          messages r'))
    <$> bufferOutput (H := example_design) (TopPin "OUT") "out" "BUF_X1" r
  = Some ([(TopPin "OUT", "out"); (InstPin "output1" "A", "net1");
           (InstPin "U2" "I", "net1"); (InstPin "output1" "Z", "out");
           (InstPin "U1" "Z", "net1")],
          Some (mkInst "BUF_X1" (mkPoint (-50) 700) true),
          []).
Proof. by vm_compute. Qed.

Lemma bufferOutput_spec_witness :
  let D := example_design in
  let r := set_netlist example_output_netlist example_resizer in
  (findMaster (Design := D) "BUF_X1" = Some (mkMaster true 200 400)
   ∧ int_min ≤ unique_net_index r
   ∧ unique_net_index r + Z.of_nat (size (nl_nets (netlist r))) + 1
     ≤ int_max
   ∧ int_min ≤ unique_inst_index r
   ∧ unique_inst_index r + Z.of_nat (size (nl_insts (netlist r))) + 1
     ≤ int_max
   ∧ int_min ≤ inserted_buffer_count r
   ∧ inserted_buffer_count r + 1 ≤ int_max)
  ∧ ∃ n k r',
      bufferOutput (H := D) (TopPin "OUT") "out" "BUF_X1" r = Some r'
      ∧ nl_insts (netlist r')
        = <[inst_name "output" false k
            := mkInst "BUF_X1" (location (Design := D) (TopPin "OUT")) true]>
            (nl_insts (netlist r))
      ∧ nl_nets (netlist r') = {[net_name n]} ∪ nl_nets (netlist r).
Proof.
  intros D r.
  assert (findMaster (Design := D) "BUF_X1" = Some (mkMaster true 200 400))
    as H1 by done.
  assert (int_min ≤ unique_net_index r) as H2 by (by vm_compute).
  assert (unique_net_index r + Z.of_nat (size (nl_nets (netlist r))) + 1
          ≤ int_max) as H3 by (by vm_compute).
  assert (int_min ≤ unique_inst_index r) as H4 by (by vm_compute).
  assert (unique_inst_index r + Z.of_nat (size (nl_insts (netlist r))) + 1
          ≤ int_max) as H5 by (by vm_compute).
  assert (int_min ≤ inserted_buffer_count r) as H6 by (by vm_compute).
  assert (inserted_buffer_count r + 1 ≤ int_max) as H7 by (by vm_compute).
  split; [exact (conj H1 (conj H2 (conj H3 (conj H4 (conj H5 (conj H6 H7))))))|].
  destruct (bufferOutput_spec (H := D) (TopPin "OUT") "out" "BUF_X1" r
              (mkMaster true 200 400) H1 H2 H3 H4 H5 H6 H7)
    as (n & k & r' & Hrun & _ & _ & Hnets & Hinsts & _).
  exists n, k, r'. done.
Defined.

(** ** Distances along a Steiner tree *)




Example findMaxSteinerDist_example :
  let isLoad := λ p, bool_decide (pin_port p = "I") in
  findMaxSteinerDist 4 isLoad example_steiner_pts 0 0 = Some 400
  ∧ findMaxSteinerDist 4 (λ _, false) example_steiner_pts 0 0 = Some 0
  ∧ findMaxSteinerDist 2 isLoad example_steiner_pts 0 0 = None.
Proof. by vm_compute. Qed.




(** ** Binary searches *)

Local Open Scope Qc_scope.




Local Close Scope Qc_scope.

Example binary_search_example :
  let D := example_design in
  let C := example_delay_calc in
  let r := example_clock_resizer in
  bool_decide
    (findSlewLoadCap (H := C) 100 r ("BUF_X1", "Z") (Q2Qc (3 # 10))
     = Some (Q2Qc (21 # 70368744177664))) = true
  ∧ bool_decide
      (gateSlewDiff (H := C) r ("BUF_X1", "Z") (Q2Qc (21 # 70368744177664))
         (Q2Qc (3 # 10))
       = Q2Qc (-135038151 # 85899345920)) = true
  ∧ findSlewLoadCap (H := C) 40 r ("BUF_X1", "Z") (Q2Qc (3 # 10)) = None
  ∧ bool_decide
      (findMaxWireLength (H := D) (H0 := C) 20 r "BUF_X1"
       = Some (Q2Qc (181 # 128))) = true.
Proof. by vm_compute. Qed.

(** ** [repairTieFanout] *)

Lemma tieLocation_core `{Design} (r r' : Resizer) (load : Pin)
    (separation : Z) :
  core r' = core r → core_exists r' = core_exists r →
  tieLocation r' load separation = tieLocation r load separation.
Proof. unfold tieLocation. by intros -> ->. Qed.

Lemma single_load_anti (nl nl' : Netlist) (drvr : Pin) :
  (∀ p n, pin_net nl' p = Some n → pin_net nl p = Some n) →
  single_load nl drvr → single_load nl' drvr.
Proof.
  intros Hsub Hs n p q Hd Hp Hq. apply (Hs n); by apply Hsub.
Qed.

(** One round of the load loop: nothing for the tie pin itself; for any
    other pin a tie instance and a net, both with names the netlist does
    not have, and the pin moved to that net. *)
Lemma repairTieFanout_load_step `{Design} (tie_cell : LibertyCell)
    (tie_port name : string) (separation_dbu : Z) (drvr_pin load : Pin)
    (r r1 : Resizer) (c c1 : Z) :
  repairTieFanout_load tie_cell tie_port name separation_dbu drvr_pin
    (r, c) load = Some (r1, c1) →
  (load = drvr_pin ∧ r1 = r ∧ c1 = c)
  ∨ (load ≠ drvr_pin
     ∧ ∃ tie fresh,
         nl_insts (netlist r) !! tie = None
         ∧ (fresh ∉ nl_nets (netlist r))
         ∧ nl_insts (netlist r1)
           = <[tie := mkInst tie_cell
                        (tieLocation r load separation_dbu) true]>
               (nl_insts (netlist r))
         ∧ nl_conn (netlist r1)
           = <[load := fresh]>
               (<[InstPin tie tie_port := fresh]> (nl_conn (netlist r)))
         ∧ nl_nets (netlist r1) = {[fresh]} ∪ nl_nets (netlist r)
         ∧ core r1 = core r ∧ core_exists r1 = core_exists r
         ∧ design_area r1 = (design_area r + area tie_cell)%Qc
         ∧ c1 = int_incr c).
Proof.
  unfold repairTieFanout_load.
  destruct (decide (load ≠ drvr_pin)) as [Hne|Heq].
  2:{ intros [= <- <-]. left. split; [|done]. by apply dec_stable. }
  intros Hrun. right. split; [done|].
  destruct (makeUniqueInstName name true r) as [[tie_name ra]|] eqn:Hi;
    [|done].
  apply makeUniqueInstName_inv in Hi as [[k ->] Hfresh].
  simpl in Hrun. unfold makeInstance in Hrun.
  destruct (findMaster tie_cell) eqn:Hm; [|by destruct r].
  simpl in Hrun.
  destruct (makeUniqueNetName _) as [[net rb]|] eqn:Hn; [|done].
  apply makeUniqueNetName_inv in Hn as [[k' ->] Hnfresh].
  simpl in Hrun. injection Hrun as <- <-.
  exists tie_name, net. destruct r; simpl in *.
  unfold edit; simpl.
  split; [done|]. split; [done|].
  split; [by rewrite alter_insert_eq|].
  split; [|done].
  rewrite instance_pin_of_pin. by rewrite insert_delete_eq.
Qed.

(** One round of the load loop keeps [tie_inv]; it takes [load] off its
    net and touches no other connection to a net of the netlist. *)
Lemma repairTieFanout_load_inv `{Design} (tie_cell : LibertyCell)
    (tie_port name : string) (separation_dbu : Z) (r0 : Resizer)
    (todo : list Instance) (deleted : nat) (drvr_pin load : Pin)
    (r r1 : Resizer) (c c1 : Z) :
  repairTieFanout_load tie_cell tie_port name separation_dbu drvr_pin
    (r, c) load = Some (r1, c1) →
  tie_inv tie_cell tie_port separation_dbu r0 todo deleted r →
  is_Some (pin_net (netlist r) load) →
  tie_inv tie_cell tie_port separation_dbu r0 todo deleted r1
  ∧ (∀ p n, n ∈ nl_nets (netlist r) →
            pin_net (netlist r1) p = Some n →
            pin_net (netlist r) p = Some n ∧ (load = drvr_pin ∨ p ≠ load))
  ∧ (∀ p, is_Some (pin_net (netlist r) p) →
          is_Some (pin_net (netlist r1) p))
  ∧ (∀ i, i ∈ todo → InstPin i tie_port ≠ load ∨ load = drvr_pin →
          pin_net (netlist r1) (InstPin i tie_port)
          = pin_net (netlist r) (InstPin i tie_port))
  ∧ nl_nets (netlist r) ⊆ nl_nets (netlist r1).
Proof.
  intros Hrun Hinv Hload.
  apply repairTieFanout_load_step in Hrun
    as [(-> & -> & ->)|(Hne & tie & fresh & Hti & Hf & Hi1 & Hc1 & Hn1
                        & Hcore & Hcex & Harea & ->)].
  { split; [done|]. split; [|done]. intros p n _ Hp. split; [done|by left]. }
  assert (nl_nets (netlist r) ⊆ nl_nets (netlist r1)) as Hsub.
  { rewrite Hn1. intros x Hx. apply elem_of_union. by right. }
  destruct Hinv as ((Hcore0 & Hcex0) & Hwf & Hframe & Hties & Htodo & Hda).
  set (tp := InstPin tie tie_port) in *.
  assert (∀ p, pin_net (netlist r1) p = Some fresh ↔ p = load ∨ p = tp)
    as F1.
  { intros p. unfold pin_net. rewrite Hc1. split.
    - intros Hp. destruct (decide (p = load)) as [|Hpl]; [by left|].
      destruct (decide (p = tp)) as [|Hpt]; [by right|].
      rewrite !lookup_insert_ne in Hp by done.
      by apply Hwf in Hp.
    - intros [->| ->]; [by rewrite lookup_insert_eq|].
      destruct (decide (tp = load)) as [->|Hpl];
        [by rewrite lookup_insert_eq|].
      rewrite lookup_insert_ne by done. by rewrite lookup_insert_eq. }
  assert (∀ p, p ≠ load → p ≠ tp →
               pin_net (netlist r1) p = pin_net (netlist r) p) as F3.
  { intros p Hpl Hpt. unfold pin_net. rewrite Hc1.
    by rewrite !lookup_insert_ne by done. }
  assert (∀ p n, n ≠ fresh → pin_net (netlist r1) p = Some n →
                 p ≠ load ∧ p ≠ tp ∧ pin_net (netlist r) p = Some n) as F2.
  { intros p n Hnf Hp.
    assert (p ≠ load) as Hpl.
    { intros ->. assert (pin_net (netlist r1) load = Some fresh) as E
        by (apply F1; by left). congruence. }
    assert (p ≠ tp) as Hpt.
    { intros ->. assert (pin_net (netlist r1) tp = Some fresh) as E
        by (apply F1; by right). congruence. }
    by rewrite F3 in Hp. }
  assert (∀ i, i ∈ todo → InstPin i tie_port ≠ tp) as Htp.
  { intros i Hi [= ->]. destruct (Htodo _ Hi) as ((d & Hd & _) & _).
    congruence. }
  split; [|split; [|split; [|split; [|done]]]].
  - (* the invariant *)
    split; [split; congruence|].
    split.
    { intros p n Hp. rewrite Hn1.
      destruct (decide (n = fresh)) as [->|Hnf].
      { apply elem_of_union. left. by apply elem_of_singleton. }
      apply F2 in Hp as (_ & _ & Hp); [|done]. apply Hwf in Hp.
      apply elem_of_union. by right. }
    split.
    { intros i d Hi0 Hm. rewrite Hi1.
      pose proof (Hframe _ _ Hi0 Hm) as Hi.
      rewrite lookup_insert_ne; [done|]. intros ->. congruence. }
    split.
    { intros i d Hi Hm. rewrite Hi1 in Hi.
      destruct (decide (i = tie)) as [->|Hit].
      - rewrite lookup_insert_eq in Hi. injection Hi as <-. split.
        + right. intros n p q Hd Hp Hq Hpn Hqn.
          assert (pin_net (netlist r1) tp = Some fresh) as E
            by (apply F1; by right).
          fold tp in Hd. assert (n = fresh) as -> by congruence.
          apply F1 in Hp as [->|?]; [|done].
          by apply F1 in Hq as [->|?].
        + right. exists load. by rewrite (tieLocation_core r0 r).
      - rewrite lookup_insert_ne in Hi by done.
        destruct (Hties _ _ Hi Hm) as [Hsl Horig]. split; [|done].
        destruct Hsl as [?|Hsl]; [by left|]. right.
        intros n p q Hd Hp Hq Hpn Hqn.
        destruct (decide (n = fresh)) as [->|Hnf].
        + apply F1 in Hd as [Hd|[= ?]]; [|done].
          apply F1 in Hp as [->| ->]; [done|].
          by apply F1 in Hq as [->| ->].
        + apply F2 in Hd as (_ & _ & Hd); [|done].
          apply F2 in Hp as (_ & _ & Hp); [|done].
          apply F2 in Hq as (_ & _ & Hq); [|done].
          by apply (Hsl n). }
    split.
    { intros i Hi. destruct (Htodo _ Hi) as ((d & Hd & Hd0 & Hm) & Hconn).
      split.
      - exists d. split; [|done]. rewrite Hi1.
        rewrite lookup_insert_ne; [done|]. intros ->. congruence.
      - destruct (decide (InstPin i tie_port = load)) as [E|E].
        + rewrite E in *. rewrite <- Hconn. split; [done|].
          intros _. exists fresh. apply F1. by left.
        + rewrite F3; [done|done|by apply Htp]. }
    rewrite Harea.
    rewrite (findDesignArea_insert (netlist r) (netlist r1) tie tie_cell);
      [|by rewrite Hi1, fmap_insert|done].
    rewrite <- Hda. ring.
  - intros p n Hn Hp.
    assert (n ≠ fresh) as Hnf by (intros ->; done).
    apply F2 in Hp as (? & _ & ?); [|done]. split; [done|by right].
  - intros p [n Hp].
    destruct (decide (p = load)) as [->|Hpl].
    { exists fresh. apply F1. by left. }
    destruct (decide (p = tp)) as [->|Hpt].
    { exists fresh. apply F1. by right. }
    rewrite F3 by done. by exists n.
  - intros i Hi [Hil|Hld]; [|done].
    apply F3; [done|by apply Htp].
Qed.

(** The load loop keeps [tie_inv]; of the pins on a net of the netlist it
    moves away the ones it is given, the tie pin apart. *)
Lemma repairTieFanout_loads_inv `{Design} (tie_cell : LibertyCell)
    (tie_port name : string) (separation_dbu : Z) (r0 : Resizer)
    (todo : list Instance) (deleted : nat) (drvr_pin : Pin)
    (loads : list Pin) (r r1 : Resizer) (c c1 : Z) :
  foldl (λ st load,
           st ← st;
           repairTieFanout_load tie_cell tie_port name separation_dbu
             drvr_pin st load)
        (Some (r, c)) loads = Some (r1, c1) →
  tie_inv tie_cell tie_port separation_dbu r0 todo deleted r →
  (∀ l, l ∈ loads → is_Some (pin_net (netlist r) l)) →
  tie_inv tie_cell tie_port separation_dbu r0 todo deleted r1
  ∧ (∀ p n, n ∈ nl_nets (netlist r) →
            pin_net (netlist r1) p = Some n →
            pin_net (netlist r) p = Some n ∧ (p = drvr_pin ∨ p ∉ loads))
  ∧ (∀ i, i ∈ todo →
          InstPin i tie_port = drvr_pin ∨ InstPin i tie_port ∉ loads →
          pin_net (netlist r1) (InstPin i tie_port)
          = pin_net (netlist r) (InstPin i tie_port)).
Proof.
  revert r c. induction loads as [|load loads IH]; intros r c Hrun Hinv Hl.
  { injection Hrun as <- <-. split; [done|]. split; [|done].
    intros p n _ Hp. split; [done|]. right. by apply not_elem_of_nil. }
  cbn [foldl] in Hrun.
  replace (Some (r, c) ≫= λ st, repairTieFanout_load tie_cell tie_port name
                                   separation_dbu drvr_pin st load)
    with (repairTieFanout_load tie_cell tie_port name separation_dbu
            drvr_pin (r, c) load) in Hrun by done.
  destruct (repairTieFanout_load _ _ _ _ _ _ _) as [[ra ca]|] eqn:Hstep.
  2:{ by rewrite foldl_option_None in Hrun. }
  destruct (repairTieFanout_load_inv _ _ _ _ _ _ _ _ _ _ _ _ _ Hstep Hinv)
    as (Hinva & Hofa & Hmono & Hsame & Hnets).
  { apply Hl. by left. }
  destruct (IH ra ca Hrun Hinva) as (Hinv1 & Hof1 & Hsame1).
  { intros l Hin. apply Hmono, Hl. by right. }
  split; [done|]. split.
  - intros p n Hn Hp.
    destruct (Hof1 p n (Hnets _ Hn) Hp) as [Hpa Hrest].
    destruct (Hofa p n Hn Hpa) as [Hp0 Hload]. split; [done|].
    destruct (decide (p = drvr_pin)) as [|Hpd]; [by left|]. right.
    destruct Hrest as [?|Hrest]; [done|].
    intros [->|?]%elem_of_cons; [|done].
    destruct Hload as [?|?]; done.
  - intros i Hi Hcase. rewrite Hsame1, Hsame; [done|done| |done|].
    + destruct Hcase as [E|Hni].
      2:{ left. intros E. apply Hni. rewrite E. by left. }
      destruct (decide (InstPin i tie_port = load)) as [El|]; [|by left].
      right. congruence.
    + destruct Hcase as [?|Hni]; [by left|]. right.
      intros ?. apply Hni. by right.
Qed.

Lemma Qc_of_Z_succ (k : nat) :
  Qc_of_Z (Z.of_nat (S k)) = (Qc_of_Z (Z.of_nat k) + 1)%Qc.
Proof.
  unfold Qc_of_Z. apply Qc_is_canon. simpl.
  rewrite !Qred_correct. rewrite Nat2Z.inj_succ. unfold Z.succ.
  rewrite inject_Z_plus. reflexivity.
Qed.

(** One round of the instance loop: an instance with nothing on its tie
    pin is passed over; any other is deleted with its net, after every
    other pin of the net has got a tie instance of its own. *)
Lemma repairTieFanout_inst_inv `{Design} (tie_cell : LibertyCell)
    (tie_port : string) (separation_dbu : Z) (r0 : Resizer)
    (inst : Instance) (rest : list Instance) (deleted : nat)
    (r r1 : Resizer) (c c1 : Z) :
  repairTieFanout_inst tie_cell tie_port separation_dbu (r, c) inst
  = Some (r1, c1) →
  NoDup (inst :: rest) →
  tie_inv tie_cell tie_port separation_dbu r0 (inst :: rest) deleted r →
  tie_inv tie_cell tie_port separation_dbu r0 rest
    (length (connected_ties (netlist r0) tie_port [inst]) + deleted) r1.
Proof.
  intros Hrun Hnd Hinv. apply list.NoDup_cons in Hnd as [Hnotin _].
  unfold repairTieFanout_inst in Hrun.
  set (drvr_pin := InstPin inst tie_port) in *.
  pose proof Hinv as (Hcores & Hwf & Hframe & Hties & Htodo & Hda).
  destruct (Htodo inst) as ((dinst & _ & Hdinst0 & Hminst) & Hconn);
    [by left|].
  fold drvr_pin in Hconn.
  destruct (pin_net (netlist r) drvr_pin) as [net|] eqn:Hnet.
  2:{ injection Hrun as <- <-.
      assert (connected_ties (netlist r0) tie_port [inst] = []) as ->.
      { unfold connected_ties. rewrite filter_cons_False; [done|].
        fold drvr_pin. rewrite <- Hconn. by intros [? ?]. }
      split; [done|]. split; [done|]. split; [done|].
      split; [|split; [|done]].
      - intros i d Hi Hm. destruct (Hties _ _ Hi Hm) as [Hsl Horig].
        split; [|done].
        destruct Hsl as [[->|?]%elem_of_cons|?]; [|by left|by right].
        right. intros n p q Hd. fold drvr_pin in Hd. congruence.
      - intros i Hi. apply Htodo. by right. }
  assert (net ∈ nl_nets (netlist r)) as Hnetin by (by apply (Hwf drvr_pin)).
  destruct (foldl _ _ _) as [[r2 c2]|] eqn:Hloads; [|done].
  apply (repairTieFanout_loads_inv _ _ _ _ _ _ _ _ _ _ _ _ _ Hloads) in Hinv
    as (Hinv2 & Hof & Hsame).
  2:{ intros l Hl%elem_of_net_pins. by rewrite Hl. }
  simpl in Hrun.
  assert (pin_net (netlist r2) drvr_pin = Some net) as Hnet2.
  { unfold drvr_pin. rewrite Hsame; [done|by left|by left]. }
  rewrite Hnet2 in Hrun. simpl in Hrun. injection Hrun as <- <-.
  assert (connected_ties (netlist r0) tie_port [inst] = [inst]) as ->.
  { unfold connected_ties. rewrite filter_cons_True; [done|].
    fold drvr_pin. apply Hconn. by eexists. }
  clear Hcores Hwf Hframe Hties Htodo Hda Hconn.
  destruct Hinv2 as (Hcores & Hwf & Hframe & Hties & Htodo & Hda).
  set (r1 := edit (deleteInstance inst) (edit (deleteNet net) r2)).
  assert (∀ p n, pin_net (netlist r1) p = Some n ↔
                 pin_net (netlist r2) p = Some n ∧ n ≠ net
                 ∧ pin_instance p ≠ Some inst) as G.
  { intros p n. unfold r1, pin_net. destruct r2; simpl.
    rewrite !map_lookup_filter_Some. simpl. tauto. }
  assert (nl_insts (netlist r1) = delete inst (nl_insts (netlist r2)))
    as Hi1 by (by destruct r2).
  assert (nl_nets (netlist r1) = nl_nets (netlist r2) ∖ {[net]})
    as Hn1 by (by destruct r2).
  assert (core r1 = core r2 ∧ core_exists r1 = core_exists r2
          ∧ design_area r1 = design_area r2) as (Hc1 & Hce1 & Hda1)
    by (by destruct r2).
  clearbody r1.
  split; [split; [rewrite Hc1|rewrite Hce1]; apply Hcores|].
  split.
  { intros p n (Hp & Hnn & _)%G. rewrite Hn1. apply elem_of_difference.
    split; [by apply (Hwf p)|]. by intros ?%elem_of_singleton. }
  split.
  { intros i d Hi0 Hm. rewrite Hi1. rewrite lookup_delete_ne.
    - by apply Hframe.
    - intros <-. congruence. }
  split.
  { intros i d Hi Hm. rewrite Hi1 in Hi.
    apply lookup_delete_Some in Hi as [Hne Hi].
    destruct (Hties _ _ Hi Hm) as [Hsl Horig]. split; [|done].
    destruct Hsl as [[->|?]%elem_of_cons|Hsl]; [done|by left|]. right.
    apply (single_load_anti (netlist r2)); [|done].
    intros p n Hp. by apply G in Hp as (? & _). }
  split.
  { intros i Hi.
    assert (i ≠ inst) as Hne by (intros ->; done).
    destruct (Htodo i) as ((d & Hd & Hd0 & Hm) & Hconn); [by right|].
    split.
    - exists d. rewrite Hi1. by rewrite lookup_delete_ne.
    - rewrite <- Hconn. split.
      + intros [n Hp]. apply G in Hp as (Hp & _). by exists n.
      + intros [n Hp]. exists n. apply G. split; [done|].
        split; [|simpl; congruence].
        intros ->. destruct (Hof _ _ Hnetin Hp) as [Hp0 [[= ?]|Hni]];
          [done|].
        apply Hni. by apply elem_of_net_pins. }
  rewrite Hda1.
  destruct (Htodo inst) as ((d & Hd & Hd0 & Hm) & _); [by left|].
  assert (findDesignArea (netlist r2)
          = (findDesignArea (netlist r1) + area tie_cell)%Qc) as Hfda.
  { rewrite <- Hm.
    apply (findDesignArea_insert (netlist r1) (netlist r2) inst).
    - rewrite Hi1, fmap_delete. symmetry. apply insert_delete_id.
      by rewrite lookup_fmap, Hd.
    - rewrite Hi1. by rewrite lookup_delete_eq. }
  cbn [length Nat.add]. rewrite Qc_of_Z_succ.
  rewrite Hfda in Hda.
  transitivity (design_area r2 - (findDesignArea (netlist r1) + area tie_cell)
                + area tie_cell)%Qc; [ring|].
  rewrite Hda. ring.
Qed.

(** The instance loop, from any point of the list of instances on. *)
Lemma repairTieFanout_insts_inv `{Design} (tie_cell : LibertyCell)
    (tie_port : string) (separation_dbu : Z) (r0 : Resizer)
    (insts : list Instance) (deleted : nat) (r r1 : Resizer) (c c1 : Z) :
  foldl (λ st inst,
           st ← st;
           repairTieFanout_inst tie_cell tie_port separation_dbu st inst)
        (Some (r, c)) insts = Some (r1, c1) →
  NoDup insts →
  tie_inv tie_cell tie_port separation_dbu r0 insts deleted r →
  tie_inv tie_cell tie_port separation_dbu r0 []
    (length (connected_ties (netlist r0) tie_port insts) + deleted) r1.
Proof.
  revert deleted r c.
  induction insts as [|inst insts IH]; intros deleted r c Hrun Hnd Hinv.
  { by injection Hrun as <- <-. }
  cbn [foldl] in Hrun.
  replace (Some (r, c) ≫= λ st, repairTieFanout_inst tie_cell tie_port
                                   separation_dbu st inst)
    with (repairTieFanout_inst tie_cell tie_port separation_dbu (r, c) inst)
    in Hrun by done.
  destruct (repairTieFanout_inst _ _ _ _ _) as [[ra ca]|] eqn:Hstep.
  2:{ by rewrite foldl_option_None in Hrun. }
  pose proof (repairTieFanout_inst_inv _ _ _ _ _ _ _ _ _ _ _ Hstep Hnd Hinv)
    as Hinva.
  apply list.NoDup_cons in Hnd as [_ Hnd].
  pose proof (IH _ _ _ Hrun Hnd Hinva) as Hfin.
  replace (length (connected_ties (netlist r0) tie_port (inst :: insts))
           + deleted)%nat
    with (length (connected_ties (netlist r0) tie_port insts)
          + (length (connected_ties (netlist r0) tie_port [inst])
             + deleted))%nat; [done|].
  unfold connected_ties.
  destruct (decide (is_Some (pin_net (netlist r0) (InstPin inst tie_port))))
    as [Hc|Hc].
  - rewrite !filter_cons_True by done. simpl. lia.
  - rewrite !filter_cons_False by done. simpl. lia.
Qed.

Lemma NoDup_findCellInstances `{Design} (nl : Netlist)
    (cell : LibertyCell) :
  NoDup (findCellInstances nl cell).
Proof.
  unfold findCellInstances.
  apply NoDup_fmap_fst.
  - intros i d d' [_ Hd]%list_elem_of_filter [_ Hd']%list_elem_of_filter.
    apply elem_of_map_to_list in Hd, Hd'. congruence.
  - apply list.NoDup_filter, NoDup_map_to_list.
Qed.

Lemma elem_of_findCellInstances `{Design} (nl : Netlist)
    (cell : LibertyCell) (i : Instance) :
  i ∈ findCellInstances nl cell
  ↔ ∃ d, nl_insts nl !! i = Some d
         ∧ hasLibertyCell (inst_master d) = true ∧ inst_master d = cell.
Proof.
  unfold findCellInstances. rewrite list_elem_of_fmap. split.
  - intros ([i' d] & -> & [Hm Hd]%list_elem_of_filter).
    apply elem_of_map_to_list in Hd. by exists d.
  - intros (d & Hd & Hm). exists (i, d). split; [done|].
    apply list_elem_of_filter. split; [done|].
    by apply elem_of_map_to_list.
Qed.

(** The whole pass, in terms of [tie_inv]. *)
Lemma repairTieFanout_inv `{Design} (tie_port : LibertyPort)
    (separation : Qc) (verbose : bool) (r r' : Resizer) :
  repairTieFanout tie_port separation verbose r = Some r' →
  (∀ p n, pin_net (netlist r) p = Some n → n ∈ nl_nets (netlist r)) →
  (∀ i d, nl_insts (netlist r) !! i = Some d →
          inst_master d = tie_port.1 →
          i ∈ findCellInstances (netlist r) tie_port.1) →
  tie_inv tie_port.1 tie_port.2 (metersToDbu separation) r []
    (length (connected_ties (netlist r) tie_port.2
               (findCellInstances (netlist r) tie_port.1)) + 0) r'.
Proof.
  intros Hrun Hwf Hall. unfold repairTieFanout in Hrun.
  destruct (foldl _ _ _) as [[r1 c1]|] eqn:Hloop; [|done].
  simpl in Hrun.
  apply (repairTieFanout_insts_inv _ _ _ r _ 0) in Hloop.
  - assert (∀ k, tie_inv tie_port.1 tie_port.2 (metersToDbu separation) r []
                   k r1 →
                 tie_inv tie_port.1 tie_port.2 (metersToDbu separation) r []
                   k r') as Hsame.
    { intros k Hk. destruct (bool_decide (0 < c1));
        injection Hrun as <-; [|done]. by destruct r1. }
    by apply Hsame.
  - apply NoDup_findCellInstances.
  - split; [done|]. split; [done|]. split; [done|].
    split; [|split].
    + intros i d Hi Hm. split; [left; by apply Hall with d|by left].
    + intros i (d & Hi & _ & Hm)%elem_of_findCellInstances.
      split; [by exists d|done].
    + change (Qc_of_Z (Z.of_nat 0)) with 0%Qc. ring.
Qed.

Lemma findCellInstances_no_liberty `{Design} (nl : Netlist)
    (cell : LibertyCell) :
  hasLibertyCell cell = false → findCellInstances nl cell = [].
Proof.
  intros Hlib. apply elem_of_nil_inv. intros i.
  rewrite elem_of_findCellInstances. intros (d & _ & Hl & <-). congruence.
Qed.

(** X16. After [repairTieFanout] no instance of the tie cell has more
    than one load: on the net of its tie pin there is at most one other
    pin.  Every such instance is one the design had, unchanged, or a new
    one, placed at the [tieLocation] of a load.  Instances of other cells
    are kept as they are. *)
Theorem repairTieFanout_single_load `{Design} (tie_port : LibertyPort)
    (separation : Qc) (verbose : bool) (r r' : Resizer) :
  repairTieFanout tie_port separation verbose r = Some r' →
  wf_netlist (netlist r) →
  hasLibertyCell tie_port.1 = true →
  (∀ i d, nl_insts (netlist r) !! i = Some d →
          inst_master d ≠ tie_port.1 →
          nl_insts (netlist r') !! i = Some d)
  ∧ (∀ i d, nl_insts (netlist r') !! i = Some d →
            inst_master d = tie_port.1 →
            single_load (netlist r') (InstPin i tie_port.2)
            ∧ (nl_insts (netlist r) !! i = Some d
               ∨ ∃ load,
                   d = mkInst tie_port.1
                         (tieLocation r load (metersToDbu separation))
                         true)).
Proof.
  intros Hrun (Hwf & _ & _) Hlib.
  apply repairTieFanout_inv in Hrun as (_ & _ & Hframe & Hties & _);
    [|done|].
  - split; [done|]. intros i d Hi Hm.
    destruct (Hties _ _ Hi Hm) as [[Hnil|Hsl] Horig]; [|done].
    by apply elem_of_nil in Hnil.
  - intros i d Hi Hm. apply elem_of_findCellInstances. exists d.
    split; [done|]. split; [congruence|done].
Qed.

Example repairTieFanout_example :
  let D := example_design in
  (λ r', (map_to_list (nl_insts (netlist r')),
          map_to_list (nl_conn (netlist r')),
          messages r', level_drvr_verticies_valid r'))
    <$> repairTieFanout (H := D) ("TIEHI", "Z") (Q2Qc (1 # 1000000)) false
          example_tie_resizer
  = Some ([("U1", mkInst "AND_X1" (mkPoint 1000 1000) true);
           ("U2", mkInst "AND_X1" (mkPoint 2000 1000) true);
           ("T1_3", mkInst "TIEHI" (mkPoint 0 1000) true);
           ("T1_1", mkInst "TIEHI" (mkPoint 0 700) true);
           ("T1_2", mkInst "TIEHI" (mkPoint 0 1000) true);
           ("T2", mkInst "TIEHI" (mkPoint 5 5) true)],
          [(TopPin "OUT", "net1"); (InstPin "U1" "A", "net2");
           (InstPin "U2" "A", "net3"); (InstPin "U1" "B", "n1");
           (InstPin "T1_3" "Z", "net3"); (InstPin "T1_1" "Z", "net1");
           (InstPin "T1_2" "Z", "net2")],
          [Printf ("Inserted 3 tie TIEHI instances." +:+ newline)],
          false).
Proof. by vm_compute. Qed.

Lemma repairTieFanout_single_load_witness :
  let D := example_design in
  let r := example_tie_resizer in
  let r' := default r (repairTieFanout (H := D) ("TIEHI", "Z")
                         (Q2Qc (1 # 1000000)) false r) in
  (repairTieFanout (H := D) ("TIEHI", "Z") (Q2Qc (1 # 1000000)) false r
   = Some r'
   ∧ wf_netlist (netlist r)
   ∧ hasLibertyCell (Design := D) "TIEHI" = true)
  ∧ (∀ i d, nl_insts (netlist r') !! i = Some d →
            inst_master d = "TIEHI" →
            single_load (netlist r') (InstPin i "Z")).
Proof.
  intros D r r'.
  assert (repairTieFanout (H := D) ("TIEHI", "Z") (Q2Qc (1 # 1000000))
            false r = Some r') as H1 by (by vm_compute).
  assert (wf_netlist (netlist r)) as H2
    by (apply wf_netlistb_correct; by vm_compute).
  assert (hasLibertyCell (Design := D) "TIEHI" = true) as H3 by done.
  split; [exact (conj H1 (conj H2 H3))|].
  intros i d Hi Hm.
  exact (proj1 (proj2 (repairTieFanout_single_load (H := D) ("TIEHI", "Z")
                         (Q2Qc (1 # 1000000)) false r r' H1 H2 H3)
                 i d Hi Hm)).
Defined.

(** X17. [repairTieFanout] adds the area of the tie cell to the recorded
    design area for every tie instance it makes and takes nothing off for
    the instances it deletes: after the pass [design_area] is above the
    area [findDesignArea] adds up by the area of the tie cell times the
    number of instances of the cell that had a net on the tie pin (areas
    taken as exact numbers). *)
Theorem repairTieFanout_design_area `{Design} (tie_port : LibertyPort)
    (separation : Qc) (verbose : bool) (r r' : Resizer) :
  repairTieFanout tie_port separation verbose r = Some r' →
  wf_netlist (netlist r) →
  area_recorded r →
  design_area r'
  = (findDesignArea (netlist r')
     + Qc_of_Z (Z.of_nat
                  (length (connected_ties (netlist r) tie_port.2
                             (findCellInstances (netlist r) tie_port.1))))
       * area tie_port.1)%Qc.
Proof.
  intros Hrun (Hwf & _ & _) Harea.
  destruct (hasLibertyCell tie_port.1) eqn:Hlib.
  - apply repairTieFanout_inv in Hrun as (_ & _ & _ & _ & _ & Hda);
      [|done|].
    + rewrite Nat.add_0_r in Hda. unfold area_recorded in Harea.
      rewrite Harea in Hda.
      transitivity (design_area r' - findDesignArea (netlist r')
                    + findDesignArea (netlist r'))%Qc; [ring|].
      rewrite Hda. ring.
    + intros i d Hi Hm. apply elem_of_findCellInstances. exists d.
      split; [done|]. split; [congruence|done].
  - unfold repairTieFanout in Hrun.
    rewrite findCellInstances_no_liberty in * by done.
    simpl in Hrun. injection Hrun as <-.
    change (Qc_of_Z (Z.of_nat (length (connected_ties (netlist r) tie_port.2
                                         []))))
      with 0%Qc.
    rewrite Harea. ring.
Qed.

Lemma repairTieFanout_design_area_witness :
  let D := example_design in
  let r := example_tie_resizer in
  let r' := default r (repairTieFanout (H := D) ("TIEHI", "Z")
                         (Q2Qc (1 # 1000000)) false r) in
  (repairTieFanout (H := D) ("TIEHI", "Z") (Q2Qc (1 # 1000000)) false r
   = Some r'
   ∧ wf_netlist (netlist r)
   ∧ area_recorded (H := D) r)
  ∧ design_area r'
    = (findDesignArea (H := D) (netlist r')
       + Qc_of_Z 1 * area (H := D) "TIEHI")%Qc.
Proof.
  intros D r r'.
  assert (repairTieFanout (H := D) ("TIEHI", "Z") (Q2Qc (1 # 1000000))
            false r = Some r') as H1 by (by vm_compute).
  assert (wf_netlist (netlist r)) as H2
    by (apply wf_netlistb_correct; by vm_compute).
  assert (area_recorded (H := D) r) as H3 by done.
  split; [exact (conj H1 (conj H2 H3))|].
  exact (repairTieFanout_design_area (H := D) ("TIEHI", "Z")
           (Q2Qc (1 # 1000000)) false r r' H1 H2 H3).
Defined.
(** ** The buffers of [makeHoldDelay] *)

Lemma foldl_reconnectPin_fields (n : Net) (l : list Pin) (nl : Netlist) :
  nl_nets (foldl (reconnectPin n) nl l) = nl_nets nl
  ∧ nl_insts (foldl (reconnectPin n) nl l) = nl_insts nl
  ∧ ∀ p, pin_net (foldl (reconnectPin n) nl l) p
         = if decide (p ∈ l) then Some n else pin_net nl p.
Proof.
  revert nl. induction l as [|q l IH]; intros nl.
  - split; [done|]. split; [done|]. intros p.
    rewrite decide_False; [done|]. by apply not_elem_of_nil.
  - cbn [foldl]. destruct (IH (reconnectPin n nl q)) as (Hn & Hi & Hc).
    rewrite Hn, Hi. split; [done|]. split; [done|]. intros p.
    rewrite Hc. unfold pin_net, reconnectPin. simpl.
    rewrite instance_pin_of_pin, insert_delete_eq.
    destruct (decide (p ∈ l)) as [Hin|Hnin].
    + rewrite decide_True; [done|]. by right.
    + destruct (decide (p = q)) as [->|Hpq].
      * rewrite lookup_insert_eq. rewrite decide_True; [done|]. by left.
      * rewrite lookup_insert_ne by done.
        rewrite decide_False; [done|].
        by intros [?|?]%elem_of_cons.
Qed.

Lemma from_option_last_cons {A} (d : option A) (x : A) (l : list A) :
  from_option Some d (list.last (x :: l))
  = from_option Some (Some x) (list.last l).
Proof.
  destruct l as [|y l]; [done|]. rewrite last_cons_cons.
  destruct (list.last (y :: l)) eqn:E; [done|]. by apply last_None in E.
Qed.

Lemma hold_chain_ext `{Design} (nl nl' : Netlist) (buffer_cell : LibertyCell)
    (drvr_loc : Point) (dx dy i : Z) (in_net : Net)
    (chain : list (Instance * Net)) :
  (∀ b, b ∈ chain.*1 → nl_insts nl' !! b = nl_insts nl !! b) →
  (∀ b q, b ∈ chain.*1 →
          pin_net nl' (InstPin b q) = pin_net nl (InstPin b q)) →
  hold_chain nl buffer_cell drvr_loc dx dy i in_net chain →
  hold_chain nl' buffer_cell drvr_loc dx dy i in_net chain.
Proof.
  revert i in_net. induction chain as [|[b n] chain IH]; intros i in_net;
    [done|].
  intros Hi Hc (Hb & Hin & Hout & Hrest). cbn [hold_chain].
  rewrite Hi, !Hc by (by left). split; [done|]. split; [done|].
  split; [done|]. apply IH; [| |done].
  - intros b' Hb'. apply Hi. by right.
  - intros b' q Hb'. apply Hc. by right.
Qed.

(** The buffer loop: [count] new buffers in a chain from [in_net], every
    one with a new name and a new net on its output; what the netlist had
    is kept. *)
Lemma makeHoldDelay_buffers_chain `{Design} (count : nat) (i : Z)
    (drvr_loc : Point) (dx dy : Z) (buffer_cell : LibertyCell)
    (in_net : Net) (out_net out_net' : option Net) (r r' : Resizer) :
  makeHoldDelay_buffers count i drvr_loc dx dy buffer_cell in_net out_net r
  = Some (r', out_net') →
  (bufferPorts buffer_cell).1 ≠ (bufferPorts buffer_cell).2 →
  in_net ∈ nl_nets (netlist r) →
  (∀ p n, pin_net (netlist r) p = Some n → n ∈ nl_nets (netlist r)) →
  (∀ b q, is_Some (pin_net (netlist r) (InstPin b q)) →
          is_Some (nl_insts (netlist r) !! b)) →
  ∃ chain,
    length chain = count
    ∧ out_net' = from_option Some out_net (list.last chain.*2)
    ∧ hold_chain (netlist r') buffer_cell drvr_loc dx dy i in_net chain
    ∧ (∀ b, b ∈ chain.*1 → nl_insts (netlist r) !! b = None)
    ∧ (∀ n, n ∈ chain.*2 → n ∉ nl_nets (netlist r))
    ∧ (∀ p, is_Some (pin_net (netlist r) p) →
            pin_net (netlist r') p = pin_net (netlist r) p)
    ∧ (∀ b d, nl_insts (netlist r) !! b = Some d →
              nl_insts (netlist r') !! b = Some d).
Proof.
  revert i in_net out_net r.
  induction count as [|count IH]; intros i in_net out_net r Hrun Hports
    Hin Hwf1 Hwf3.
  { injection Hrun as <- <-. exists []. repeat split; try done.
    - by intros b ?%elem_of_nil.
    - by intros n ?%elem_of_nil. }
  cbn [makeHoldDelay_buffers] in Hrun.
  destruct (makeUniqueNetName r) as [[net ra]|] eqn:Hn; [|done].
  apply makeUniqueNetName_inv in Hn as [[k ->] Hnfresh].
  simpl in Hrun.
  destruct (makeUniqueInstName "hold" false _) as [[b rb]|] eqn:Hi;
    [|done].
  apply makeUniqueInstName_inv in Hi as [[k' ->] Hbfresh].
  simpl in Hrun. unfold makeInstance in Hrun.
  destruct (findMaster buffer_cell) eqn:Hm; [|by destruct r].
  simpl in Hrun.
  destruct (bufferPorts buffer_cell) as [input output] eqn:Hbp.
  simpl in Hports.
  match type of Hrun with
  | makeHoldDelay_buffers _ _ _ _ _ _ _ _ ?x = _ => set (r1 := x) in *
  end.
  set (loc := mkPoint (int_add (getX drvr_loc) (int_mul dx i))
                      (int_add (getY drvr_loc) (int_mul dy i))) in *.
  assert (nl_insts (netlist r1)
          = <[b := mkInst buffer_cell loc true]> (nl_insts (netlist r)))
    as Hi1.
  { unfold r1. destruct r; simpl. by rewrite alter_insert_eq. }
  assert (nl_conn (netlist r1)
          = <[InstPin b output := net]>
              (<[InstPin b input := in_net]> (nl_conn (netlist r))))
    as Hc1 by (unfold r1; by destruct r).
  assert (nl_nets (netlist r1) = {[net]} ∪ nl_nets (netlist r)) as Hn1
    by (unfold r1; by destruct r).
  assert (nl_insts (netlist r) !! b = None) as Hb0 by (by destruct r).
  assert (net ∉ nl_nets (netlist r)) as Hnet0 by (by destruct r).
  clearbody r1. clear Hnfresh Hbfresh.
  assert (∀ q, pin_net (netlist r) (InstPin b q) = None) as Hbq.
  { intros q. destruct (pin_net (netlist r) (InstPin b q)) eqn:E; [|done].
    destruct (Hwf3 b q) as [d Hd]; [by eexists|]. congruence. }
  assert (∀ p, (∀ q, p ≠ InstPin b q) →
               pin_net (netlist r1) p = pin_net (netlist r) p) as Hold.
  { intros p Hp. unfold pin_net. rewrite Hc1.
    by rewrite !lookup_insert_ne by (by apply not_eq_sym, Hp). }
  assert (pin_net (netlist r1) (InstPin b input) = Some in_net) as Hbin.
  { unfold pin_net. rewrite Hc1. rewrite lookup_insert_ne by congruence.
    by rewrite lookup_insert_eq. }
  assert (pin_net (netlist r1) (InstPin b output) = Some net) as Hbout.
  { unfold pin_net. rewrite Hc1. by rewrite lookup_insert_eq. }
  assert (∀ p n, pin_net (netlist r1) p = Some n →
                 pin_net (netlist r) p = Some n
                 ∨ (n = net ∧ p = InstPin b output)
                 ∨ (n = in_net ∧ p = InstPin b input)) as Hr1.
  { intros p n. unfold pin_net. rewrite Hc1. intros Hp.
    apply lookup_insert_Some in Hp as [[<- <-]|[_ Hp]];
      [right; by left|].
    apply lookup_insert_Some in Hp as [[<- <-]|[_ Hp]];
      [right; by right|by left]. }
  apply IH in Hrun as (chain & Hlen & Hout & Hchain & Hfb & Hfn & Hfr
                       & Hfi); [|done| | |].
  2:{ rewrite Hn1. apply elem_of_union. left. by apply elem_of_singleton. }
  2:{ intros p n Hp. rewrite Hn1. apply elem_of_union.
      apply Hr1 in Hp as [Hp|[[-> _]|[-> _]]].
      - right. by apply (Hwf1 p).
      - left. by apply elem_of_singleton.
      - by right. }
  2:{ intros b' q [n Hp]. rewrite Hi1.
      apply Hr1 in Hp as [Hp|[[_ [= -> _]]|[_ [= -> _]]]].
      - destruct (Hwf3 b' q) as [d Hd]; [by eexists|].
        assert (b' ≠ b) by congruence.
        rewrite lookup_insert_ne by done. by eexists.
      - rewrite lookup_insert_eq. by eexists.
      - rewrite lookup_insert_eq. by eexists. }
  assert (b ∉ chain.*1) as Hbchain.
  { intros Hb. apply Hfb in Hb. by rewrite Hi1, lookup_insert_eq in Hb. }
  assert (net ∉ chain.*2) as Hnchain.
  { intros Hx. apply Hfn in Hx. apply Hx. rewrite Hn1.
    apply elem_of_union. left. by apply elem_of_singleton. }
  exists ((b, net) :: chain).
  split; [simpl; by rewrite Hlen|].
  split.
  { rewrite Hout, fmap_cons. simpl.
    by rewrite from_option_last_cons. }
  split.
  { cbn [hold_chain]. rewrite Hbp. simpl.
    split; [apply Hfi; by rewrite Hi1, lookup_insert_eq|].
    by rewrite !Hfr by (by eexists). }
  split.
  { intros b' [->|Hb']%elem_of_cons; [done|].
    apply Hfb in Hb'. rewrite Hi1 in Hb'.
    by apply lookup_insert_None in Hb' as [? _]. }
  split.
  { intros n [->|Hn']%elem_of_cons; [done|].
    apply Hfn in Hn'. rewrite Hn1 in Hn'. intros ?. apply Hn'.
    apply elem_of_union. by right. }
  split.
  { intros p [n Hp]. rewrite Hfr.
    - apply Hold. intros q ->. by rewrite Hbq in Hp.
    - rewrite Hold; [by eexists|]. intros q ->. by rewrite Hbq in Hp. }
  intros b' d Hd. apply Hfi. rewrite Hi1.
  rewrite lookup_insert_ne; [done|]. congruence.
Qed.

(** X18. [makeHoldDelay] puts a chain of [buffer_count] new buffers, each
    with a new net on its output, between the net of the driver and the
    loads: the first buffer input is on the driver net, every load ends on
    the output net of the last buffer, and every other connection and
    every instance the netlist had is kept.  The buffer with index [i]
    (from 0) is placed at [drvr_loc + (dx, dy) * i] with
    [(dx, dy) = (drvr_loc - load_center) / (buffer_count + 1)]: the first
    one on the driver pin itself, the others on the far side from the
    loads. *)
Theorem makeHoldDelay_chain `{Design} `{Timer} `{Steiner} (drvr_pin : Pin)
    (buffer_count : Z) (load_pins : list Pin) (buffer_cell : LibertyCell)
    (r r' : Resizer) :
  makeHoldDelay drvr_pin buffer_count load_pins buffer_cell r = Some r' →
  wf_netlist (netlist r) →
  (bufferPorts buffer_cell).1 ≠ (bufferPorts buffer_cell).2 →
  (∀ l, l ∈ load_pins → is_Some (pin_net (netlist r) l)) →
  ∃ drvr_net chain out_net,
    pin_net (netlist r) drvr_pin = Some drvr_net
    ∧ length chain = Z.to_nat buffer_count
    ∧ list.last chain.*2 = Some out_net
    ∧ (∀ b, b ∈ chain.*1 → nl_insts (netlist r) !! b = None)
    ∧ (∀ n, n ∈ chain.*2 → n ∉ nl_nets (netlist r))
    ∧ hold_chain (netlist r') buffer_cell (location drvr_pin)
        (int_div (int_sub (getX (location drvr_pin))
                          (getX (findCenter load_pins)))
                 (int_add buffer_count 1))
        (int_div (int_sub (getY (location drvr_pin))
                          (getY (findCenter load_pins)))
                 (int_add buffer_count 1))
        0 drvr_net chain
    ∧ (∀ l, l ∈ load_pins → pin_net (netlist r') l = Some out_net)
    ∧ (∀ p, is_Some (pin_net (netlist r) p) → p ∉ load_pins →
            pin_net (netlist r') p = pin_net (netlist r) p)
    ∧ (∀ b d, nl_insts (netlist r) !! b = Some d →
              nl_insts (netlist r') !! b = Some d).
Proof.
  intros Hrun (Hwf1 & _ & Hwf3) Hports Hloads.
  unfold makeHoldDelay in Hrun.
  destruct (pin_net (netlist r) drvr_pin) as [drvr_net|] eqn:Hdrvr; [|done].
  simpl in Hrun.
  destruct (makeHoldDelay_buffers _ _ _ _ _ _ _ _ _) as [[r1 out]|] eqn:Hb;
    [|done].
  simpl in Hrun. destruct out as [out_net|]; [|done]. simpl in Hrun.
  apply makeHoldDelay_buffers_chain in Hb
    as (chain & Hlen & Hout & Hchain & Hfb & Hfn & Hfr & Hfi);
    [|done|by apply (Hwf1 drvr_pin)|done|done].
  set (r2 := edit (λ nl, foldl (reconnectPin out_net) nl load_pins) r1)
    in *.
  assert (netlist r' = netlist r2) as ->.
  { destruct (have_estimated_parasitics r2); injection Hrun as <-; [|done].
    destruct (estimateWireParasitic_frame drvr_net r2) as [ps1 ->].
    destruct (estimateWireParasitic_frame out_net (set_parasitics ps1 r2))
      as [ps2 ->].
    by destruct r2. }
  destruct (foldl_reconnectPin_fields out_net load_pins (netlist r1))
    as (Hn2 & Hi2 & Hc2).
  assert (netlist r2 = foldl (reconnectPin out_net) (netlist r1) load_pins)
    as -> by (unfold r2; by destruct r1).
  clear Hrun r2.
  assert (∀ b q, b ∈ chain.*1 → InstPin b q ∉ load_pins) as Hnl.
  { intros b q Hbc Hl. apply Hloads, Hwf3 in Hl as [d Hd].
    apply Hfb in Hbc. congruence. }
  exists drvr_net, chain, out_net.
  split; [done|]. split; [done|].
  split.
  { destruct (list.last chain.*2); [by injection Hout as <-|done]. }
  split; [done|]. split; [done|].
  split.
  { apply (hold_chain_ext (netlist r1)); [| |done].
    - intros b _. by rewrite Hi2.
    - intros b q Hbc. rewrite Hc2. rewrite decide_False; [done|].
      by apply Hnl. }
  split.
  { intros l Hl. rewrite Hc2. by rewrite decide_True. }
  split.
  { intros p Hp Hnin. rewrite Hc2. rewrite decide_False by done.
    by apply Hfr. }
  intros b d Hd. rewrite Hi2. by apply Hfi.
Qed.

Example makeHoldDelay_example :
  let D := example_design in
  (λ r', (map_to_list (nl_insts (netlist r')),
          map_to_list (nl_conn (netlist r'))))
    <$> makeHoldDelay (H := D) (H0 := example_timer) (H1 := example_steiner)
          (TopPin "A") 2 [InstPin "U1" "I"] "BUF_X1" example_resizer
  = Some ([("U1", mkInst "AND_X1" (mkPoint 1000 1000) true);
           ("input1", mkInst "BUF_X1" (mkPoint 10 10) true);
           ("hold1", mkInst "BUF_X1" (mkPoint (-50) 700) true);
           ("hold2", mkInst "BUF_X1" (mkPoint (-400) 600) true)],
          [(TopPin "A", "A"); (InstPin "U1" "I", "net4");
           (InstPin "hold1" "A", "A"); (InstPin "hold2" "A", "net3");
           (InstPin "hold1" "Z", "net3"); (InstPin "hold2" "Z", "net4")]).
Proof. by vm_compute. Qed.

Lemma makeHoldDelay_chain_witness :
  let D := example_design in
  let T := example_timer in
  let S := example_steiner in
  let r := example_resizer in
  let r' := default r (makeHoldDelay (H := D) (H0 := T) (H1 := S)
                         (TopPin "A") 2 [InstPin "U1" "I"] "BUF_X1" r) in
  (makeHoldDelay (H := D) (H0 := T) (H1 := S) (TopPin "A") 2
     [InstPin "U1" "I"] "BUF_X1" r = Some r'
   ∧ wf_netlist (netlist r)
   ∧ (bufferPorts (Design := D) "BUF_X1").1
     ≠ (bufferPorts (Design := D) "BUF_X1").2
   ∧ (∀ l, l ∈ [InstPin "U1" "I"] → is_Some (pin_net (netlist r) l)))
  ∧ ∃ drvr_net chain out_net,
      pin_net (netlist r) (TopPin "A") = Some drvr_net
      ∧ length chain = 2%nat
      ∧ list.last chain.*2 = Some out_net
      ∧ hold_chain (H := D) (netlist r') "BUF_X1" (mkPoint (-50) 700)
          (-350) (-100) 0 drvr_net chain
      ∧ pin_net (netlist r') (InstPin "U1" "I") = Some out_net.
Proof.
  intros D T S r r'.
  assert (makeHoldDelay (H := D) (H0 := T) (H1 := S) (TopPin "A") 2
            [InstPin "U1" "I"] "BUF_X1" r = Some r') as H1
    by (by vm_compute).
  assert (wf_netlist (netlist r)) as H2
    by (apply wf_netlistb_correct; by vm_compute).
  assert ((bufferPorts (Design := D) "BUF_X1").1
          ≠ (bufferPorts (Design := D) "BUF_X1").2) as H3 by done.
  assert (∀ l, l ∈ [InstPin "U1" "I"] → is_Some (pin_net (netlist r) l))
    as H4.
  { intros l ->%list_elem_of_singleton. by eexists. }
  split; [exact (conj H1 (conj H2 (conj H3 H4)))|].
  destruct (makeHoldDelay_chain (H := D) (H0 := T) (H1 := S) (TopPin "A") 2
              [InstPin "U1" "I"] "BUF_X1" r r' H1 H2 H3 H4)
    as (drvr_net & chain & out_net & Hd & Hlen & Hlast & _ & _ & Hchain
        & Hl & _).
  exists drvr_net, chain, out_net.
  split; [done|]. split; [done|]. split; [done|]. split; [done|].
  apply Hl. by left.
Defined.
(** ** [repairHoldViolations] *)

Lemma findHoldViolations_length `{Timer} `{Fuzzy} (nl : Netlist)
    (ends : list Pin) :
  (length (findHoldViolations nl ends).2 ≤ length ends)%nat.
Proof.
  unfold findHoldViolations.
  assert (∀ acc : float * list Pin,
            (length (foldl (λ '(worst_slack, hold_violations) end_vertex,
                       let slack := vertexSlack_min nl end_vertex in
                       if negb (isClock end_vertex) && fuzzyLess slack 0%Qc
                       then
                         let worst_slack :=
                           if float_lt (Finite slack) worst_slack
                           then Finite slack else worst_slack in
                         (worst_slack, hold_violations ++ [end_vertex])
                       else (worst_slack, hold_violations))
                     acc ends).2
             ≤ length acc.2 + length ends)%nat) as Hgen.
  { induction ends as [|e ends IH]; intros [w hv]; [simpl; lia|].
    cbn [foldl].
    destruct (negb (isClock e) && fuzzyLess (vertexSlack_min nl e) 0%Qc).
    - etrans; [apply IH|]. simpl. rewrite length_app. simpl. lia.
    - etrans; [apply IH|]. simpl. lia. }
  apply (Hgen (INF, [])).
Qed.

(** The pass loop adds up what the passes insert: the counter and the
    number of instances grow by the same amount, and the recorded area
    stays in step. *)
Lemma repairHoldViolations_loop_count `{Design} `{Timer} `{Steiner} `{Fuzzy}
    (fuel : nat) (ends : list Pin) (buffer_cell : LibertyCell)
    (buffer_delay : Qc) (allow : bool) (hold_failures : list Pin)
    (repair_count pass : Z) (r r' : Resizer) :
  repairHoldViolations_loop fuel ends buffer_cell buffer_delay allow
    hold_failures repair_count pass r = Some r' →
  (length hold_failures ≤ length ends)%nat →
  0 ≤ inserted_buffer_count r →
  inserted_buffer_count r
  + Z.of_nat fuel * Z.max ((Z.of_nat (length ends) * 2) `div` 10) 10
  ≤ int_max →
  inserted_buffer_count r ≤ inserted_buffer_count r'
  ∧ Z.of_nat (size (nl_insts (netlist r')))
    - Z.of_nat (size (nl_insts (netlist r)))
    = inserted_buffer_count r' - inserted_buffer_count r
  ∧ (area_recorded r → area_recorded r').
Proof.
  set (M := Z.max ((Z.of_nat (length ends) * 2) `div` 10) 10).
  revert hold_failures repair_count pass r.
  induction fuel as [|fuel IH];
    intros hold_failures repair_count pass r Hrun Hlen Hc0 Hbound; [done|].
  cbn [repairHoldViolations_loop] in Hrun.
  destruct (negb (bool_decide (hold_failures = []))
            && bool_decide (0 < repair_count)).
  2:{ injection Hrun as <-. split; [lia|]. split; [lia|done]. }
  destruct (repairHoldPass _ _ _ _ _) as [[n r1]|] eqn:Hpass; [|done].
  simpl in Hrun.
  destruct (findHoldViolations (netlist r1) ends) as [w fails] eqn:Hfind.
  assert (10 ≤ M) as HM10 by apply Z.le_max_r.
  assert (Z.max ((Z.of_nat (length hold_failures) * 2) `div` 10) 10 ≤ M)
    as HM.
  { apply Z.max_le_compat_r, Z.div_le_mono; lia. }
  rewrite Nat2Z.inj_succ in Hbound.
  assert (0 ≤ Z.of_nat fuel * M) as Hfm by (apply Z.mul_nonneg_nonneg; lia).
  unfold repairHoldPass in Hpass.
  pose proof (repairHoldPass_loop_area_recorded _ _ _ _ _ _ _ _ _ Hpass)
    as Harea1.
  apply repairHoldPass_loop_count in Hpass
    as (Hn & Hc1 & Hs1 & _); [|lia|lia|lia|lia].
  apply IH in Hrun as (Hle & Hsz & Harea).
  - split; [lia|]. split; [lia|]. intros ?. by apply Harea, Harea1.
  - pose proof (findHoldViolations_length (netlist r1) ends) as Hl.
    by rewrite Hfind in Hl.
  - lia.
  - lia.
Qed.

(** X19. A run of [repairHoldViolations] that finds no failing endpoint
    only prints that it found none.  Otherwise [inserted_buffer_count]
    is set to 0 once, before the first pass, so that after the last pass
    it is the number of instances the whole run has added; that number is
    what ["Inserted %d hold buffers."] prints, as the last message, when
    it is positive.  Either way the recorded design area stays in step
    with the netlist.  (The bound keeps the counter within [int]: at most
    [fuel] passes of at most [max(0.2 * ends, 10)] buffers.) *)
Theorem repairHoldViolations_count `{Design} `{Timer} `{Steiner} `{Fuzzy}
    (fuel : nat) (ends : list Pin) (buffers : list LibertyCell)
    (allow_setup_violations : bool) (r r' : Resizer) :
  repairHoldViolations fuel ends buffers allow_setup_violations r
  = Some r' →
  Z.of_nat fuel * Z.max ((Z.of_nat (length ends) * 2) `div` 10) 10
  ≤ int_max →
  (area_recorded r → area_recorded r')
  ∧ if decide ((findHoldViolations (netlist r) ends).2 = [])
    then r' = printf ("No hold violations found." +:+ newline) (init r)
    else 0 ≤ inserted_buffer_count r'
         ∧ Z.of_nat (size (nl_insts (netlist r')))
           = Z.of_nat (size (nl_insts (netlist r)))
             + inserted_buffer_count r'
         ∧ (0 < inserted_buffer_count r' →
            list.last (messages r')
            = Some (Printf ("Inserted " +:+ pretty (inserted_buffer_count r')
                            +:+ " hold buffers." +:+ newline))
            ∧ level_drvr_verticies_valid r' = false).
Proof.
  intros Hrun Hbound. unfold repairHoldViolations in Hrun.
  destruct (head buffers) as [buffer_cell|]; [|done]. simpl in Hrun.
  unfold repairHoldViolations_ends in Hrun.
  assert (netlist (init r) = netlist r) as Hinit by (by destruct r).
  rewrite Hinit in Hrun.
  pose proof (findHoldViolations_length (netlist r) ends) as Hlen.
  destruct (findHoldViolations (netlist r) ends) as [w fails] eqn:Hfind.
  simpl in Hlen. simpl.
  destruct (decide (fails = [])) as [->|Hne].
  { simpl in Hrun. injection Hrun as <-. split; [|done].
    apply area_recorded_same; by destruct r. }
  rewrite bool_decide_eq_false_2 in Hrun by done. simpl in Hrun.
  match type of Hrun with
  | repairHoldViolations_loop _ _ _ _ _ _ _ _ ?x ≫= _ = _ =>
      set (r0 := x) in *
  end.
  assert (inserted_buffer_count r0 = 0 ∧ netlist r0 = netlist r
          ∧ design_area r0 = design_area r) as (Hc0 & Hn0 & Hd0)
    by (unfold r0; by destruct r).
  clearbody r0.
  destruct (repairHoldViolations_loop _ _ _ _ _ _ _ _ _) as [r1|] eqn:Hloop;
    [|done].
  simpl in Hrun.
  apply repairHoldViolations_loop_count in Hloop as (Hle & Hsz & Harea);
    [|done|lia|lia].
  rewrite Hc0, Hn0 in *.
  assert (inserted_buffer_count r' = inserted_buffer_count r1
          ∧ netlist r' = netlist r1 ∧ design_area r' = design_area r1)
    as (Hc' & Hn' & Hd').
  { destruct (bool_decide (0 < inserted_buffer_count r1));
      injection Hrun as <-; by destruct r1. }
  split.
  { intros Hrec. unfold area_recorded in *. rewrite Hd', Hn'.
    apply Harea. by rewrite Hd0, Hn0. }
  rewrite Hc', Hn'. split; [lia|]. split; [lia|].
  intros Hpos. rewrite bool_decide_eq_true_2 in Hrun by done.
  injection Hrun as <-. destruct r1; simpl. split; [|done].
  by rewrite last_snoc.
Qed.

Example repairHoldViolations_example :
  let D := example_design in
  (λ r', (dom (nl_insts (netlist r')), messages r',
          inserted_buffer_count r'))
    <$> repairHoldViolations (H := D) (H0 := example_repair_timer)
          (H1 := example_steiner) (H2 := example_fuzzy) 5
          [InstPin "FF" "D"] ["BUF_X1"] false example_hold
  = Some ({[ "U0"; "FF"; "hold1"; "hold2" ]},
          [Printf ("Found 1 endpoints with hold violations." +:+ newline);
           Printf ("Inserted 2 hold buffers." +:+ newline)],
          2).
Proof. by vm_compute. Qed.

Lemma repairHoldViolations_count_witness :
  let D := example_design in
  let T := example_repair_timer in
  let S := example_steiner in
  let F := example_fuzzy in
  let r := example_hold in
  let r' := default r (repairHoldViolations (H := D) (H0 := T) (H1 := S)
                         (H2 := F) 5 [InstPin "FF" "D"] ["BUF_X1"] false
                         r) in
  (repairHoldViolations (H := D) (H0 := T) (H1 := S) (H2 := F) 5
     [InstPin "FF" "D"] ["BUF_X1"] false r = Some r'
   ∧ 5 * Z.max ((1 * 2) `div` 10) 10 ≤ int_max)
  ∧ Z.of_nat (size (nl_insts (netlist r')))
    = Z.of_nat (size (nl_insts (netlist r))) + inserted_buffer_count r'.
Proof.
  intros D T S F r r'.
  assert (repairHoldViolations (H := D) (H0 := T) (H1 := S) (H2 := F) 5
            [InstPin "FF" "D"] ["BUF_X1"] false r = Some r') as H1
    by (by vm_compute).
  assert (5 * Z.max ((1 * 2) `div` 10) 10 ≤ int_max) as H2 by done.
  split; [exact (conj H1 H2)|].
  pose proof (proj2 (repairHoldViolations_count (H := D) (H0 := T) (H1 := S)
                       (H2 := F) 5 [InstPin "FF" "D"] ["BUF_X1"] false r r'
                       H1 H2)) as Hspec.
  exact (proj1 (proj2 Hspec)).
Defined.
(** ** What [bufferOutputs] achieves *)

(** What a call of [bufferOutput] that returns has done, when the buffer
    cell has a master. *)
Lemma bufferOutput_inv `{Design} (top_pin : Pin) (output_net : Net)
    (buffer_cell : LibertyCell) (m : Master) (r r' : Resizer) :
  bufferOutput top_pin output_net buffer_cell r = Some r' →
  findMaster buffer_cell = Some m →
  ∃ fresh buffer,
    (fresh ∉ nl_nets (netlist r))
    ∧ nl_insts (netlist r) !! buffer = None
    ∧ nl_nets (netlist r') = {[fresh]} ∪ nl_nets (netlist r)
    ∧ nl_special (netlist r') = nl_special (netlist r) ∖ {[fresh]}
    ∧ nl_insts (netlist r')
      = <[buffer := mkInst buffer_cell (location top_pin) true]>
          (nl_insts (netlist r))
    ∧ (∀ p, pin_net (netlist r') p
        = if decide (p = InstPin buffer (bufferPorts buffer_cell).2)
          then Some output_net
          else if decide (p = InstPin buffer (bufferPorts buffer_cell).1)
          then Some fresh
          else if decide (pin_net (netlist r) p = Some output_net
                          ∧ p ≠ top_pin)
          then Some fresh
          else pin_net (netlist r) p)
    ∧ inserted_buffer_count r' = int_incr (inserted_buffer_count r)
    ∧ design_area r' = (design_area r + area buffer_cell)%Qc.
Proof.
  intros Hrun Hmaster. unfold bufferOutput in Hrun.
  destruct (bufferPorts buffer_cell) as [input output] eqn:Hports.
  destruct (makeUniqueNetName r) as [[fresh ra]|] eqn:Hn; [|done].
  apply makeUniqueNetName_inv in Hn as [[k ->] Hnf].
  simpl in Hrun.
  destruct (makeUniqueInstName "output" false _) as [[buffer rb]|] eqn:Hi;
    [|done].
  apply makeUniqueInstName_inv in Hi as [[k' ->] Hbf].
  simpl in Hrun. unfold makeInstance in Hrun. rewrite Hmaster in Hrun.
  simpl in Hrun. injection Hrun as <-.
  exists fresh, buffer. destruct r; simpl in *. unfold edit; simpl.
  change (bufferOutput_pin top_pin fresh)
    with (removeBuffers_pin top_pin fresh).
  match goal with
  | |- context [foldl ?f ?a ?l] =>
      destruct (foldl_removeBuffers_pin top_pin fresh l a)
        as (Hfn & Hfs & Hfi & Hfc & _)
  end.
  rewrite Hfn, Hfs, Hfi. simpl.
  split; [done|]. split; [done|]. split; [done|]. split; [done|].
  split; [by rewrite alter_insert_eq|].
  split; [|done].
  intros p. unfold pin_net. simpl.
  destruct (decide (p = InstPin buffer output)) as [->|Hpo].
  { by rewrite lookup_insert_eq. }
  rewrite lookup_insert_ne by done.
  destruct (decide (p = InstPin buffer input)) as [->|Hpi].
  { by rewrite lookup_insert_eq. }
  rewrite lookup_insert_ne by done.
  rewrite Hfc. simpl.
  match goal with
  | |- context [p ∈ net_pins ?a ?b] =>
      pose proof (elem_of_net_pins a b p) as Hpins
  end.
  unfold pin_net in Hpins. simpl in Hpins.
  repeat case_decide; try done; exfalso; intuition congruence.
Qed.

(** One round of the port loop. *)
Lemma bufferOutputs_port_inv `{Design} (buffer_cell : LibertyCell)
    (m : Master) (nl0 : Netlist) (visited todo : list string) (q : string)
    (r r1 : Resizer) :
  bufferOutputs_port buffer_cell r (TopPin q) = Some r1 →
  findMaster buffer_cell = Some m →
  q ∉ visited →
  q ∉ todo →
  bufferOutputs_inv buffer_cell nl0 visited (q :: todo) (netlist r) →
  bufferOutputs_inv buffer_cell nl0 (q :: visited) todo (netlist r1).
Proof.
  intros Hrun Hmaster Hqv Hqt ((Hwf1 & Hwfs & Hwf3) & Hvis & Htodo).
  unfold bufferOutputs_port in Hrun.
  (* a port that is passed over was not to be buffered *)
  assert ((∀ net', isOutput (direction (TopPin q)) = true →
                   pin_net (netlist r) (TopPin q) = Some net' →
                   isSpecial (netlist r) net' = false → False) →
          bufferOutputs_inv buffer_cell nl0 (q :: visited) todo (netlist r))
    as Hskip.
  { intros Hno. split; [done|]. split.
    - intros q' net Hq' Hout Hnet Hsp.
      apply elem_of_cons in Hq' as [Heq|Hq']; [subst q'|].
      + destruct (Htodo q net) as (net' & Hnet' & Hsp'); [by left|done..|].
        by destruct (Hno net' Hout Hnet' Hsp').
      + by apply (Hvis q' net).
    - intros q' net Hq'. apply Htodo. by right. }
  destruct (isOutput (direction (TopPin q))) eqn:Hout.
  2:{ injection Hrun as <-. apply Hskip. by intros net' ?. }
  destruct (pin_net (netlist r) (TopPin q)) as [net|] eqn:Hnet.
  2:{ injection Hrun as <-. apply Hskip. by intros net' _ ?. }
  destruct (isSpecial (netlist r) net) eqn:Hsp.
  { injection Hrun as <-. apply Hskip. intros net' _ [= <-]. congruence. }
  clear Hskip. simpl in Hrun.
  apply (bufferOutput_inv _ _ _ m) in Hrun
    as (fresh & buffer & Hf & Hb & Hn' & Hs' & Hi' & Hc' & _); [|done].
  set (top := TopPin q) in *.
  set (bo := InstPin buffer (bufferPorts buffer_cell).2) in *.
  set (bi := InstPin buffer (bufferPorts buffer_cell).1) in *.
  assert (net ∈ nl_nets (netlist r)) as Hnetin by (by apply (Hwf1 top)).
  assert (net ≠ fresh) as Hnf by (intros ->; done).
  assert (∀ p n, pin_net (netlist r1) p = Some n →
                 n ≠ net → n ≠ fresh → pin_net (netlist r) p = Some n)
    as Hback.
  { intros p n Hp Hn1 Hn2. rewrite Hc' in Hp.
    repeat case_decide; congruence. }
  assert (∀ p n, pin_net (netlist r) p = Some n → n ≠ net →
                 (∀ x, p ≠ InstPin buffer x) →
                 pin_net (netlist r1) p = Some n) as Hkeep.
  { intros p n Hp Hn1 Hpb. rewrite Hc'.
    rewrite decide_False by apply Hpb.
    rewrite decide_False by apply Hpb.
    rewrite decide_False; [done|]. intros [? _]. congruence. }
  split; [split; [|split]|split].
  - (* connections are to nets *)
    intros p n Hp. rewrite Hn'. apply elem_of_union.
    destruct (decide (n = fresh)) as [->|Hn2];
      [left; by apply elem_of_singleton|right].
    destruct (decide (n = net)) as [->|Hn1]; [done|].
    apply (Hwf1 p). by apply Hback.
  - rewrite Hs', Hn'. intros x [Hx _]%elem_of_difference.
    apply elem_of_union. right. by apply Hwfs.
  - intros i x [n Hp]. rewrite Hi'.
    destruct (decide (i = buffer)) as [->|Hib].
    { rewrite lookup_insert_eq. by eexists. }
    rewrite lookup_insert_ne by done. apply (Hwf3 i x).
    rewrite Hc' in Hp.
    rewrite decide_False in Hp by (unfold bo; congruence).
    rewrite decide_False in Hp by (unfold bi; congruence).
    case_decide as Hmv; [destruct Hmv as [Hmv _]|]; by eexists.
  - (* the ports visited *)
    intros q' net0 Hq' Hout' Hnet0 Hsp0.
    apply elem_of_cons in Hq' as [Heq|Hq']; [subst q'|].
    + exists net, buffer, (mkInst buffer_cell (location top) true).
      assert (pin_net (netlist r1) top = Some net) as Htop.
      { rewrite Hc'. rewrite !decide_False; [done| |done|done].
        by intros [_ ?]. }
      split; [done|]. split; [by rewrite Hi', lookup_insert_eq|].
      split; [done|]. intros p. split.
      * intros Hp. rewrite Hc' in Hp.
        destruct (decide (p = bo)); [by right|].
        destruct (decide (p = bi)); [congruence|].
        case_decide as Hmv; [congruence|].
        left. apply dec_stable. intros Hpt. apply Hmv. by split.
      * intros [->| ->]; [done|]. rewrite Hc'. by rewrite decide_True.
    + assert (q' ≠ q) as Hne by (intros ->; done).
      destruct (Hvis q' net0 Hq' Hout' Hnet0 Hsp0)
        as (nA & bA & dA & HA & HbA & HmA & HpinsA).
      assert (nA ≠ net) as HnA.
      { intros ->. apply HpinsA in Hnet as [[= ?]|[= ]]. done. }
      assert (nA ≠ fresh) as HnAf.
      { intros ->. apply Hf. by apply (Hwf1 (TopPin q')). }
      assert (bA ≠ buffer) as HbAb by (intros ->; congruence).
      exists nA, bA, dA.
      split; [by apply Hkeep|].
      split; [by rewrite Hi', lookup_insert_ne|].
      split; [done|]. intros p. split.
      * intros Hp. apply HpinsA. by apply Hback.
      * intros Hp. apply Hkeep; [by apply HpinsA|done|].
        intros x. destruct Hp as [->| ->]; [done|congruence].
  - (* the ports to come *)
    intros q' net0 Hq' Hnet0 Hsp0.
    assert (q' ≠ q) as Hne by (intros ->; done).
    destruct (Htodo q' net0) as (net' & Hnet' & Hsp'); [by right|done..|].
    assert (∀ n, n = fresh ∨ isSpecial (netlist r) n = false →
                 isSpecial (netlist r1) n = false) as Hspec.
    { intros n Hn. unfold isSpecial in *. apply bool_decide_eq_false.
      rewrite Hs'. intros [Hin Hnin]%elem_of_difference.
      destruct Hn as [->|Hn].
      - apply Hnin. by apply elem_of_singleton.
      - by apply bool_decide_eq_false in Hn. }
    destruct (decide (net' = net)) as [->|Hn1].
    + exists fresh. split; [|apply Hspec; by left].
      rewrite Hc'. rewrite !decide_False by done.
      rewrite decide_True; [done|]. split; [done|]. unfold top. congruence.
    + exists net'. split; [|apply Hspec; by right].
      by apply Hkeep.
Qed.

(** The port loop, from any point of the list of ports on. *)
Lemma bufferOutputs_loop_inv `{Design} (buffer_cell : LibertyCell)
    (m : Master) (nl0 : Netlist) (visited todo : list string)
    (r r' : Resizer) :
  foldl (λ st pin, r ← st; bufferOutputs_port buffer_cell r pin)
        (Some r) (TopPin <$> todo) = Some r' →
  findMaster buffer_cell = Some m →
  NoDup (visited ++ todo) →
  bufferOutputs_inv buffer_cell nl0 visited todo (netlist r) →
  bufferOutputs_inv buffer_cell nl0 (reverse todo ++ visited) [] (netlist r').
Proof.
  intros Hrun Hmaster. revert visited r Hrun.
  induction todo as [|q todo IH]; intros visited r Hrun Hnd Hinv.
  { by injection Hrun as <-. }
  rewrite fmap_cons in Hrun. cbn [foldl] in Hrun.
  replace (Some r ≫= λ r, bufferOutputs_port buffer_cell r (TopPin q))
    with (bufferOutputs_port buffer_cell r (TopPin q)) in Hrun by done.
  destruct (bufferOutputs_port buffer_cell r (TopPin q)) as [r1|] eqn:Hstep.
  2:{ by rewrite foldl_option_None in Hrun. }
  apply list.NoDup_app in Hnd as (Hnv & Hdisj & Hnt).
  apply list.NoDup_cons in Hnt as [Hqt Hnt].
  assert (q ∉ visited) as Hqv.
  { intros Hq. apply (Hdisj q Hq). by left. }
  pose proof (bufferOutputs_port_inv _ _ _ _ _ _ _ _ Hstep Hmaster Hqv Hqt
                Hinv) as Hinv1.
  rewrite reverse_cons, <- app_assoc. simpl.
  apply (IH (q :: visited) r1); [done| |done].
  apply list.NoDup_app. split; [by apply list.NoDup_cons|].
  split; [|done].
  intros x [->|Hx]%elem_of_cons; [done|].
  intros Hxt. apply (Hdisj x Hx). by right.
Qed.

(** X20. After [bufferOutputs] every output port that had a net without
    the special flag is behind a buffer: the net of the port has the port
    pin and the output pin of an instance of the buffer cell, and nothing
    else.  The buffer cell has a LEF master, the netlist is well formed
    and no port is listed twice. *)
Theorem bufferOutputs_buffered `{Design} (buffer_cell : LibertyCell)
    (m : Master) (r r' : Resizer) (q : string) (net : Net) :
  bufferOutputs buffer_cell r = Some r' →
  findMaster buffer_cell = Some m →
  wf_netlist (netlist r) →
  NoDup topPorts →
  q ∈ topPorts →
  isOutput (direction (TopPin q)) = true →
  pin_net (netlist r) (TopPin q) = Some net →
  isSpecial (netlist r) net = false →
  buffered_output (netlist r') buffer_cell (bufferPorts buffer_cell).2
    (TopPin q).
Proof.
  intros Hrun Hmaster Hwf Hnd Hq Hout Hnet Hsp.
  unfold bufferOutputs in Hrun.
  destruct (foldl _ _ _) as [r1|] eqn:Hloop; [|done]. simpl in Hrun.
  apply (bufferOutputs_loop_inv _ m (netlist r) []) in Hloop
    as (_ & Hvis & _); [|done|by rewrite app_nil_l|].
  - assert (netlist r' = netlist r1) as ->.
    { destruct (bool_decide (0 < inserted_buffer_count r1));
        injection Hrun as <-; by destruct r1. }
    apply (Hvis q net); [|done..].
    apply elem_of_app. left. by apply elem_of_reverse.
  - assert (netlist (set_inserted_buffer_count 0 (init r)) = netlist r)
      as -> by (by destruct r).
    split; [done|]. split.
    + by intros q' net' ?%elem_of_nil.
    + intros q' net' _ Hnet' Hsp'. by exists net'.
Qed.

Example bufferOutputs_pass_example :
  let D := example_output_design in
  let r := set_netlist example_output_netlist example_resizer in
  (λ r', (map_to_list (nl_conn (netlist r')), messages r',
          level_drvr_verticies_valid r'))
    <$> bufferOutputs (H := D) "BUF_X1" r
  = Some ([(TopPin "OUT", "out"); (InstPin "output1" "A", "net1");
           (InstPin "U2" "I", "net1"); (InstPin "output1" "Z", "out");
           (InstPin "U1" "Z", "net1")],
          [Printf ("Inserted 1 output buffers." +:+ newline)],
          false).
Proof. by vm_compute. Qed.

Lemma bufferOutputs_buffered_witness :
  let D := example_output_design in
  let r := set_netlist example_output_netlist example_resizer in
  let r' := default r (bufferOutputs (H := D) "BUF_X1" r) in
  (bufferOutputs (H := D) "BUF_X1" r = Some r'
   ∧ findMaster (Design := D) "BUF_X1" = Some (mkMaster true 200 400)
   ∧ wf_netlist (netlist r)
   ∧ NoDup (topPorts (Design := D))
   ∧ "OUT" ∈ topPorts (Design := D)
   ∧ isOutput (direction (Design := D) (TopPin "OUT")) = true
   ∧ pin_net (netlist r) (TopPin "OUT") = Some "out"
   ∧ isSpecial (netlist r) "out" = false)
  ∧ buffered_output (netlist r') "BUF_X1" "Z" (TopPin "OUT").
Proof.
  intros D r r'.
  assert (bufferOutputs (H := D) "BUF_X1" r = Some r') as H1
    by (by vm_compute).
  assert (findMaster (Design := D) "BUF_X1" = Some (mkMaster true 200 400))
    as H2 by done.
  assert (wf_netlist (netlist r)) as H3
    by (apply wf_netlistb_correct; by vm_compute).
  assert (NoDup (topPorts (Design := D))) as H4
    by (apply (bool_decide_unpack _); by vm_compute).
  assert ("OUT" ∈ topPorts (Design := D)) as H5
    by (simpl; by repeat constructor).
  assert (isOutput (direction (Design := D) (TopPin "OUT")) = true) as H6
    by done.
  assert (pin_net (netlist r) (TopPin "OUT") = Some "out") as H7
    by (by vm_compute).
  assert (isSpecial (netlist r) "out" = false) as H8 by (by vm_compute).
  split; [exact (conj H1 (conj H2 (conj H3 (conj H4 (conj H5 (conj H6
                   (conj H7 H8)))))))|].
  exact (bufferOutputs_buffered (H := D) "BUF_X1" (mkMaster true 200 400)
           r r' "OUT" "out" H1 H2 H3 H4 H5 H6 H7 H8).
Defined.
